(** * Pessimistic transactions: a shallow embedding of
      [utilities/transactions/transaction_impl.cc]

    The development follows the source file function by function.  The
    transaction object and the world it runs in (lock table, store, clock,
    registry of expirable transactions) are records; every member function
    becomes a function that takes the transaction and the world and returns
    its result together with the new transaction and the new world.

    Collaborators whose code lives in other files of the repository (the
    lock table, the base class that owns the tracked keys and the save
    points, the conflict check against the store's history) are modelled
    from the specification; each such definition says so. *)

From Stdlib Require Import ZArith NArith List Sorted.
From stdpp Require Import base option numbers strings list sorting gmap fin_maps.

Local Open Scope N_scope.

(** ** Basic types *)

(** [uint32_t] column family identifiers. *)
Abbreviation ColumnFamilyID := N.

(** [SequenceNumber] is a [uint64_t]. *)
Abbreviation SequenceNumber := N.

(** [TransactionID] is a [uint64_t]. *)
Abbreviation TransactionID := N.

(** Modelled from the spec: the "+infinity sentinel" [kMaxSequenceNumber];
    its declaration is in [db/dbformat.h], which is not part of the sources
    at hand.  The value is the 56-bit maximum the store uses. *)
Definition kMaxSequenceNumber : SequenceNumber := 2 ^ 56 - 1.

(** Modelled from the spec: [Status], whose declaration
    ([rocksdb/status.h]) is not part of the sources at hand.  [OK] and the
    error kinds of the specification; [NotFound] is what rolling back
    without a save point reports. *)
Inductive Status : Set :=
| OK
| LockTimeout
| LockConflict
| Conflict
| Expired
| StoreWriteError
| NotFound.

(** [Status::ok()] *)
Definition ok (s : Status) : bool :=
  match s with OK => true | _ => false end.

Global Instance Status_eq_dec : EqDecision Status.
Proof. solve_decision. Defined.

(** The three values of [exec_status_] the source names; the enumeration
    is declared in the class's header. *)
Inductive ExecutionStatus : Set := STARTED | COMMITTING | LOCKS_STOLEN.

Global Instance ExecutionStatus_eq_dec : EqDecision ExecutionStatus.
Proof. solve_decision. Defined.

(** Modelled from the spec: the write batch, an external collaborator whose
    [Iterate] yields, "in original insertion order, each staged operation
    tagged with its column-family id, key, and operation kind
    (put/merge/delete)". *)
Inductive WriteOp : Set :=
| PutOp (column_family_id : ColumnFamilyID) (key value : string)
| MergeOp (column_family_id : ColumnFamilyID) (key value : string)
| DeleteOp (column_family_id : ColumnFamilyID) (key : string).

Definition WriteBatch := list WriteOp.

(** [TransactionKeyMap]: column family id -> key -> sequence number. *)
Abbreviation TransactionKeyMap := (gmap N (gmap string N)).

(** ** The batch lock planner: [LockBatch]'s local [Handler] class *)

Module Handler.

(** [std::set<std::string>] is kept as the strictly ascending list of its
    elements; [std::string] compares bytewise, which is [String.compare]. *)
Definition string_set := list string.

(** [set.find(key) != set.end()] *)
Fixpoint set_find (key : string) (s : string_set) : bool :=
  match s with
  | [] => false
  | x :: s' =>
      match String.compare key x with
      | Eq => true
      | Lt => false
      | Gt => set_find key s'
      end
  end.

(** [set.insert(key)]: the element goes to its place in the order; an
    element that is already there is not inserted again. *)
Fixpoint set_insert (key : string) (s : string_set) : string_set :=
  match s with
  | [] => [key]
  | x :: s' =>
      match String.compare key x with
      | Eq => x :: s'
      | Lt => key :: x :: s'
      | Gt => x :: set_insert key s'
      end
  end.

(** [std::map<uint32_t, std::set<std::string>> keys_] is kept as the list
    of its entries in ascending order of the column family id. *)
Definition keys_t := list (ColumnFamilyID * string_set).

(** [keys_[column_family_id]] names one slot of the map, which
    [operator[]] creates empty when the id has no entry yet.  [subscript]
    applies [f] to that slot. *)
Fixpoint subscript (column_family_id : ColumnFamilyID)
         (f : string_set -> string_set) (keys_ : keys_t) : keys_t :=
  match keys_ with
  | [] => [(column_family_id, f [])]
  | (c, s) :: rest =>
      match N.compare column_family_id c with
      | Eq => (c, f s) :: rest
      | Lt => (column_family_id, f []) :: (c, s) :: rest
      | Gt => (c, s) :: subscript column_family_id f rest
      end
  end.

(** [RecordKey]: look the key up in the column family's set and insert it
    when it is not there. *)
Definition RecordKey (column_family_id : ColumnFamilyID) (key : string)
           (keys_ : keys_t) : keys_t :=
  subscript column_family_id
            (fun s => if set_find key s then s else set_insert key s)
            keys_.

(** [PutCF], [MergeCF] and [DeleteCF] all record the key and return OK. *)
Definition visit (op : WriteOp) (keys_ : keys_t) : keys_t :=
  match op with
  | PutOp cf key _ => RecordKey cf key keys_
  | MergeOp cf key _ => RecordKey cf key keys_
  | DeleteOp cf key => RecordKey cf key keys_
  end.

(** [batch->Iterate(&handler)] on a handler that starts empty. *)
Definition Iterate (batch : WriteBatch) : keys_t :=
  fold_left (fun keys_ op => visit op keys_) batch [].

End Handler.

(** The (column family, key) pair an operation touches. *)
Definition op_key (op : WriteOp) : ColumnFamilyID * string :=
  match op with
  | PutOp cf key _ => (cf, key)
  | MergeOp cf key _ => (cf, key)
  | DeleteOp cf key => (cf, key)
  end.

(** The order in which the two nested loops of [LockBatch] visit the keys of
    the handler's map. *)
Definition visit_order (keys_ : Handler.keys_t) : list (ColumnFamilyID * string) :=
  flat_map (fun e => map (pair (fst e)) (snd e)) keys_.

(** The lock plan of a batch. *)
Definition lock_plan (batch : WriteBatch) : list (ColumnFamilyID * string) :=
  visit_order (Handler.Iterate batch).

(** Ascending column family id, then bytewise ascending key. *)
Definition plan_lt (p q : ColumnFamilyID * string) : Prop :=
  fst p < fst q \/ (fst p = fst q /\ String.compare (snd p) (snd q) = Lt).

(** ** The world a transaction runs in *)

(** Everything outside the transaction object that the member functions
    read or change.  The call logs record which external primitives were
    invoked, so that "makes no call" and "performs no write" can be
    stated. *)
Record World : Type := mkWorld {
  (** the lock table: the transaction that holds each locked key *)
  lock_table : gmap (N * string) N;
  (** every call of the lock table's acquire primitive, oldest first *)
  acquire_calls : list (TransactionID * ColumnFamilyID * string);
  (** the store's write history: sequence number of the last write of a key *)
  last_write : gmap (N * string) N;
  (** every query of the store's write history, oldest first *)
  history_queries : list (ColumnFamilyID * string);
  (** [db_->GetLatestSequenceNumber()] *)
  latest_sequence_number : SequenceNumber;
  (** every batch handed to [db_->Write], oldest first *)
  db_writes : list WriteBatch;
  (** the result the store gives to a write of a batch *)
  db_write_status : WriteBatch -> Status;
  (** [db_->GetEnv()->NowMicros()], a [uint64_t] *)
  now_micros : Z;
  (** [txn_id_counter_], the shared atomic counter *)
  txn_id_counter_ : TransactionID;
  (** the registry of expirable transactions, by id *)
  expirable_txns : gset N;
  (** [TransactionDBOptions::transaction_lock_timeout], in milliseconds *)
  transaction_lock_timeout : Z
}.

(** The updates of the world the functions below make, one field at a
    time. *)
Definition set_lock_table (m : gmap (N * string) N) (w : World) : World :=
  mkWorld m (acquire_calls w) (last_write w) (history_queries w)
          (latest_sequence_number w) (db_writes w) (db_write_status w)
          (now_micros w) (txn_id_counter_ w) (expirable_txns w)
          (transaction_lock_timeout w).

Definition log_acquire (c : TransactionID * ColumnFamilyID * string) (w : World) : World :=
  mkWorld (lock_table w) (acquire_calls w ++ [c]) (last_write w) (history_queries w)
          (latest_sequence_number w) (db_writes w) (db_write_status w)
          (now_micros w) (txn_id_counter_ w) (expirable_txns w)
          (transaction_lock_timeout w).

Definition log_history_query (q : ColumnFamilyID * string) (w : World) : World :=
  mkWorld (lock_table w) (acquire_calls w) (last_write w) (history_queries w ++ [q])
          (latest_sequence_number w) (db_writes w) (db_write_status w)
          (now_micros w) (txn_id_counter_ w) (expirable_txns w)
          (transaction_lock_timeout w).

Definition log_db_write (b : WriteBatch) (w : World) : World :=
  mkWorld (lock_table w) (acquire_calls w) (last_write w) (history_queries w)
          (latest_sequence_number w) (db_writes w ++ [b]) (db_write_status w)
          (now_micros w) (txn_id_counter_ w) (expirable_txns w)
          (transaction_lock_timeout w).

Definition store_write (k : N * string) (w : World) : World :=
  mkWorld (lock_table w) (acquire_calls w)
          (<[k := latest_sequence_number w + 1]> (last_write w))
          (history_queries w)
          (latest_sequence_number w + 1) (db_writes w) (db_write_status w)
          (now_micros w) (txn_id_counter_ w) (expirable_txns w)
          (transaction_lock_timeout w).

Definition set_txn_id_counter (n : TransactionID) (w : World) : World :=
  mkWorld (lock_table w) (acquire_calls w) (last_write w) (history_queries w)
          (latest_sequence_number w) (db_writes w) (db_write_status w)
          (now_micros w) n (expirable_txns w)
          (transaction_lock_timeout w).

Definition set_expirable_txns (r : gset N) (w : World) : World :=
  mkWorld (lock_table w) (acquire_calls w) (last_write w) (history_queries w)
          (latest_sequence_number w) (db_writes w) (db_write_status w)
          (now_micros w) (txn_id_counter_ w) r
          (transaction_lock_timeout w).

(** ** Key maps *)

(** [keys.find(cf)] followed by [->second.find(key)]. *)
Definition keymap_lookup (keys : TransactionKeyMap)
           (cf : ColumnFamilyID) (key : string) : option SequenceNumber :=
  match keys !! cf with
  | None => None
  | Some cf_keys => cf_keys !! key
  end.

Definition keymap_mem (keys : TransactionKeyMap) (ck : ColumnFamilyID * string) : bool :=
  match keymap_lookup keys (fst ck) (snd ck) with
  | Some _ => true
  | None => false
  end.

(** [keys[cf].insert({key, seq})]: [operator[]] creates the inner map when
    it is missing, and [insert] leaves an entry that is already there. *)
Definition keymap_insert (cf : ColumnFamilyID) (key : string)
           (seq : SequenceNumber) (keys : TransactionKeyMap) : TransactionKeyMap :=
  let cf_keys := default ∅ (keys !! cf) in
  match cf_keys !! key with
  | Some _ => <[cf := cf_keys]> keys
  | None => <[cf := <[key := seq]> cf_keys]> keys
  end.

(** Overwriting store of an entry. *)
Definition keymap_store (cf : ColumnFamilyID) (key : string)
           (seq : SequenceNumber) (keys : TransactionKeyMap) : TransactionKeyMap :=
  <[cf := <[key := seq]> (default ∅ (keys !! cf))]> keys.

(** Erase from [keys] every key that [gone] lists. *)
Definition keymap_erase_all (gone keys : TransactionKeyMap) : TransactionKeyMap :=
  map_imap (fun cf cf_keys => Some (cf_keys ∖ default ∅ (gone !! cf))) keys.

(** ** The lock table *)

Module TransactionDBImpl.

(** Modelled from the spec: the lock table's
    [acquire(txn_id, cf, key, timeout)], which the source reaches as
    [txn_db_impl_->TryLock(this, cfh_id, key)]; its code is not part of the
    sources at hand.  A lock is exclusive per (column family, key) and held
    by at most one transaction id: a free key is granted, a key held by the
    caller stays granted, a key held by another transaction is refused.
    Nothing else runs while the caller waits, so waiting out the timeout
    ends in [LockTimeout]; of the two failures the spec names for an
    acquisition ([LockConflict] and [LockTimeout]) this is the only one the
    model returns.  Taking over the locks of an expired holder
    (the lock-stealing protocol) is not part of this call: what it does to
    the holder is the event [CallTryStealingLocks] below. *)
Definition TryLock (txn : TransactionID) (cf : ColumnFamilyID) (key : string)
           (w : World) : Status * World :=
  let w1 := log_acquire (txn, cf, key) w in
  match lock_table w !! (cf, key) with
  | None => (OK, set_lock_table (<[(cf, key) := txn]> (lock_table w)) w1)
  | Some holder => if N.eqb holder txn then (OK, w1) else (LockTimeout, w1)
  end.

(** Modelled from the spec: [release(txn_id, {(cf,key)})] for one key, the
    source's [txn_db_impl_->UnLock(this, cfh_id, key)].  Only the holder's
    own lock is released. *)
Definition UnLockKey (txn : TransactionID) (cf : ColumnFamilyID) (key : string)
           (w : World) : World :=
  match lock_table w !! (cf, key) with
  | Some holder =>
      if N.eqb holder txn
      then set_lock_table (delete (cf, key) (lock_table w)) w
      else w
  | None => w
  end.

(** Does releasing [keys] for [txn] free this entry of the lock table? *)
Definition releases (txn : TransactionID) (keys : TransactionKeyMap)
           (e : (N * string) * N) : bool :=
  N.eqb (snd e) txn && keymap_mem keys (fst e).

(** Modelled from the spec: [release(txn_id, set_of_(cf,key))] for a key
    map, the source's [txn_db_impl_->UnLock(this, &keys)]: every listed key
    that the transaction holds becomes free. *)
Definition UnLock (txn : TransactionID) (keys : TransactionKeyMap)
           (w : World) : World :=
  set_lock_table (filter (fun e => releases txn keys e = false) (lock_table w)) w.

(** Modelled from the spec: [register_expirable(txn_id, txn_ref)], the
    source's [InsertExpirableTransaction(txn_id_, this)]; the registry is
    kept as the set of the registered ids. *)
Definition InsertExpirableTransaction (id : TransactionID) (w : World) : World :=
  set_expirable_txns ({[ id ]} ∪ expirable_txns w) w.

(** Modelled from the spec: [unregister_expirable(txn_id)], the source's
    [RemoveExpirableTransaction(txn_id_)]. *)
Definition RemoveExpirableTransaction (id : TransactionID) (w : World) : World :=
  set_expirable_txns (expirable_txns w ∖ {[ id ]}) w.

End TransactionDBImpl.

(** ** The store *)

Module DB.

(** Modelled from the spec: the store's [write(options, batch)], the source's
    [db_->Write(write_options_, batch)].  The call is logged; the store
    decides the result; a write that succeeds gives each operation of the
    batch the next sequence number. *)
Definition Write (batch : WriteBatch) (w : World) : Status * World :=
  let s := db_write_status w batch in
  let w1 := log_db_write batch w in
  if ok s
  then (s, fold_left (fun w' op => store_write (op_key op) w') batch w1)
  else (s, w1).

End DB.

Module TransactionUtil.

(** Modelled from the spec: the history query behind
    [TransactionUtil::CheckKeyForConflicts(db, cfh, key, snap_seq, false)]:
    the key conflicts when the store holds a write of it with a sequence
    number above the snapshot's. *)
Definition CheckKeyForConflicts (cf : ColumnFamilyID) (key : string)
           (snap_seq : SequenceNumber) (w : World) : Status * World :=
  let w1 := log_history_query (cf, key) w in
  match last_write w !! (cf, key) with
  | Some seq => if N.ltb snap_seq seq then (Conflict, w1) else (OK, w1)
  | None => (OK, w1)
  end.

End TransactionUtil.

(** ** The transaction object *)

(** A save point of the base class: where the pending batch stood, and the
    keys tracked since. *)
Record SavePoint : Type := mkSavePoint {
  batch_size_ : nat;
  new_keys_ : TransactionKeyMap
}.

(** The members of [TransactionImpl] and of its base class that the source
    file uses (the class declarations are in headers that are not part of
    the sources at hand).  [snapshot_] holds the snapshot's sequence
    number, [None] for [nullptr]; [snapshot_needed_] is explained at
    [SetSnapshotIfNeeded]. *)
Record TransactionImpl : Type := mkTxn {
  txn_id_ : TransactionID;
  start_time_ : Z;
  expiration_time_ : Z;
  lock_timeout_ : Z;
  exec_status_ : ExecutionStatus;
  snapshot_ : option SequenceNumber;
  snapshot_needed_ : bool;
  tracked_keys_ : TransactionKeyMap;
  save_points_ : list SavePoint;
  write_batch_ : WriteBatch
}.

Definition set_exec_status (e : ExecutionStatus) (t : TransactionImpl) : TransactionImpl :=
  mkTxn (txn_id_ t) (start_time_ t) (expiration_time_ t) (lock_timeout_ t)
        e (snapshot_ t) (snapshot_needed_ t)
        (tracked_keys_ t) (save_points_ t) (write_batch_ t).

Definition set_tracking (keys : TransactionKeyMap) (sps : list SavePoint)
           (t : TransactionImpl) : TransactionImpl :=
  mkTxn (txn_id_ t) (start_time_ t) (expiration_time_ t) (lock_timeout_ t)
        (exec_status_ t) (snapshot_ t) (snapshot_needed_ t)
        keys sps (write_batch_ t).

Definition set_write_batch (b : WriteBatch) (t : TransactionImpl) : TransactionImpl :=
  mkTxn (txn_id_ t) (start_time_ t) (expiration_time_ t) (lock_timeout_ t)
        (exec_status_ t) (snapshot_ t) (snapshot_needed_ t)
        (tracked_keys_ t) (save_points_ t) b.

(** [TransactionOptions], as far as the constructor reads it:
    [expiration] and [lock_timeout] are [int64_t] milliseconds, negative for
    "not set". *)
Record TransactionOptions : Type := mkTxnOptions {
  set_snapshot : bool;
  expiration : Z;
  lock_timeout : Z
}.

(** A [ColumnFamilyHandle*]: [None] is [nullptr], the default column family. *)
Definition ColumnFamilyHandle := option ColumnFamilyID.

(** [GetColumnFamilyID]: id 0 for the default column family. *)
Definition GetColumnFamilyID (column_family : ColumnFamilyHandle) : ColumnFamilyID :=
  match column_family with
  | Some id => id
  | None => 0
  end.

(** ** The base class [TransactionBaseImpl] *)

Module TransactionBaseImpl.

(** Modelled from the spec: [SetSnapshot()] of the base class, not part of
    the sources at hand: the snapshot is the store as of its latest
    sequence number. *)
Definition SetSnapshot (t : TransactionImpl) (w : World) : TransactionImpl :=
  mkTxn (txn_id_ t) (start_time_ t) (expiration_time_ t) (lock_timeout_ t)
        (exec_status_ t) (Some (latest_sequence_number w)) false
        (tracked_keys_ t) (save_points_ t) (write_batch_ t).

(** Modelled from the spec: [SetSnapshotIfNeeded()] of the base class, not
    part of the sources at hand.  The spec has the optional snapshot only;
    the call is taken to set the snapshot when one was asked for at the next
    operation ([snapshot_needed_]) and to do nothing otherwise, so that the
    statements below hold whichever is the case. *)
Definition SetSnapshotIfNeeded (t : TransactionImpl) (w : World) : TransactionImpl :=
  if snapshot_needed_ t then SetSnapshot t w else t.

(** Modelled from the spec: the ledger's [record(cf, key, seq)], the
    source's [TrackKey(cfh_id, key, seq)], not part of the sources at hand:
    "inserts or overwrites the entry for (cf,key) with seq".  An entry that
    is new is also noted in the innermost save point, for
    [entries_since]. *)
Definition TrackKey (cf : ColumnFamilyID) (key : string) (seq : SequenceNumber)
           (t : TransactionImpl) : TransactionImpl :=
  let keys := keymap_store cf key seq (tracked_keys_ t) in
  match keymap_lookup (tracked_keys_ t) cf key, save_points_ t with
  | None, sp :: sps =>
      set_tracking keys
        (mkSavePoint (batch_size_ sp) (keymap_insert cf key seq (new_keys_ sp)) :: sps) t
  | _, _ => set_tracking keys (save_points_ t) t
  end.

(** Modelled from the spec: [SetSavePoint()] of the base class, not part of
    the sources at hand: pushes a marker at the current end of the pending
    batch. *)
Definition SetSavePoint (t : TransactionImpl) : TransactionImpl :=
  set_tracking (tracked_keys_ t)
               (mkSavePoint (length (write_batch_ t)) ∅ :: save_points_ t) t.

(** Modelled from the spec: the ledger's [entries_since(savepoint)], the
    source's [GetTrackedKeysSinceSavePoint()], not part of the sources at
    hand; [None] is the null pointer returned when there is no save
    point. *)
Definition GetTrackedKeysSinceSavePoint (t : TransactionImpl) : option TransactionKeyMap :=
  match save_points_ t with
  | sp :: _ => Some (new_keys_ sp)
  | [] => None
  end.

(** Modelled from the spec: the base class's [RollbackToSavePoint()], not
    part of the sources at hand: "truncates the pending batch and ledger
    back to that marker ... each call pops exactly one".  Without a save
    point nothing changes and the call reports [NotFound]. *)
Definition RollbackToSavePoint (t : TransactionImpl) : Status * TransactionImpl :=
  match save_points_ t with
  | sp :: sps =>
      (OK, set_write_batch (firstn (batch_size_ sp) (write_batch_ t))
             (set_tracking (keymap_erase_all (new_keys_ sp) (tracked_keys_ t)) sps t))
  | [] => (NotFound, t)
  end.

(** Modelled from the spec: the base class's [Clear()], not part of the
    sources at hand: drops the save points, the pending batch and the
    tracked keys. *)
Definition Clear (t : TransactionImpl) : TransactionImpl :=
  set_write_batch [] (set_tracking ∅ [] t).

End TransactionBaseImpl.

(** ** [TransactionImpl] *)

(** [std::atomic_compare_exchange_strong(&obj, &expected, desired)]: whether
    the exchange happened, and the value of [obj] afterwards. *)
Definition atomic_compare_exchange_strong (obj expected desired : ExecutionStatus)
  : bool * ExecutionStatus :=
  if decide (obj = expected) then (true, desired) else (false, obj).

(** Conversion to [uint64_t]. *)
Definition to_uint64 (z : Z) : Z := (z mod 2 ^ 64)%Z.

(** The value an [int64_t] holds after arithmetic whose exact result is
    [z] (two's complement wrap-around). *)
Definition to_int64 (z : Z) : Z := ((z + 2 ^ 63) mod 2 ^ 64 - 2 ^ 63)%Z.

(** [GenTxnID]: [txn_id_counter_.fetch_add(1)]. *)
Definition GenTxnID (w : World) : TransactionID * World :=
  (txn_id_counter_ w, set_txn_id_counter ((txn_id_counter_ w + 1) mod 2 ^ 64) w).

(** The constructor.  The base class's constructor, which reads the clock
    into [start_time_], is modelled from the spec ("wall-clock timestamp at
    construction").  [start_time_ + txn_options.expiration * 1000] ends up
    in the [uint64_t] member, that is, modulo 2^64; the products for
    [lock_timeout_] are [int64_t] values. *)
Definition New (txn_options : TransactionOptions) (w : World) : TransactionImpl * World :=
  let start_time := now_micros w in
  let '(id, w1) := GenTxnID w in
  let expiration_time :=
    if (0 <=? expiration txn_options)%Z
    then to_uint64 (start_time + expiration txn_options * 1000)
    else 0%Z in
  let lock_timeout0 := to_int64 (lock_timeout txn_options * 1000) in
  let lock_timeout1 :=
    if (lock_timeout0 <? 0)%Z
    then to_int64 (transaction_lock_timeout w * 1000)
    else lock_timeout0 in
  let t := mkTxn id start_time expiration_time lock_timeout1 STARTED None false ∅ [] [] in
  let t1 := if set_snapshot txn_options then TransactionBaseImpl.SetSnapshot t w1 else t in
  let w2 :=
    if (0 <? expiration_time)%Z
    then TransactionDBImpl.InsertExpirableTransaction id w1
    else w1 in
  (t1, w2).

(** The destructor. *)
Definition Delete (t : TransactionImpl) (w : World) : World :=
  let w1 := TransactionDBImpl.UnLock (txn_id_ t) (tracked_keys_ t) w in
  if (0 <? expiration_time_ t)%Z
  then TransactionDBImpl.RemoveExpirableTransaction (txn_id_ t) w1
  else w1.

(** [Clear] *)
Definition Clear (t : TransactionImpl) (w : World) : TransactionImpl * World :=
  let w1 := TransactionDBImpl.UnLock (txn_id_ t) (tracked_keys_ t) w in
  (TransactionBaseImpl.Clear t, w1).

(** [IsExpired] *)
Definition IsExpired (t : TransactionImpl) (w : World) : bool :=
  if (0 <? expiration_time_ t)%Z
  then (if (expiration_time_ t <=? now_micros w)%Z then true else false)
  else false.

(** [DoCommit].  The [assert] on the failed exchange and the test sync
    point do nothing in a release build. *)
Definition DoCommit (batch : WriteBatch) (t : TransactionImpl) (w : World)
  : Status * TransactionImpl * World :=
  if (0 <? expiration_time_ t)%Z then
    if IsExpired t w then (Expired, t, w)
    else
      let '(can_commit, status) :=
        atomic_compare_exchange_strong (exec_status_ t) STARTED COMMITTING in
      let t1 := set_exec_status status t in
      if can_commit
      then let '(s, w1) := DB.Write batch w in (s, t1, w1)
      else (Expired, t1, w)
  else
    let '(s, w1) := DB.Write batch w in (s, t, w1).

(** [Commit] *)
Definition Commit (t : TransactionImpl) (w : World) : Status * TransactionImpl * World :=
  let '(s, t1, w1) := DoCommit (write_batch_ t) t w in
  let '(t2, w2) := Clear t1 w1 in
  (s, t2, w2).

(** [Rollback] *)
Definition Rollback (t : TransactionImpl) (w : World) : TransactionImpl * World :=
  Clear t w.

(** [RollbackToSavePoint] *)
Definition RollbackToSavePoint (t : TransactionImpl) (w : World)
  : Status * TransactionImpl * World :=
  let w1 :=
    match TransactionBaseImpl.GetTrackedKeysSinceSavePoint t with
    | Some keys => TransactionDBImpl.UnLock (txn_id_ t) keys w
    | None => w
    end in
  let '(s, t1) := TransactionBaseImpl.RollbackToSavePoint t in
  (s, t1, w1).

(** The inner loop of [LockBatch]: the keys of one column family, in the
    set's order, until one cannot be locked. *)
Fixpoint lock_cf_keys (txn : TransactionID) (cfh_id : ColumnFamilyID)
         (cfh_keys : Handler.string_set) (keys_to_unlock : TransactionKeyMap)
         (w : World) : Status * TransactionKeyMap * World :=
  match cfh_keys with
  | [] => (OK, keys_to_unlock, w)
  | key :: rest =>
      let '(s, w1) := TransactionDBImpl.TryLock txn cfh_id key w in
      if ok s
      then lock_cf_keys txn cfh_id rest
             (keymap_insert cfh_id key kMaxSequenceNumber keys_to_unlock) w1
      else (s, keys_to_unlock, w1)
  end.

(** The outer loop of [LockBatch]: the column families in the map's order,
    left as soon as a key could not be locked. *)
Fixpoint lock_all_keys (txn : TransactionID) (keys_ : Handler.keys_t)
         (keys_to_unlock : TransactionKeyMap) (w : World)
  : Status * TransactionKeyMap * World :=
  match keys_ with
  | [] => (OK, keys_to_unlock, w)
  | (cfh_id, cfh_keys) :: rest =>
      let '(s, keys1, w1) := lock_cf_keys txn cfh_id cfh_keys keys_to_unlock w in
      if ok s
      then lock_all_keys txn rest keys1 w1
      else (s, keys1, w1)
  end.

(** [LockBatch]; [keys_to_unlock] is the caller's map, filled in place. *)
Definition LockBatch (batch : WriteBatch) (keys_to_unlock : TransactionKeyMap)
           (t : TransactionImpl) (w : World) : Status * TransactionKeyMap * World :=
  let keys_ := Handler.Iterate batch in
  let '(s, keys1, w1) := lock_all_keys (txn_id_ t) keys_ keys_to_unlock w in
  if ok s
  then (s, keys1, w1)
  else (s, keys1, TransactionDBImpl.UnLock (txn_id_ t) keys1 w1).

(** [CommitBatch] *)
Definition CommitBatch (batch : WriteBatch) (t : TransactionImpl) (w : World)
  : Status * TransactionImpl * World :=
  let '(s, keys_to_unlock, w1) := LockBatch batch ∅ t w in
  if ok s
  then
    let '(s1, t1, w2) := DoCommit batch t w1 in
    (s1, t1, TransactionDBImpl.UnLock (txn_id_ t) keys_to_unlock w2)
  else (s, t, w1).

(** [ValidateSnapshot], called with a snapshot set ([assert(snapshot_)]):
    [seq] is [snapshot_->GetSequenceNumber()].  The second component of the
    result is what [*new_seqno] holds when the function returns. *)
Definition ValidateSnapshot (seq : SequenceNumber) (column_family : ColumnFamilyHandle)
           (key : string) (prev_seqno : SequenceNumber) (new_seqno : SequenceNumber)
           (w : World) : Status * SequenceNumber * World :=
  if N.leb prev_seqno seq
  then (OK, new_seqno, w)
  else
    let '(s, w1) :=
      TransactionUtil.CheckKeyForConflicts (GetColumnFamilyID column_family) key seq w in
    (s, seq, w1).

(** The look-up at the head of [TryLock]: was the key locked by this
    transaction before, and with which sequence number. *)
Definition previously_locked (t : TransactionImpl) (cfh_id : ColumnFamilyID)
           (key_str : string) : bool * SequenceNumber :=
  match tracked_keys_ t !! cfh_id with
  | None => (false, kMaxSequenceNumber)
  | Some cf_keys =>
      match cf_keys !! key_str with
      | None => (false, kMaxSequenceNumber)
      | Some seq => (true, seq)
      end
  end.

(** [TryLock] *)
Definition TryLock (column_family : ColumnFamilyHandle) (key : string)
           (untracked : bool) (t : TransactionImpl) (w : World)
  : Status * TransactionImpl * World :=
  let cfh_id := GetColumnFamilyID column_family in
  let '(locked_before, current_seqno) := previously_locked t cfh_id key in
  let '(s, w1) :=
    if locked_before then (OK, w)
    else TransactionDBImpl.TryLock (txn_id_ t) cfh_id key w in
  let t1 := TransactionBaseImpl.SetSnapshotIfNeeded t w1 in
  let '(s2, new_seqno, w2) :=
    match untracked, snapshot_ t1 with
    | false, Some seq =>
        if ok s then
          let '(s1, new_seqno, w') :=
            ValidateSnapshot seq column_family key current_seqno kMaxSequenceNumber w1 in
          if ok s1 then (s1, new_seqno, w')
          else if locked_before then (s1, new_seqno, w')
               else (s1, new_seqno, TransactionDBImpl.UnLockKey (txn_id_ t) cfh_id key w')
        else (s, kMaxSequenceNumber, w1)
    | _, _ =>
        if N.eqb current_seqno kMaxSequenceNumber
        then (s, latest_sequence_number w1, w1)
        else (s, current_seqno, w1)
    end in
  if ok s2
  then (s2, TransactionBaseImpl.TrackKey cfh_id key new_seqno t1, w2)
  else (s2, t1, w2).

(** [TryStealingLocks]; [assert(IsExpired())] does nothing in a release
    build. *)
Definition TryStealingLocks (t : TransactionImpl) : bool * TransactionImpl :=
  let '(stolen, status) :=
    atomic_compare_exchange_strong (exec_status_ t) STARTED LOCKS_STOLEN in
  (stolen, set_exec_status status t).

(** ** Vocabulary of the statements *)

(** Bytewise "less than" on keys. *)
Definition key_lt (a b : string) : Prop := String.compare a b = Lt.

(** A well-formed [std::set<std::string>]. *)
Definition set_ok (s : Handler.string_set) : Prop := StronglySorted key_lt s.

(** A well-formed [std::map<uint32_t, std::set<std::string>>]. *)
Definition keys_ok (m : Handler.keys_t) : Prop :=
  StronglySorted (fun e1 e2 => fst e1 < fst e2) m
  /\ Forall (fun e => set_ok (snd e)) m.

(** What [RecordKey] does to the set of one column family. *)
Definition record_in_set (key : string) (s : Handler.string_set) : Handler.string_set :=
  if Handler.set_find key s then s else Handler.set_insert key s.

(** The call of the lock table's acquire primitive for a planned key. *)
Definition acquire_call (txn : TransactionID) (p : ColumnFamilyID * string)
  : TransactionID * ColumnFamilyID * string :=
  (txn, fst p, snd p).

(** The two nested loops of [LockBatch] as one loop over the visiting
    order; [lock_all_keys_flat] below shows it is the same computation. *)
Fixpoint lock_in_order (txn : TransactionID) (l : list (ColumnFamilyID * string))
         (keys_to_unlock : TransactionKeyMap) (w : World)
  : Status * TransactionKeyMap * World :=
  match l with
  | [] => (OK, keys_to_unlock, w)
  | ck :: rest =>
      let '(s, w1) := TransactionDBImpl.TryLock txn (fst ck) (snd ck) w in
      if ok s
      then lock_in_order txn rest
             (keymap_insert (fst ck) (snd ck) kMaxSequenceNumber keys_to_unlock) w1
      else (s, keys_to_unlock, w1)
  end.

(** The spec's invariant between lock table and ledger, in the direction
    the unwinding of a failed call relies on: every lock the table reports as
    held by the transaction has an entry in the transaction's ledger. *)
Definition locks_tracked (t : TransactionImpl) (w : World) : Prop :=
  forall (cf : ColumnFamilyID) (key : string),
    lock_table w !! (cf, key) = Some (txn_id_ t) ->
    is_Some (keymap_lookup (tracked_keys_ t) cf key).

(** The clock moves on. *)
Definition set_now_micros (now : Z) (w : World) : World :=
  mkWorld (lock_table w) (acquire_calls w) (last_write w) (history_queries w)
          (latest_sequence_number w) (db_writes w) (db_write_status w)
          now (txn_id_counter_ w) (expirable_txns w)
          (transaction_lock_timeout w).

(** ** Events in the life of a transaction *)

(** What can happen to one transaction object, one after the other: the
    calls of its owner, the call [TryStealingLocks] of a transaction that
    waits for one of its locks, and the passing of time.  The execution
    status is read and written by the two compare-and-set instructions
    only, each of them atomic, so however the threads interleave, the
    status sees a sequence of such events. *)
Inductive Event : Type :=
| CallCommit
| CallCommitBatch (batch : WriteBatch)
| CallRollback
| CallRollbackToSavePoint
| CallTryLock (column_family : ColumnFamilyHandle) (key : string) (untracked : bool)
| CallTryStealingLocks
| ClockReads (now : Z).

Definition happen (e : Event) (t : TransactionImpl) (w : World)
  : TransactionImpl * World :=
  match e with
  | CallCommit => let '(_, t1, w1) := Commit t w in (t1, w1)
  | CallCommitBatch batch => let '(_, t1, w1) := CommitBatch batch t w in (t1, w1)
  | CallRollback => Rollback t w
  | CallRollbackToSavePoint => let '(_, t1, w1) := RollbackToSavePoint t w in (t1, w1)
  | CallTryLock column_family key untracked =>
      let '(_, t1, w1) := TryLock column_family key untracked t w in (t1, w1)
  | CallTryStealingLocks => (snd (TryStealingLocks t), w)
  | ClockReads now => (t, set_now_micros now w)
  end.

(** How often the execution status changes in the course of the events. *)
Fixpoint count_transitions (es : list Event) (t : TransactionImpl) (w : World) : nat :=
  match es with
  | [] => 0%nat
  | e :: rest =>
      ((if decide (exec_status_ (fst (happen e t w)) = exec_status_ t) then 0 else 1)
       + count_transitions rest (fst (happen e t w)) (snd (happen e t w)))%nat
  end.

(** The state after the events. *)
Fixpoint happen_all (es : list Event) (t : TransactionImpl) (w : World)
  : TransactionImpl * World :=
  match es with
  | [] => (t, w)
  | e :: rest => happen_all rest (fst (happen e t w)) (snd (happen e t w))
  end.

(** ** States used to exercise the functions *)

(** A store at sequence number 12 that accepts every write; the clock reads
    1000 microseconds; no lock is held. *)
Definition quiet_world : World :=
  mkWorld ∅ [] ∅ [] 12 [] (fun _ => OK) 1000%Z 2 ∅ 1%Z.

(** Transaction 1, never expiring, with a snapshot at sequence number 10 and
    the key "k" of the default column family tracked at sequence number 5. *)
Definition relock_txn : TransactionImpl :=
  mkTxn 1 900%Z 0%Z 1000%Z STARTED (Some 10) false
        {[ 0 := {[ "k" := 5 ]} ]} [] [].

(** The lock table when transaction 1 holds "k". *)
Definition relock_world : World :=
  set_lock_table {[ (0, "k") := 1 ]} quiet_world.

(** That transaction after it has locked "k" once more. *)
Definition relocked_txn : TransactionImpl :=
  snd (fst (TryLock None "k" false relock_txn relock_world)).

(** A store whose last write of "j" has sequence number 11. *)
Definition conflict_world : World :=
  mkWorld ∅ [] {[ (0, "j") := 11 ]} [] 12 [] (fun _ => OK) 1000%Z 2 ∅ 1%Z.

(** Transaction 2 holds "j"; nothing else is locked. *)
Definition contended_world : World :=
  set_lock_table {[ (0, "j") := 2 ]} quiet_world.

(** Transaction 1 holds "k", transaction 2 holds "z". *)
Definition overlap_world : World :=
  set_lock_table {[ (0, "k") := 1; (0, "z") := 2 ]} quiet_world.

(** Modelled from the spec: staging a write, which the base class does
    after the key was locked ("a caller stages writes into a batch associated
    with the transaction"); its code is not part of the sources at hand. *)
Definition stage (op : WriteOp) (t : TransactionImpl) : TransactionImpl :=
  set_write_batch (write_batch_ t ++ [op]) t.

(** Transaction 1, fresh: no expiration, no snapshot, nothing tracked. *)
Definition fresh_txn : TransactionImpl :=
  mkTxn 1 900%Z 0%Z 1000%Z STARTED None false ∅ [] [].

(** Lock a key of the default column family and stage a put on it. *)
Definition lock_and_put (key value : string) (s : TransactionImpl * World)
  : TransactionImpl * World :=
  let '(_, t1, w1) := TryLock None key false (fst s) (snd s) in
  (stage (PutOp 0 key value) t1, w1).

(** The save point scenario: lock "k1", set a save point, lock "k2" and
    "k3". *)
Definition savepoint_scenario : TransactionImpl * World :=
  let s1 := lock_and_put "k1" "a" (fresh_txn, quiet_world) in
  let s2 := (TransactionBaseImpl.SetSavePoint (fst s1), snd s1) in
  lock_and_put "k3" "c" (lock_and_put "k2" "b" s2).

(** Transaction 1 with a deadline at 2000 microseconds and one pending
    write; the clock of [quiet_world] reads 1000. *)
Definition expirable_txn : TransactionImpl :=
  mkTxn 1 900%Z 2000%Z 1000%Z STARTED None false ∅ [] [PutOp 0 "k" "v"].

(** The clock reads 0. *)
Definition epoch_world : World := set_now_micros 0%Z quiet_world.

(** Options with an expiration of exactly zero. *)
Definition zero_expiration : TransactionOptions := mkTxnOptions false 0%Z (-1)%Z.

(** ** Vocabulary of the further properties *)

(** The world [w'] has the store, the clock, the id counter and the registry
    of [w]: whatever differs is in the lock table or in the logs of the
    lock table's and the history's calls. *)
Definition store_and_clock_kept (w w' : World) : Prop :=
  db_writes w' = db_writes w
  /\ db_write_status w' = db_write_status w
  /\ now_micros w' = now_micros w
  /\ latest_sequence_number w' = latest_sequence_number w
  /\ last_write w' = last_write w
  /\ expirable_txns w' = expirable_txns w
  /\ txn_id_counter_ w' = txn_id_counter_ w.

(** The members the constructor fixes. *)
Definition same_identity (t t' : TransactionImpl) : Prop :=
  txn_id_ t' = txn_id_ t
  /\ start_time_ t' = start_time_ t
  /\ expiration_time_ t' = expiration_time_ t
  /\ lock_timeout_ t' = lock_timeout_ t.

(** The lock table would grant the key to the transaction: the key is free
    or the transaction holds it. *)
Definition grantable (txn : TransactionID) (w : World) (ck : ColumnFamilyID * string)
  : Prop :=
  lock_table w !! ck = None \/ lock_table w !! ck = Some txn.

(** Construct one transaction per element of [options], one after the
    other. *)
Fixpoint construct_all (options : list TransactionOptions) (w : World)
  : list TransactionImpl * World :=
  match options with
  | [] => ([], w)
  | o :: rest =>
      let '(t, w1) := New o w in
      let '(ts, w2) := construct_all rest w1 in
      (t :: ts, w2)
  end.

(** What no call of the transaction changes: the clock, the id counter,
    the registry of expirable transactions and the store's oracle. *)
Definition surroundings_kept (w w' : World) : Prop :=
  now_micros w' = now_micros w /\ txn_id_counter_ w' = txn_id_counter_ w
  /\ expirable_txns w' = expirable_txns w /\ db_write_status w' = db_write_status w.

(** A step from [(t, w)] to [(t', w')] that wrote to the store at most once,
    and, for a transaction with an expiration time, only on leaving
    [STARTED] for [COMMITTING]. *)
Definition wrote_at_most_once (t t' : TransactionImpl) (w w' : World) : Prop :=
  db_writes w' = db_writes w
  \/ exists b, db_writes w' = db_writes w ++ [b]
               /\ ((0 < expiration_time_ t)%Z ->
                   exec_status_ t = STARTED /\ exec_status_ t' = COMMITTING).

(** Does no event of the list set the clock back behind [now]? *)
Definition clock_not_before (now : Z) (es : list Event) : bool :=
  forallb (fun e => match e with
                    | ClockReads now' => (now <=? now')%Z
                    | _ => true
                    end) es.

(** How many of the [TryStealingLocks] calls among the events answered
    [true]. *)
Fixpoint steals_won (es : list Event) (t : TransactionImpl) (w : World) : nat :=
  match es with
  | [] => 0%nat
  | e :: rest =>
      ((match e with
        | CallTryStealingLocks => if fst (TryStealingLocks t) then 1 else 0
        | _ => 0
        end)
       + steals_won rest (fst (happen e t w)) (snd (happen e t w)))%nat
  end.

(** * Properties *)

(** ** The order on keys *)

Section KeyOrder.

Lemma compare_same (s : string) : String.compare s s = Eq.
Proof.
  induction s as [|a s IH]; simpl; [done|].
  unfold Ascii.compare. by rewrite N.compare_refl.
Qed.

Lemma compare_Eq_iff (a b : string) : String.compare a b = Eq <-> a = b.
Proof.
  split; [apply String.compare_eq_iff|intros ->; apply compare_same].
Qed.

Lemma compare_Gt_flip (a b : string) :
  String.compare a b = Gt -> String.compare b a = Lt.
Proof.
  intros H. rewrite String.compare_antisym, H. done.
Qed.

Lemma key_lt_irrefl (a : string) : ~ key_lt a a.
Proof. unfold key_lt. by rewrite compare_same. Qed.

Lemma key_lt_asym (a b : string) : key_lt a b -> key_lt b a -> False.
Proof.
  unfold key_lt. intros H1 H2.
  rewrite String.compare_antisym, H2 in H1. done.
Qed.

Lemma key_lt_trans (a b c : string) : key_lt a b -> key_lt b c -> key_lt a c.
Proof.
  unfold key_lt. intros Hab Hbc.
  assert (String.le a c) as Hac.
  { transitivity b; unfold String.le, String.leb.
    - by rewrite Hab.
    - by rewrite Hbc. }
  unfold String.le, String.leb in Hac.
  destruct (String.compare a c) eqn:E; [|done|done].
  apply compare_Eq_iff in E. subst c.
  destruct (key_lt_asym _ _ Hab Hbc).
Qed.

Lemma plan_lt_irrefl (p : ColumnFamilyID * string) : ~ plan_lt p p.
Proof.
  intros [H|[_ H]]; [lia|]. by apply key_lt_irrefl in H.
Qed.

Lemma plan_lt_asym (p q : ColumnFamilyID * string) :
  plan_lt p q -> plan_lt q p -> False.
Proof.
  intros [H1|[E1 H1]] [H2|[E2 H2]]; try lia.
  eapply key_lt_asym; eauto.
Qed.

End KeyOrder.

(** ** The handler's containers keep their order *)

Section Planner.

Import Handler.

Lemma set_find_true (key : string) (s : string_set) :
  set_find key s = true -> key ∈ s.
Proof.
  induction s as [|x s IH]; simpl; [done|].
  destruct (String.compare key x) eqn:E; intros H.
  - apply compare_Eq_iff in E. subst. by left.
  - done.
  - right. auto.
Qed.

Lemma set_insert_elem (key x : string) (s : string_set) :
  x ∈ set_insert key s <-> x = key \/ x ∈ s.
Proof.
  induction s as [|y s IH]; simpl.
  - rewrite list_elem_of_singleton, elem_of_nil. tauto.
  - destruct (String.compare key y) eqn:E.
    + apply compare_Eq_iff in E. subst. rewrite !elem_of_cons.
      split; [tauto|]. intros [->|H]; [by left|done].
    + rewrite !elem_of_cons. tauto.
    + rewrite !elem_of_cons, IH. tauto.
Qed.

Lemma set_insert_ok (key : string) (s : string_set) :
  set_ok s -> set_ok (set_insert key s).
Proof.
  unfold set_ok. induction s as [|y s IH]; simpl; intros Hs.
  - repeat constructor.
  - apply StronglySorted_cons in Hs as [Hy Hs].
    destruct (String.compare key y) eqn:E.
    + by apply StronglySorted_cons.
    + apply StronglySorted_cons. split; [|by apply StronglySorted_cons].
      constructor; [done|].
      eapply Forall_impl; [exact Hy|].
      intros z Hz. by eapply key_lt_trans.
    + apply StronglySorted_cons. split; [|auto].
      apply Forall_forall. intros z Hz.
      apply set_insert_elem in Hz as [->|Hz].
      * by apply compare_Gt_flip.
      * rewrite Forall_forall in Hy. auto.
Qed.

Lemma record_in_set_elem (key x : string) (s : string_set) :
  x ∈ record_in_set key s <-> x = key \/ x ∈ s.
Proof.
  unfold record_in_set. destruct (set_find key s) eqn:E.
  - apply set_find_true in E. split; [tauto|]. by intros [->|].
  - apply set_insert_elem.
Qed.

Lemma record_in_set_ok (key : string) (s : string_set) :
  set_ok s -> set_ok (record_in_set key s).
Proof.
  unfold record_in_set. destruct (set_find key s); [done|apply set_insert_ok].
Qed.

End Planner.

Section PlanOrder.

Import Handler.

Lemma visit_order_cons (e : ColumnFamilyID * string_set) (m : keys_t) :
  visit_order (e :: m) = map (pair (fst e)) (snd e) ++ visit_order m.
Proof. reflexivity. Qed.

Lemma elem_of_pair_map (c : ColumnFamilyID) (s : string_set)
      (p : ColumnFamilyID * string) :
  p ∈ map (pair c) s <-> fst p = c /\ snd p ∈ s.
Proof.
  induction s as [|k s IH]; simpl.
  - rewrite !elem_of_nil. tauto.
  - rewrite !elem_of_cons, IH. destruct p as [c' k']; simpl.
    split.
    + intros [E| [? ?]]; [inversion E; subst; tauto|tauto].
    + intros [-> [->|?]]; tauto.
Qed.

Lemma elem_of_visit_order (p : ColumnFamilyID * string) (m : keys_t) :
  p ∈ visit_order m <-> exists e, e ∈ m /\ fst p = fst e /\ snd p ∈ snd e.
Proof.
  induction m as [|e m IH].
  - simpl. rewrite elem_of_nil. split; [done|]. intros (e & He & _).
    by apply elem_of_nil in He.
  - rewrite visit_order_cons, elem_of_app, elem_of_pair_map, IH. split.
    + intros [[? ?]|(e' & ? & ? & ?)].
      * exists e. rewrite elem_of_cons. tauto.
      * exists e'. rewrite elem_of_cons. tauto.
    + intros (e' & He' & ? & ?). apply elem_of_cons in He' as [->|?]; [tauto|].
      right. by exists e'.
Qed.

Lemma subscript_Forall_fst (P : ColumnFamilyID -> Prop) (cf : ColumnFamilyID)
      (f : string_set -> string_set) (m : keys_t) :
  P cf -> Forall (fun e => P (fst e)) m ->
  Forall (fun e => P (fst e)) (subscript cf f m).
Proof.
  intros Hcf. induction m as [|[c s] m IH]; simpl; intros Hm.
  - by repeat constructor.
  - apply Forall_cons in Hm as [Hc Hm].
    destruct (N.compare cf c); repeat (constructor; try done). auto.
Qed.

Lemma RecordKey_ok (cf : ColumnFamilyID) (key : string) (m : keys_t) :
  keys_ok m -> keys_ok (RecordKey cf key m).
Proof.
  unfold keys_ok, RecordKey. fold (record_in_set key).
  induction m as [|[c s] m IH]; simpl; intros [Hs Hf].
  - split; [repeat constructor|]. constructor; [|done].
    apply (record_in_set_ok key []). constructor.
  - apply StronglySorted_cons in Hs as [Hc Hs].
    apply Forall_cons in Hf as [Hcs Hf]. simpl in Hcs.
    destruct (N.compare_spec cf c) as [->|Hlt|Hgt].
    + split; [by apply StronglySorted_cons|].
      constructor; [by apply record_in_set_ok|done].
    + split.
      * apply StronglySorted_cons. split; [|by apply StronglySorted_cons].
        constructor; [done|].
        eapply Forall_impl; [exact Hc|]. simpl. intros; lia.
      * constructor; [|by constructor].
        apply (record_in_set_ok key []). constructor.
    + destruct (IH (conj Hs Hf)) as [IH1 IH2]. split.
      * apply StronglySorted_cons. split; [|done].
        by apply (subscript_Forall_fst (fun c' => c < c')).
      * by constructor.
Qed.

Lemma RecordKey_elem (cf : ColumnFamilyID) (key : string) (m : keys_t)
      (p : ColumnFamilyID * string) :
  p ∈ visit_order (RecordKey cf key m) <-> p = (cf, key) \/ p ∈ visit_order m.
Proof.
  unfold RecordKey. fold (record_in_set key).
  assert (Hnew : p ∈ map (pair cf) (record_in_set key []) <-> p = (cf, key)).
  { rewrite elem_of_pair_map, record_in_set_elem, elem_of_nil.
    destruct p; simpl. split; [intros [-> [->|[]]]; done|].
    intros E; inversion E; tauto. }
  induction m as [|[c s] m IH]; cbn [subscript].
  - rewrite visit_order_cons, elem_of_app. cbn [fst snd visit_order flat_map].
    rewrite Hnew, elem_of_nil. tauto.
  - destruct (N.compare_spec cf c) as [->|Hlt|Hgt].
    + rewrite !visit_order_cons, !elem_of_app, !elem_of_pair_map. cbn [fst snd].
      rewrite record_in_set_elem. destruct p as [c' k']; cbn [fst snd]. split.
      * intros [[-> [->|?]]|?]; tauto.
      * intros [E|[[-> ?]|?]]; [inversion E|..]; tauto.
    + rewrite (visit_order_cons (cf, _)), elem_of_app. cbn [fst snd].
      rewrite Hnew. tauto.
    + rewrite !visit_order_cons, !elem_of_app, IH. tauto.
Qed.

Lemma visit_order_sorted (m : keys_t) :
  keys_ok m -> StronglySorted plan_lt (visit_order m).
Proof.
  unfold keys_ok. induction m as [|[c s] m IH]; intros [Hs Hf].
  - constructor.
  - apply StronglySorted_cons in Hs as [Hc Hs].
    apply Forall_cons in Hf as [Hcs Hf]. simpl in Hcs.
    rewrite visit_order_cons. apply StronglySorted_app_2; [| |auto].
    + intros x1 x2 H1 H2. apply elem_of_pair_map in H1 as [H1 _].
      apply elem_of_visit_order in H2 as (e & He & H2 & _).
      rewrite Forall_forall in Hc. specialize (Hc e He).
      left. simpl in *. lia.
    + simpl. clear -Hcs. induction Hcs as [|k s Hs IHs Hk]; simpl; constructor; [done|].
      apply Forall_forall. intros q Hq. apply elem_of_pair_map in Hq as [Hq1 Hq2].
      rewrite Forall_forall in Hk. right. simpl. split; [done|]. by apply Hk.
Qed.

Lemma Iterate_from_ok (batch : WriteBatch) (m : keys_t) :
  keys_ok m -> keys_ok (fold_left (fun keys_ op => visit op keys_) batch m).
Proof.
  revert m. induction batch as [|op batch IH]; simpl; intros m Hm; [done|].
  apply IH. destruct op; simpl; by apply RecordKey_ok.
Qed.

Lemma visit_elem (op : WriteOp) (m : keys_t) (p : ColumnFamilyID * string) :
  p ∈ visit_order (visit op m) <-> p = op_key op \/ p ∈ visit_order m.
Proof. destruct op; simpl; apply RecordKey_elem. Qed.

Lemma Iterate_from_elem (batch : WriteBatch) (m : keys_t)
      (p : ColumnFamilyID * string) :
  p ∈ visit_order (fold_left (fun keys_ op => visit op keys_) batch m)
  <-> p ∈ visit_order m \/ exists op, op ∈ batch /\ op_key op = p.
Proof.
  revert m. induction batch as [|op batch IH]; simpl; intros m.
  - split; [tauto|]. intros [?|(op & Hop & _)]; [done|].
    by apply elem_of_nil in Hop.
  - rewrite IH, visit_elem. split.
    + intros [[->|?]|(op' & ? & ?)].
      * right. exists op. split; [by left|done].
      * by left.
      * right. exists op'. split; [by right|done].
    + intros [?|(op' & Hop' & ?)]; [tauto|].
      apply elem_of_cons in Hop' as [->|?]; [by left; left|].
      right. by exists op'.
Qed.

Lemma lock_plan_sorted (batch : WriteBatch) :
  StronglySorted plan_lt (lock_plan batch).
Proof.
  apply visit_order_sorted, Iterate_from_ok. split; constructor.
Qed.

Lemma lock_plan_elem (batch : WriteBatch) (p : ColumnFamilyID * string) :
  p ∈ lock_plan batch <-> exists op, op ∈ batch /\ op_key op = p.
Proof.
  unfold lock_plan, Iterate. rewrite Iterate_from_elem. simpl.
  rewrite elem_of_nil. tauto.
Qed.

Lemma sorted_plan_NoDup (l : list (ColumnFamilyID * string)) :
  StronglySorted plan_lt l -> NoDup l.
Proof.
  induction 1 as [|x l Hl IH Hx]; constructor; [|done].
  intros Hin. rewrite Forall_forall in Hx.
  by apply (plan_lt_irrefl x), Hx.
Qed.

End PlanOrder.

(** ** Which calls of the lock table [LockBatch] makes *)

Section LockBatchCalls.

Import Handler.

Lemma TryLock_calls (txn : TransactionID) (cf : ColumnFamilyID) (key : string) (w : World) :
  acquire_calls (snd (TransactionDBImpl.TryLock txn cf key w))
  = acquire_calls w ++ [(txn, cf, key)].
Proof.
  unfold TransactionDBImpl.TryLock. destruct (lock_table w !! (cf, key)) as [h|]; [|done].
  by destruct (N.eqb h txn).
Qed.

Lemma lock_cf_keys_calls (txn : TransactionID) (cf : ColumnFamilyID)
      (keys : string_set) (ku : TransactionKeyMap) (w : World) :
  exists n : nat,
    (n <= length keys)%nat
    /\ acquire_calls (snd (lock_cf_keys txn cf keys ku w))
       = acquire_calls w ++ map (acquire_call txn) (take n (map (pair cf) keys))
    /\ (ok (fst (fst (lock_cf_keys txn cf keys ku w))) = true -> n = length keys).
Proof.
  revert ku w. induction keys as [|key rest IH]; intros ku w; cbn [lock_cf_keys].
  - exists 0%nat. simpl. by rewrite app_nil_r.
  - pose proof (TryLock_calls txn cf key w) as Hc.
    destruct (TransactionDBImpl.TryLock txn cf key w) as [s w1]. cbn [snd] in Hc.
    destruct (ok s) eqn:Hok.
    + destruct (IH (keymap_insert cf key kMaxSequenceNumber ku) w1)
        as (n & Hn & Hcalls & Hall).
      exists (S n). split; [simpl; lia|]. split.
      * rewrite Hcalls, Hc, <- app_assoc. done.
      * intros H. simpl. f_equal. auto.
    + exists 1%nat. cbn [fst snd]. split; [simpl; lia|]. split.
      * rewrite Hc. done.
      * rewrite Hok. done.
Qed.

Lemma lock_all_keys_calls (txn : TransactionID) (keys_ : keys_t)
      (ku : TransactionKeyMap) (w : World) :
  exists n : nat,
    acquire_calls (snd (lock_all_keys txn keys_ ku w))
    = acquire_calls w ++ map (acquire_call txn) (take n (visit_order keys_))
    /\ (ok (fst (fst (lock_all_keys txn keys_ ku w))) = true
        -> take n (visit_order keys_) = visit_order keys_).
Proof.
  revert ku w. induction keys_ as [|[cf keys] rest IH]; intros ku w;
    cbn [lock_all_keys].
  - exists 0%nat. simpl. by rewrite app_nil_r.
  - destruct (lock_cf_keys_calls txn cf keys ku w) as (n & Hn & Hcalls & Hall).
    destruct (lock_cf_keys txn cf keys ku w) as [[s ku1] w1].
    cbn [fst snd] in Hcalls, Hall.
    rewrite visit_order_cons. cbn [fst snd].
    destruct (ok s) eqn:Hok.
    + destruct (IH ku1 w1) as (n' & Hcalls' & Hall').
      exists (length (map (pair cf) keys) + n')%nat. split.
      * rewrite Hcalls', Hcalls, (Hall eq_refl), <- app_assoc, <- map_app.
        rewrite take_app_add. rewrite take_ge by (rewrite length_map; lia).
        done.
      * intros H. rewrite take_app_add. by rewrite (Hall' H).
    + exists n. cbn [fst snd]. split.
      * rewrite Hcalls. rewrite take_app_le by (rewrite length_map; lia). done.
      * rewrite Hok. done.
Qed.

Lemma UnLock_calls (txn : TransactionID) (keys : TransactionKeyMap) (w : World) :
  acquire_calls (TransactionDBImpl.UnLock txn keys w) = acquire_calls w.
Proof. reflexivity. Qed.

Lemma LockBatch_calls (batch : WriteBatch) (ku : TransactionKeyMap)
      (t : TransactionImpl) (w : World) :
  exists n : nat,
    acquire_calls (snd (LockBatch batch ku t w))
    = acquire_calls w ++ map (acquire_call (txn_id_ t)) (take n (lock_plan batch))
    /\ (ok (fst (fst (LockBatch batch ku t w))) = true
        -> take n (lock_plan batch) = lock_plan batch).
Proof.
  unfold LockBatch, lock_plan.
  destruct (lock_all_keys_calls (txn_id_ t) (Iterate batch) ku w) as (n & Hc & Hall).
  destruct (lock_all_keys (txn_id_ t) (Iterate batch) ku w) as [[s ku1] w1].
  cbn [fst snd] in Hc, Hall. exists n.
  destruct (ok s) eqn:Hok; cbn [fst snd]; rewrite ?Hok; auto.
Qed.

End LockBatchCalls.

(** ** C3: the lock plan *)

(** Claim C3.  The plan [LockBatch] computes from a batch lists each
    (column family, key) pair of the batch exactly once, however many
    operations were staged on it; it is in ascending order of the column
    family id and, within a column family, in bytewise ascending order of
    the key; two batches that touch the same set of pairs have the same
    plan, whatever the order in which their operations were staged; and the
    calls [LockBatch] makes to the lock table are the plan, in that order,
    up to and including the first key that cannot be locked. *)
Theorem C3_lock_plan_unique_sorted_order_free :
  forall batch : WriteBatch,
    NoDup (lock_plan batch)
    /\ (forall p, p ∈ lock_plan batch <-> exists op, op ∈ batch /\ op_key op = p)
    /\ StronglySorted plan_lt (lock_plan batch)
    /\ (forall batch' : WriteBatch,
           (forall p, (exists op, op ∈ batch' /\ op_key op = p)
                      <-> (exists op, op ∈ batch /\ op_key op = p))
           -> lock_plan batch' = lock_plan batch)
    /\ lock_plan (rev batch) = lock_plan batch
    /\ (forall (t : TransactionImpl) (w : World) (keys_to_unlock : TransactionKeyMap),
           exists n : nat,
             acquire_calls (snd (LockBatch batch keys_to_unlock t w))
             = acquire_calls w
               ++ map (acquire_call (txn_id_ t)) (take n (lock_plan batch))
             /\ (ok (fst (fst (LockBatch batch keys_to_unlock t w))) = true
                 -> take n (lock_plan batch) = lock_plan batch)).
Proof.
  intros batch.
  assert (Hsame : forall batch' : WriteBatch,
             (forall p, (exists op, op ∈ batch' /\ op_key op = p)
                        <-> (exists op, op ∈ batch /\ op_key op = p))
             -> lock_plan batch' = lock_plan batch).
  { intros batch' Hkeys.
    apply (StronglySorted_unique_strong plan_lt).
    - intros x1 x2 _ _ H1 H2. destruct (plan_lt_asym _ _ H1 H2).
    - apply lock_plan_sorted.
    - apply lock_plan_sorted.
    - apply NoDup_Permutation.
      + apply sorted_plan_NoDup, lock_plan_sorted.
      + apply sorted_plan_NoDup, lock_plan_sorted.
      + intros p. rewrite !lock_plan_elem. apply Hkeys. }
  split; [apply sorted_plan_NoDup, lock_plan_sorted|].
  split; [apply lock_plan_elem|].
  split; [apply lock_plan_sorted|].
  split; [exact Hsame|].
  split.
  - apply Hsame. intros p. split; intros (op & Hop & E); exists op; split; try done.
    + apply list_elem_of_In. apply list_elem_of_In in Hop. by apply in_rev.
    + apply list_elem_of_In. apply list_elem_of_In in Hop. by apply in_rev in Hop.
  - intros t w ku. apply LockBatch_calls.
Qed.

(** Five operations on four pairs, staged out of order and with "b" twice. *)
Example lock_plan_of_a_batch :
  lock_plan [PutOp 1 "b" "v"; DeleteOp 0 "zz"; MergeOp 1 "a" "x";
             PutOp 1 "b" "y"; PutOp 0 "a" ""]
  = [(0, "a"); (0, "zz"); (1, "a"); (1, "b")].
Proof. reflexivity. Qed.

(** ** [TryLock] on a key the transaction has tracked before *)

Section Relock.

Lemma previously_locked_tracked (t : TransactionImpl) (cf : ColumnFamilyID)
      (key : string) (seq : SequenceNumber) :
  keymap_lookup (tracked_keys_ t) cf key = Some seq ->
  previously_locked t cf key = (true, seq).
Proof.
  unfold keymap_lookup, previously_locked.
  destruct (tracked_keys_ t !! cf) as [cf_keys|]; [|done].
  by intros ->.
Qed.

Lemma previously_locked_untracked (t : TransactionImpl) (cf : ColumnFamilyID)
      (key : string) :
  keymap_lookup (tracked_keys_ t) cf key = None ->
  previously_locked t cf key = (false, kMaxSequenceNumber).
Proof.
  unfold keymap_lookup, previously_locked.
  destruct (tracked_keys_ t !! cf) as [cf_keys|]; [|done].
  by intros ->.
Qed.

(** The early return of [ValidateSnapshot] touches neither [*new_seqno] nor
    the world. *)
Lemma ValidateSnapshot_early (seq : SequenceNumber) (column_family : ColumnFamilyHandle)
      (key : string) (prev_seqno new_seqno : SequenceNumber) (w : World) :
  prev_seqno <= seq ->
  ValidateSnapshot seq column_family key prev_seqno new_seqno w = (OK, new_seqno, w).
Proof.
  intros H. unfold ValidateSnapshot.
  by rewrite (proj2 (N.leb_le prev_seqno seq) H).
Qed.

(** [TryLock] on a tracked key, with validation against the snapshot. *)
Lemma TryLock_tracked_validated (column_family : ColumnFamilyHandle) (key : string)
      (t : TransactionImpl) (w : World) (recorded seq : SequenceNumber) :
  keymap_lookup (tracked_keys_ t) (GetColumnFamilyID column_family) key = Some recorded ->
  snapshot_ (TransactionBaseImpl.SetSnapshotIfNeeded t w) = Some seq ->
  TryLock column_family key false t w
  = let '(s1, new_seqno, w') :=
      ValidateSnapshot seq column_family key recorded kMaxSequenceNumber w in
    if ok s1
    then (s1, TransactionBaseImpl.TrackKey (GetColumnFamilyID column_family) key new_seqno
                (TransactionBaseImpl.SetSnapshotIfNeeded t w), w')
    else (s1, TransactionBaseImpl.SetSnapshotIfNeeded t w, w').
Proof.
  intros Hrec Hsnap. unfold TryLock.
  rewrite (previously_locked_tracked _ _ _ _ Hrec), Hsnap. cbn [ok].
  destruct (ValidateSnapshot seq column_family key recorded kMaxSequenceNumber w)
    as [[s1 new_seqno] w'].
  destruct (ok s1) eqn:E; cbv beta iota; by rewrite E.
Qed.

(** [TryLock] on a tracked key, without validation. *)
Lemma TryLock_tracked_unvalidated (column_family : ColumnFamilyHandle) (key : string)
      (untracked : bool) (t : TransactionImpl) (w : World) (recorded : SequenceNumber) :
  keymap_lookup (tracked_keys_ t) (GetColumnFamilyID column_family) key = Some recorded ->
  untracked = true \/ snapshot_ (TransactionBaseImpl.SetSnapshotIfNeeded t w) = None ->
  TryLock column_family key untracked t w
  = (OK,
     TransactionBaseImpl.TrackKey (GetColumnFamilyID column_family) key
       (if N.eqb recorded kMaxSequenceNumber
        then latest_sequence_number w else recorded)
       (TransactionBaseImpl.SetSnapshotIfNeeded t w),
     w).
Proof.
  intros Hrec Hcase. unfold TryLock.
  rewrite (previously_locked_tracked _ _ _ _ Hrec).
  assert (match untracked, snapshot_ (TransactionBaseImpl.SetSnapshotIfNeeded t w) with
          | false, Some _ => False
          | _, _ => True
          end) as Hbranch.
  { destruct Hcase as [->| ->]; [done|]. by destruct untracked. }
  destruct untracked, (snapshot_ (TransactionBaseImpl.SetSnapshotIfNeeded t w));
    try done; by destruct (N.eqb recorded kMaxSequenceNumber).
Qed.

(** What the ledger holds for a key right after it was recorded. *)
Lemma TrackKey_lookup (cf : ColumnFamilyID) (key : string) (seq : SequenceNumber)
      (t : TransactionImpl) :
  keymap_lookup (tracked_keys_ (TransactionBaseImpl.TrackKey cf key seq t)) cf key = Some seq.
Proof.
  assert (keymap_lookup (keymap_store cf key seq (tracked_keys_ t)) cf key = Some seq)
    as H.
  { unfold keymap_lookup, keymap_store. by rewrite !lookup_insert_eq. }
  unfold TransactionBaseImpl.TrackKey.
  destruct (keymap_lookup (tracked_keys_ t) cf key), (save_points_ t); exact H.
Qed.

End Relock.

(** ** C1: the validation shortcut *)

(** Claim C1, as amended.  When [TryLock] validates a key whose tracked
    sequence number is at most the snapshot's, [ValidateSnapshot] returns OK
    at once: it leaves the world untouched (no query of the store's history,
    no call of the lock table) and it leaves [*new_seqno] untouched, so
    [new_seqno] still holds [kMaxSequenceNumber], the value [TryLock]
    initialised it with.  [TryLock] succeeds and hands exactly that value,
    not the tracked sequence number, to [TrackKey]. *)
Theorem C1_shortcut_keeps_new_seqno_at_sentinel :
  forall (column_family : ColumnFamilyHandle) (key : string)
         (t : TransactionImpl) (w : World) (prior_seq seq : SequenceNumber),
    keymap_lookup (tracked_keys_ t) (GetColumnFamilyID column_family) key
    = Some prior_seq ->
    snapshot_ (TransactionBaseImpl.SetSnapshotIfNeeded t w) = Some seq ->
    prior_seq <= seq ->
    ValidateSnapshot seq column_family key prior_seq kMaxSequenceNumber w
    = (OK, kMaxSequenceNumber, w)
    /\ TryLock column_family key false t w
       = (OK,
          TransactionBaseImpl.TrackKey (GetColumnFamilyID column_family) key kMaxSequenceNumber
            (TransactionBaseImpl.SetSnapshotIfNeeded t w),
          w).
Proof.
  intros column_family key t w prior_seq seq Hrec Hsnap Hle.
  pose proof (ValidateSnapshot_early seq column_family key prior_seq
                kMaxSequenceNumber w Hle) as Hv.
  split; [exact Hv|].
  rewrite (TryLock_tracked_validated _ _ _ _ _ _ Hrec Hsnap), Hv. done.
Qed.

Lemma C1_shortcut_witness :
  keymap_lookup (tracked_keys_ relock_txn) (GetColumnFamilyID None) "k" = Some 5
  /\ snapshot_ (TransactionBaseImpl.SetSnapshotIfNeeded relock_txn relock_world) = Some 10
  /\ 5 <= 10
  /\ ValidateSnapshot 10 None "k" 5 kMaxSequenceNumber relock_world
     = (OK, kMaxSequenceNumber, relock_world)
  /\ TryLock None "k" false relock_txn relock_world
     = (OK,
        TransactionBaseImpl.TrackKey (GetColumnFamilyID None) "k" kMaxSequenceNumber
          (TransactionBaseImpl.SetSnapshotIfNeeded relock_txn relock_world),
        relock_world).
Proof.
  assert (H1 : keymap_lookup (tracked_keys_ relock_txn) (GetColumnFamilyID None) "k"
               = Some 5) by reflexivity.
  assert (H2 : snapshot_ (TransactionBaseImpl.SetSnapshotIfNeeded relock_txn relock_world) = Some 10)
    by reflexivity.
  assert (H3 : 5 <= 10) by lia.
  split; [exact H1|]. split; [exact H2|]. split; [exact H3|].
  exact (C1_shortcut_keeps_new_seqno_at_sentinel None "k" relock_txn relock_world
           5 10 H1 H2 H3).
Defined.

(** C1 as the claim states it fails: with "k" tracked at 5 and the snapshot
    at 10, validation yields [kMaxSequenceNumber] for [new_seqno], not 5, and
    the sequence number recorded for "k" afterwards is the sentinel. *)
Lemma C1_counterexample :
  ~ (forall (column_family : ColumnFamilyHandle) (key : string)
            (t : TransactionImpl) (w : World) (prior_seq seq : SequenceNumber),
        keymap_lookup (tracked_keys_ t) (GetColumnFamilyID column_family) key
        = Some prior_seq ->
        snapshot_ (TransactionBaseImpl.SetSnapshotIfNeeded t w) = Some seq ->
        prior_seq <= seq ->
        snd (fst (ValidateSnapshot seq column_family key prior_seq
                    kMaxSequenceNumber w)) = prior_seq
        /\ keymap_lookup
             (tracked_keys_ (snd (fst (TryLock column_family key false t w))))
             (GetColumnFamilyID column_family) key
           = Some prior_seq).
Proof.
  intros H.
  destruct (H None "k" relock_txn relock_world 5 10) as [Hnew Hrec];
    [reflexivity|reflexivity|lia|].
  vm_compute in Hnew. discriminate Hnew.
Qed.

(** The values at that input. *)
Example relock_values :
  snd (fst (ValidateSnapshot 10 None "k" 5 kMaxSequenceNumber relock_world))
  = kMaxSequenceNumber
  /\ keymap_lookup
       (tracked_keys_ (snd (fst (TryLock None "k" false relock_txn relock_world))))
       0 "k"
     = Some kMaxSequenceNumber
  /\ history_queries (snd (TryLock None "k" false relock_txn relock_world)) = [].
Proof. repeat split; vm_compute; reflexivity. Qed.

(** ** C7: locking a tracked key again *)

Section RelockCalls.

Lemma ValidateSnapshot_frame (seq : SequenceNumber) (column_family : ColumnFamilyHandle)
      (key : string) (prev_seqno new_seqno : SequenceNumber) (w : World) :
  let w' := snd (ValidateSnapshot seq column_family key prev_seqno new_seqno w) in
  lock_table w' = lock_table w /\ acquire_calls w' = acquire_calls w.
Proof.
  unfold ValidateSnapshot, TransactionUtil.CheckKeyForConflicts.
  destruct (N.leb prev_seqno seq); [done|].
  destruct (last_write w !! (GetColumnFamilyID column_family, key)) as [s|]; [|done].
  by destruct (N.ltb seq s).
Qed.

Lemma SetSnapshotIfNeeded_frame (t : TransactionImpl) (w : World) :
  let t1 := TransactionBaseImpl.SetSnapshotIfNeeded t w in
  tracked_keys_ t1 = tracked_keys_ t
  /\ save_points_ t1 = save_points_ t
  /\ txn_id_ t1 = txn_id_ t
  /\ write_batch_ t1 = write_batch_ t.
Proof.
  unfold TransactionBaseImpl.SetSnapshotIfNeeded. by destruct (snapshot_needed_ t).
Qed.

End RelockCalls.

(** Claim C7, as amended.  For a key that the ledger already holds,
    [TryLock] makes no call to the lock table's acquire primitive and uses
    the recorded sequence number as the prior sequence number: with a
    snapshot and [untracked] false it is what [ValidateSnapshot] receives;
    without a snapshot, or with [untracked] true, the call succeeds and
    records the recorded number again unless that number is
    [kMaxSequenceNumber], in which case it records the store's latest
    sequence number instead. *)
Theorem C7_relock_skips_acquire_and_reuses_recorded_seq :
  forall (column_family : ColumnFamilyHandle) (key : string) (untracked : bool)
         (t : TransactionImpl) (w : World) (recorded : SequenceNumber),
    keymap_lookup (tracked_keys_ t) (GetColumnFamilyID column_family) key
    = Some recorded ->
    acquire_calls (snd (TryLock column_family key untracked t w)) = acquire_calls w
    /\ (forall seq : SequenceNumber,
           untracked = false ->
           snapshot_ (TransactionBaseImpl.SetSnapshotIfNeeded t w) = Some seq ->
           TryLock column_family key untracked t w
           = let '(s1, new_seqno, w') :=
               ValidateSnapshot seq column_family key recorded kMaxSequenceNumber w in
             if ok s1
             then (s1, TransactionBaseImpl.TrackKey (GetColumnFamilyID column_family) key new_seqno
                         (TransactionBaseImpl.SetSnapshotIfNeeded t w), w')
             else (s1, TransactionBaseImpl.SetSnapshotIfNeeded t w, w'))
    /\ (untracked = true \/ snapshot_ (TransactionBaseImpl.SetSnapshotIfNeeded t w) = None ->
        TryLock column_family key untracked t w
        = (OK,
           TransactionBaseImpl.TrackKey (GetColumnFamilyID column_family) key
             (if N.eqb recorded kMaxSequenceNumber
              then latest_sequence_number w else recorded)
             (TransactionBaseImpl.SetSnapshotIfNeeded t w),
           w)
        /\ keymap_lookup
             (tracked_keys_ (snd (fst (TryLock column_family key untracked t w))))
             (GetColumnFamilyID column_family) key
           = Some (if N.eqb recorded kMaxSequenceNumber
                   then latest_sequence_number w else recorded)).
Proof.
  intros column_family key untracked t w recorded Hrec.
  assert (Hplain : untracked = true \/ snapshot_ (TransactionBaseImpl.SetSnapshotIfNeeded t w) = None ->
                   TryLock column_family key untracked t w
                   = (OK,
                      TransactionBaseImpl.TrackKey (GetColumnFamilyID column_family) key
                        (if N.eqb recorded kMaxSequenceNumber
                         then latest_sequence_number w else recorded)
                        (TransactionBaseImpl.SetSnapshotIfNeeded t w),
                      w))
    by (intros Hcase; by apply TryLock_tracked_unvalidated).
  assert (Hval : forall seq : SequenceNumber,
             untracked = false ->
             snapshot_ (TransactionBaseImpl.SetSnapshotIfNeeded t w) = Some seq ->
             TryLock column_family key untracked t w
             = let '(s1, new_seqno, w') :=
                 ValidateSnapshot seq column_family key recorded kMaxSequenceNumber w in
               if ok s1
               then (s1, TransactionBaseImpl.TrackKey (GetColumnFamilyID column_family) key new_seqno
                           (TransactionBaseImpl.SetSnapshotIfNeeded t w), w')
               else (s1, TransactionBaseImpl.SetSnapshotIfNeeded t w, w'))
    by (intros seq -> Hsnap; by apply TryLock_tracked_validated).
  split; [|split; [exact Hval|]].
  - destruct untracked eqn:Hu.
    + rewrite Hplain by (by left). done.
    + destruct (snapshot_ (TransactionBaseImpl.SetSnapshotIfNeeded t w)) as [seq|] eqn:Hsnap.
      * rewrite (Hval seq eq_refl eq_refl).
        pose proof (ValidateSnapshot_frame seq column_family key recorded
                      kMaxSequenceNumber w) as [_ Hcalls].
        destruct (ValidateSnapshot seq column_family key recorded kMaxSequenceNumber w)
          as [[s1 new_seqno] w'].
        cbn [snd] in Hcalls. by destruct (ok s1).
      * rewrite Hplain by (by right). done.
  - intros Hcase. split; [by apply Hplain|].
    rewrite (Hplain Hcase). cbn [fst snd]. apply TrackKey_lookup.
Qed.

Lemma C7_relock_witness :
  keymap_lookup (tracked_keys_ relock_txn) (GetColumnFamilyID None) "k" = Some 5
  /\ acquire_calls (snd (TryLock None "k" true relock_txn relock_world))
     = acquire_calls relock_world
  /\ keymap_lookup
       (tracked_keys_ (snd (fst (TryLock None "k" true relock_txn relock_world))))
       (GetColumnFamilyID None) "k"
     = Some 5.
Proof.
  assert (H1 : keymap_lookup (tracked_keys_ relock_txn) (GetColumnFamilyID None) "k"
               = Some 5) by reflexivity.
  destruct (C7_relock_skips_acquire_and_reuses_recorded_seq
              None "k" true relock_txn relock_world 5 H1) as (Hcalls & _ & Hplain).
  destruct (Hplain (or_introl eq_refl)) as [_ Hkept].
  split; [exact H1|]. split; [exact Hcalls|exact Hkept].
Defined.

(** C7 as the claim states it fails.  Transaction 1 has "k" tracked at 5
    and locks it again under its snapshot at 10; by C1 the ledger then holds
    [kMaxSequenceNumber] for "k".  Locking "k" once more with [untracked]
    set does not keep that recorded number: the store's latest sequence
    number, 12, replaces it. *)
Lemma C7_counterexample :
  ~ (forall (column_family : ColumnFamilyHandle) (key : string) (untracked : bool)
            (t : TransactionImpl) (w : World) (recorded : SequenceNumber),
        keymap_lookup (tracked_keys_ t) (GetColumnFamilyID column_family) key
        = Some recorded ->
        untracked = true
        \/ snapshot_ (TransactionBaseImpl.SetSnapshotIfNeeded t w) = None ->
        acquire_calls (snd (TryLock column_family key untracked t w)) = acquire_calls w
        /\ keymap_lookup
             (tracked_keys_ (snd (fst (TryLock column_family key untracked t w))))
             (GetColumnFamilyID column_family) key
           = Some recorded).
Proof.
  intros H.
  destruct (H None "k" true relocked_txn relock_world kMaxSequenceNumber)
    as [_ Hkept]; [reflexivity|by left|].
  vm_compute in Hkept. discriminate Hkept.
Qed.

(** The values at that input. *)
Example relocked_values :
  keymap_lookup (tracked_keys_ relocked_txn) 0 "k" = Some kMaxSequenceNumber
  /\ keymap_lookup
       (tracked_keys_ (snd (fst (TryLock None "k" true relocked_txn relock_world))))
       0 "k"
     = Some 12.
Proof. split; vm_compute; reflexivity. Qed.

(** ** C5: a failed [TryLock] *)

Section TryLockFailure.

Lemma TryLock_table_cases (txn : TransactionID) (cf : ColumnFamilyID)
      (key : string) (w : World) :
  (fst (TransactionDBImpl.TryLock txn cf key w) = OK
   /\ lock_table (snd (TransactionDBImpl.TryLock txn cf key w))
      = <[(cf, key) := txn]> (lock_table w)
   /\ (lock_table w !! (cf, key) = None \/ lock_table w !! (cf, key) = Some txn))
  \/ (fst (TransactionDBImpl.TryLock txn cf key w) = LockTimeout
      /\ lock_table (snd (TransactionDBImpl.TryLock txn cf key w)) = lock_table w
      /\ exists holder, lock_table w !! (cf, key) = Some holder /\ holder <> txn).
Proof.
  unfold TransactionDBImpl.TryLock.
  destruct (lock_table w !! (cf, key)) as [holder|] eqn:Hl.
  - destruct (N.eqb_spec holder txn) as [->|Hne].
    + left. cbn. split; [done|]. split; [|by right].
      symmetry. by apply insert_id.
    + right. cbn. split; [done|]. split; [done|]. by exists holder.
  - left. cbn. split; [done|]. split; [done|by left].
Qed.

Lemma UnLockKey_table (txn : TransactionID) (cf : ColumnFamilyID)
      (key : string) (w : World) :
  lock_table (TransactionDBImpl.UnLockKey txn cf key w)
  = if decide (lock_table w !! (cf, key) = Some txn)
    then delete (cf, key) (lock_table w)
    else lock_table w.
Proof.
  unfold TransactionDBImpl.UnLockKey.
  destruct (lock_table w !! (cf, key)) as [holder|] eqn:Hl.
  - destruct (N.eqb_spec holder txn) as [->|Hne].
    + by rewrite decide_True.
    + rewrite decide_False; [done|congruence].
  - by rewrite decide_False.
Qed.

(** Acquiring a free key and releasing it again restores the table. *)
Lemma acquire_release_restores (txn : TransactionID) (ck : N * string)
      (m m1 : gmap (N * string) N) :
  m1 = <[ck := txn]> m ->
  m !! ck <> Some txn ->
  (m !! ck = None \/ m !! ck = Some txn) ->
  (if decide (m1 !! ck = Some txn) then delete ck m1 else m1) = m.
Proof.
  intros -> Hnot [Hfree|Hheld]; [|done].
  rewrite lookup_insert_eq, decide_True by done.
  rewrite delete_insert_eq. by apply delete_id.
Qed.

End TryLockFailure.

Section TryLockFresh.

(** [TryLock] on a key the ledger does not hold. *)
Lemma TryLock_fresh (column_family : ColumnFamilyHandle) (key : string)
      (untracked : bool) (t : TransactionImpl) (w : World) :
  keymap_lookup (tracked_keys_ t) (GetColumnFamilyID column_family) key = None ->
  TryLock column_family key untracked t w
  = let cfh_id := GetColumnFamilyID column_family in
    let '(s, w1) := TransactionDBImpl.TryLock (txn_id_ t) cfh_id key w in
    let t1 := TransactionBaseImpl.SetSnapshotIfNeeded t w1 in
    if ok s then
      match untracked, snapshot_ t1 with
      | false, Some seq =>
          let '(s1, new_seqno, w') :=
            ValidateSnapshot seq column_family key kMaxSequenceNumber
                             kMaxSequenceNumber w1 in
          if ok s1
          then (s1, TransactionBaseImpl.TrackKey cfh_id key new_seqno t1, w')
          else (s1, t1, TransactionDBImpl.UnLockKey (txn_id_ t) cfh_id key w')
      | _, _ => (s, TransactionBaseImpl.TrackKey cfh_id key (latest_sequence_number w1) t1, w1)
      end
    else (s, t1, w1).
Proof.
  intros Hnone. unfold TryLock.
  rewrite (previously_locked_untracked _ _ _ Hnone). cbv zeta.
  destruct (TransactionDBImpl.TryLock (txn_id_ t) (GetColumnFamilyID column_family) key w)
    as [s w1].
  rewrite N.eqb_refl.
  destruct untracked, (snapshot_ (TransactionBaseImpl.SetSnapshotIfNeeded t w1)) as [seq|],
    (ok s) eqn:Hs; cbv beta iota; rewrite ?Hs; try done.
  destruct (ValidateSnapshot seq column_family key kMaxSequenceNumber
              kMaxSequenceNumber w1) as [[s1 new_seqno] w'].
  destruct (ok s1) eqn:Hs1; cbv beta iota; by rewrite Hs1.
Qed.

End TryLockFresh.

(** Claim C5.  When [TryLock] fails, the ledger is as it was before the call
    (tracked keys and save points alike).  A lock whose key the ledger
    already held is not released: the lock table is unchanged.  For a key
    the ledger did not hold, the transaction is not left holding the lock: a
    lock acquired within the call has been released when the error is
    returned.  Locks on other keys are never touched.  In a state where
    every lock the table reports for the transaction is in its ledger, the
    lock table after the call is the lock table before it. *)
Theorem C5_failed_try_lock_leaves_locks_and_ledger :
  forall (column_family : ColumnFamilyHandle) (key : string) (untracked : bool)
         (t : TransactionImpl) (w : World),
    ok (fst (fst (TryLock column_family key untracked t w))) = false ->
    tracked_keys_ (snd (fst (TryLock column_family key untracked t w)))
    = tracked_keys_ t
    /\ save_points_ (snd (fst (TryLock column_family key untracked t w)))
       = save_points_ t
    /\ (is_Some (keymap_lookup (tracked_keys_ t) (GetColumnFamilyID column_family) key) ->
        lock_table (snd (TryLock column_family key untracked t w)) = lock_table w)
    /\ (keymap_lookup (tracked_keys_ t) (GetColumnFamilyID column_family) key = None ->
        lock_table (snd (TryLock column_family key untracked t w))
          !! (GetColumnFamilyID column_family, key) <> Some (txn_id_ t))
    /\ (forall ck, ck <> (GetColumnFamilyID column_family, key) ->
                   lock_table (snd (TryLock column_family key untracked t w)) !! ck
                   = lock_table w !! ck)
    /\ (locks_tracked t w ->
        lock_table (snd (TryLock column_family key untracked t w)) = lock_table w).
Proof.
  intros column_family key untracked t w Hfail.
  destruct (keymap_lookup (tracked_keys_ t) (GetColumnFamilyID column_family) key)
    as [recorded|] eqn:Hrec.
  - (* the key was tracked: only validation can fail, and nothing is released *)
    assert (Hval : exists seq, untracked = false
                   /\ snapshot_ (TransactionBaseImpl.SetSnapshotIfNeeded t w) = Some seq).
    { destruct untracked.
      - rewrite (TryLock_tracked_unvalidated _ _ _ _ _ _ Hrec) in Hfail by (by left).
        done.
      - destruct (snapshot_ (TransactionBaseImpl.SetSnapshotIfNeeded t w)) as [seq|] eqn:Hsnap.
        + by exists seq.
        + rewrite (TryLock_tracked_unvalidated _ _ _ _ _ _ Hrec) in Hfail
            by (by right).
          done. }
    destruct Hval as (seq & -> & Hsnap).
    rewrite (TryLock_tracked_validated _ _ _ _ _ _ Hrec Hsnap) in Hfail |- *.
    pose proof (ValidateSnapshot_frame seq column_family key recorded
                  kMaxSequenceNumber w) as [Htable _].
    destruct (ValidateSnapshot seq column_family key recorded kMaxSequenceNumber w)
      as [[s1 new_seqno] w'].
    cbn [snd] in Htable.
    destruct (ok s1) eqn:Hs1; cbn [fst snd] in Hfail |- *; [congruence|].
    destruct (SetSnapshotIfNeeded_frame t w) as (Hk & Hsp & _).
    rewrite Htable. repeat split; try done.
  - (* the key was not tracked *)
    rewrite (TryLock_fresh _ _ _ _ _ Hrec) in Hfail |- *. cbv zeta in Hfail |- *.
    pose proof (TryLock_table_cases (txn_id_ t) (GetColumnFamilyID column_family)
                  key w) as Hacq.
    destruct (TransactionDBImpl.TryLock (txn_id_ t) (GetColumnFamilyID column_family) key w)
      as [s w1].
    cbn [fst snd] in Hacq.
    destruct (SetSnapshotIfNeeded_frame t w1) as (Hk & Hsp & _).
    destruct Hacq as [(-> & Hw1 & Hbefore)|(-> & Hw1 & holder & Hheld & Hother)];
      cbn [ok] in Hfail |- *.
    + (* acquired; validation fails and the key is unlocked again *)
      destruct untracked; [done|].
      destruct (snapshot_ (TransactionBaseImpl.SetSnapshotIfNeeded t w1)) as [seq|]; [|done].
      pose proof (ValidateSnapshot_frame seq column_family key kMaxSequenceNumber
                    kMaxSequenceNumber w1) as [Htable _].
      destruct (ValidateSnapshot seq column_family key kMaxSequenceNumber
                  kMaxSequenceNumber w1) as [[s1 new_seqno] w'].
      cbn [snd] in Htable.
      destruct (ok s1) eqn:Hs1; cbn [fst snd] in Hfail |- *; [congruence|].
      rewrite UnLockKey_table, Htable.
      split; [done|]. split; [done|]. split; [by intros [? ?]|].
      split; [|split].
      * intros _. case_decide as Hd.
        -- rewrite lookup_delete_eq. done.
        -- done.
      * intros ck Hck. rewrite Hw1. case_decide as Hd.
        -- rewrite lookup_delete_ne by done. by rewrite lookup_insert_ne.
        -- by rewrite lookup_insert_ne.
      * intros Hinv. apply acquire_release_restores; [done| |done].
        intros Hmine. apply Hinv in Hmine as [x Hx]. congruence.
    + (* the lock table refused *)
      cbn [fst snd]. rewrite Hw1.
      split; [done|]. split; [done|]. split; [done|]. split; [|done].
      intros _. rewrite Hheld. congruence.
Qed.

Lemma C5_failed_try_lock_witness :
  ok (fst (fst (TryLock None "j" false relock_txn conflict_world))) = false
  /\ tracked_keys_ (snd (fst (TryLock None "j" false relock_txn conflict_world)))
     = tracked_keys_ relock_txn
  /\ lock_table (snd (TryLock None "j" false relock_txn conflict_world))
       !! (GetColumnFamilyID None, "j") <> Some (txn_id_ relock_txn).
Proof.
  assert (H : ok (fst (fst (TryLock None "j" false relock_txn conflict_world))) = false)
    by reflexivity.
  destruct (C5_failed_try_lock_leaves_locks_and_ledger
              None "j" false relock_txn conflict_world H)
    as (Hkeys & _ & _ & Hreleased & _ & _).
  split; [exact H|]. split; [exact Hkeys|]. apply Hreleased. reflexivity.
Defined.

(** At that input the lock on "j" was acquired (one call of the lock table),
    validation found the write at sequence number 11, and the call ends with
    [Conflict] and an empty lock table. *)
Example conflict_values :
  fst (fst (TryLock None "j" false relock_txn conflict_world)) = Conflict
  /\ acquire_calls (snd (TryLock None "j" false relock_txn conflict_world))
     = [(1, 0, "j")]
  /\ lock_table (snd (TryLock None "j" false relock_txn conflict_world)) = ∅.
Proof. repeat split; vm_compute; reflexivity. Qed.

(** When the lock table refuses the key (transaction 2 holds "j"), the call
    ends with [LockTimeout]; lock table and ledger are as before. *)
Example refused_values :
  fst (fst (TryLock None "j" false relock_txn contended_world)) = LockTimeout
  /\ lock_table (snd (TryLock None "j" false relock_txn contended_world))
     = lock_table contended_world
  /\ tracked_keys_ (snd (fst (TryLock None "j" false relock_txn contended_world)))
     = tracked_keys_ relock_txn.
Proof. repeat split; vm_compute; reflexivity. Qed.

(** ** C6: [LockBatch] *)

Section LockBatchLocks.

Import Handler.

Lemma lock_in_order_app (txn : TransactionID) (l1 l2 : list (ColumnFamilyID * string))
      (ku : TransactionKeyMap) (w : World) :
  lock_in_order txn (l1 ++ l2) ku w
  = let '(s, ku1, w1) := lock_in_order txn l1 ku w in
    if ok s then lock_in_order txn l2 ku1 w1 else (s, ku1, w1).
Proof.
  revert ku w. induction l1 as [|ck l1 IH]; intros ku w; [done|].
  cbn [app lock_in_order].
  destruct (TransactionDBImpl.TryLock txn ck.1 ck.2 w) as [s w1].
  destruct (ok s) eqn:Hs; [apply IH|]. cbv beta iota. by rewrite Hs.
Qed.

Lemma lock_cf_keys_flat (txn : TransactionID) (cf : ColumnFamilyID)
      (keys : string_set) (ku : TransactionKeyMap) (w : World) :
  lock_cf_keys txn cf keys ku w = lock_in_order txn (map (pair cf) keys) ku w.
Proof.
  revert ku w. induction keys as [|key keys IH]; intros ku w; [done|].
  cbn [map lock_cf_keys lock_in_order fst snd].
  destruct (TransactionDBImpl.TryLock txn cf key w) as [s w1].
  destruct (ok s); [apply IH|done].
Qed.

Lemma lock_all_keys_flat (txn : TransactionID) (keys_ : keys_t)
      (ku : TransactionKeyMap) (w : World) :
  lock_all_keys txn keys_ ku w = lock_in_order txn (visit_order keys_) ku w.
Proof.
  revert ku w. induction keys_ as [|[cf keys] rest IH]; intros ku w; [done|].
  rewrite visit_order_cons, lock_in_order_app. cbn [lock_all_keys fst snd].
  rewrite lock_cf_keys_flat.
  destruct (lock_in_order txn (map (pair cf) keys) ku w) as [[s ku1] w1].
  destruct (ok s); [apply IH|done].
Qed.

Lemma keymap_insert_lookup (cf : ColumnFamilyID) (key : string) (seq : SequenceNumber)
      (keys : TransactionKeyMap) (cf' : ColumnFamilyID) (key' : string) :
  keymap_lookup (keymap_insert cf key seq keys) cf' key'
  = if decide (cf' = cf /\ key' = key)
    then Some (default seq (keymap_lookup keys cf key))
    else keymap_lookup keys cf' key'.
Proof.
  assert (Hstep : forall m : gmap string N,
             keymap_lookup (<[cf := m]> keys) cf' key'
             = if decide (cf' = cf) then m !! key' else keymap_lookup keys cf' key').
  { intros m. unfold keymap_lookup. destruct (decide (cf' = cf)) as [->|Hne].
    - by rewrite lookup_insert_eq.
    - by rewrite lookup_insert_ne. }
  unfold keymap_insert.
  assert (Hold : keymap_lookup keys cf key = default ∅ (keys !! cf) !! key).
  { unfold keymap_lookup. destruct (keys !! cf); [done|]. simpl. by rewrite lookup_empty. }
  destruct (default ∅ (keys !! cf) !! key) as [v|] eqn:Hv; rewrite Hstep, Hold.
  - destruct (decide (cf' = cf)) as [->|Hcf].
    + destruct (decide (key' = key)) as [->|Hkey].
      * rewrite decide_True by done. by rewrite Hv.
      * rewrite decide_False by tauto. unfold keymap_lookup.
        destruct (keys !! cf); [done|]. simpl. by rewrite lookup_empty.
    + rewrite decide_False by tauto. done.
  - destruct (decide (cf' = cf)) as [->|Hcf].
    + destruct (decide (key' = key)) as [->|Hkey].
      * rewrite decide_True by done. by rewrite lookup_insert_eq.
      * rewrite decide_False by tauto. rewrite lookup_insert_ne by done.
        unfold keymap_lookup.
        destruct (keys !! cf); [done|]. simpl. by rewrite lookup_empty.
    + rewrite decide_False by tauto. done.
Qed.

Lemma keymap_insert_mem (cf : ColumnFamilyID) (key : string) (seq : SequenceNumber)
      (keys : TransactionKeyMap) (ck : ColumnFamilyID * string) :
  keymap_mem (keymap_insert cf key seq keys) ck = true
  <-> ck = (cf, key) \/ keymap_mem keys ck = true.
Proof.
  destruct ck as [cf' key']. unfold keymap_mem. cbn [fst snd].
  rewrite keymap_insert_lookup.
  destruct (decide (cf' = cf /\ key' = key)) as [[-> ->]|Hne].
  - split; [by left|done].
  - split; [by right|]. intros [E|H]; [|done]. inversion E; subst. tauto.
Qed.

Lemma keymap_mem_empty (ck : ColumnFamilyID * string) :
  keymap_mem (∅ : TransactionKeyMap) ck = false.
Proof. unfold keymap_mem, keymap_lookup. by rewrite lookup_empty. Qed.

End LockBatchLocks.

Section LockBatchUnwind.

(** What a run of the loop leaves behind: the keys it acquired form a
    prefix [done_] of the visiting order; they are exactly what was added
    to [keys_to_unlock]; the lock table holds them for the transaction and
    is otherwise as before. *)
Lemma lock_in_order_spec (txn : TransactionID) (l : list (ColumnFamilyID * string))
      (ku : TransactionKeyMap) (w : World) :
  exists done_ : list (ColumnFamilyID * string),
    done_ `prefix_of` l
    /\ (forall ck, keymap_mem (snd (fst (lock_in_order txn l ku w))) ck = true
                   <-> keymap_mem ku ck = true \/ ck ∈ done_)
    /\ (forall ck, lock_table (snd (lock_in_order txn l ku w)) !! ck
                   = if decide (ck ∈ done_) then Some txn else lock_table w !! ck)
    /\ (forall ck, ck ∈ done_ ->
                   lock_table w !! ck = None \/ lock_table w !! ck = Some txn)
    /\ (ok (fst (fst (lock_in_order txn l ku w))) = true -> done_ = l).
Proof.
  revert ku w. induction l as [|[cf key] rest IH]; intros ku w.
  - exists []. cbn [lock_in_order fst snd]. split; [done|].
    split; [intros ck; rewrite elem_of_nil; tauto|].
    split; [intros ck; by rewrite decide_False by apply not_elem_of_nil|].
    split; [intros ck Hck; by apply elem_of_nil in Hck|done].
  - cbn [lock_in_order fst snd].
    pose proof (TryLock_table_cases txn cf key w) as Hacq.
    destruct (TransactionDBImpl.TryLock txn cf key w) as [s w1]. cbn [fst snd] in Hacq.
    destruct Hacq as [(-> & Hw1 & Hbefore)|(-> & Hw1 & _)]; cbn [ok].
    + destruct (IH (keymap_insert cf key kMaxSequenceNumber ku) w1)
        as (done_ & Hpre & Hmem & Htab & Hfree & Hall).
      exists ((cf, key) :: done_).
      split; [by apply prefix_cons|].
      split; [|split; [|split]].
      * intros ck. rewrite Hmem, keymap_insert_mem, elem_of_cons. tauto.
      * intros ck. rewrite Htab, Hw1.
        destruct (decide (ck ∈ done_)) as [Hin|Hnin].
        -- rewrite decide_True; [done|by right].
        -- destruct (decide (ck = (cf, key))) as [->|Hne].
           ++ rewrite decide_True by (by left). by rewrite lookup_insert_eq.
           ++ rewrite decide_False by (rewrite elem_of_cons; tauto).
              by rewrite lookup_insert_ne.
      * intros ck Hck.
        destruct (decide (ck = (cf, key))) as [->|Hne]; [done|].
        apply elem_of_cons in Hck as [?|Hck]; [done|].
        specialize (Hfree ck Hck). rewrite Hw1, lookup_insert_ne in Hfree; done.
      * intros Hok. by rewrite (Hall Hok).
    + exists []. cbn [fst snd]. split; [apply prefix_nil|].
      split; [intros ck; rewrite elem_of_nil; tauto|].
      split; [intros ck; rewrite Hw1; by rewrite decide_False by apply not_elem_of_nil|].
      split; [intros ck Hck; by apply elem_of_nil in Hck|done].
Qed.

Lemma UnLock_lookup (txn : TransactionID) (keys : TransactionKeyMap) (w : World)
      (ck : ColumnFamilyID * string) :
  lock_table (TransactionDBImpl.UnLock txn keys w) !! ck
  = match lock_table w !! ck with
    | Some holder =>
        if N.eqb holder txn && keymap_mem keys ck then None else Some holder
    | None => None
    end.
Proof.
  unfold TransactionDBImpl.UnLock. cbn [lock_table set_lock_table].
  destruct (lock_table w !! ck) as [holder|] eqn:Hl.
  - destruct (N.eqb holder txn && keymap_mem keys ck) eqn:Hr.
    + apply map_lookup_filter_None. right. intros x Hx.
      unfold TransactionDBImpl.releases. cbn [fst snd]. congruence.
    + apply map_lookup_filter_Some. split; [done|].
      unfold TransactionDBImpl.releases. cbn [fst snd]. done.
  - apply map_lookup_filter_None. by left.
Qed.

(** A released key is no longer held by the transaction. *)
Lemma UnLock_released (txn : TransactionID) (keys : TransactionKeyMap) (w : World)
      (ck : ColumnFamilyID * string) :
  keymap_mem keys ck = true ->
  lock_table (TransactionDBImpl.UnLock txn keys w) !! ck <> Some txn.
Proof.
  intros Hmem. rewrite UnLock_lookup, Hmem.
  destruct (lock_table w !! ck) as [holder|]; [|done].
  destruct (N.eqb_spec holder txn) as [->|Hne]; cbn; congruence.
Qed.

(** A key that is not listed keeps its lock. *)
Lemma UnLock_other (txn : TransactionID) (keys : TransactionKeyMap) (w : World)
      (ck : ColumnFamilyID * string) :
  keymap_mem keys ck = false ->
  lock_table (TransactionDBImpl.UnLock txn keys w) !! ck = lock_table w !! ck.
Proof.
  intros Hmem. rewrite UnLock_lookup, Hmem.
  destruct (lock_table w !! ck) as [holder|]; [|done].
  by rewrite andb_false_r.
Qed.

(** Locks of other transactions are never released. *)
Lemma UnLock_foreign (txn : TransactionID) (keys : TransactionKeyMap) (w : World)
      (ck : ColumnFamilyID * string) (holder : TransactionID) :
  holder <> txn ->
  lock_table (TransactionDBImpl.UnLock txn keys w) !! ck = Some holder
  <-> lock_table w !! ck = Some holder.
Proof.
  intros Hne. rewrite UnLock_lookup.
  destruct (lock_table w !! ck) as [h|]; [|done].
  destruct (N.eqb_spec h txn) as [->|Hh]; cbn.
  - destruct (keymap_mem keys ck); split; congruence.
  - done.
Qed.

End LockBatchUnwind.



(** The values at that input. *)
Example overlap_values :
  fst (fst (LockBatch [PutOp 0 "k" "v"; PutOp 0 "z" "v"] ∅ relock_txn overlap_world))
  = LockTimeout
  /\ lock_table overlap_world !! (0, "k") = Some 1
  /\ keymap_lookup (tracked_keys_ relock_txn) 0 "k" = Some 5
  /\ lock_table
       (snd (LockBatch [PutOp 0 "k" "v"; PutOp 0 "z" "v"] ∅ relock_txn overlap_world))
       !! (0, "k") = None.
Proof. repeat split; vm_compute; reflexivity. Qed.

(** ** C4: the execution status and [DoCommit] *)

Section ExecutionStatusFacts.

Lemma cas_from_STARTED (obj desired : ExecutionStatus) :
  atomic_compare_exchange_strong obj STARTED desired
  = if decide (obj = STARTED) then (true, desired) else (false, obj).
Proof. reflexivity. Qed.

Lemma DB_Write_frame (batch : WriteBatch) (w : World) :
  fst (DB.Write batch w) = db_write_status w batch
  /\ db_writes (snd (DB.Write batch w)) = db_writes w ++ [batch]
  /\ lock_table (snd (DB.Write batch w)) = lock_table w.
Proof.
  unfold DB.Write. destruct (ok (db_write_status w batch)); cbn [fst snd]; [|done].
  split; [done|].
  assert (forall (b : WriteBatch) (w0 : World),
             db_writes (fold_left (fun w' op => store_write (op_key op) w') b w0)
             = db_writes w0
             /\ lock_table (fold_left (fun w' op => store_write (op_key op) w') b w0)
                = lock_table w0) as Hfold.
  { induction b as [|op b IH]; intros w0; [done|]. cbn [fold_left].
    destruct (IH (store_write (op_key op) w0)) as [-> ->]. done. }
  destruct (Hfold batch (log_db_write batch w)) as [-> ->]. done.
Qed.

(** [DoCommit] when it refuses to write. *)
Lemma DoCommit_refused (batch : WriteBatch) (t : TransactionImpl) (w : World) :
  (0 < expiration_time_ t)%Z ->
  (expiration_time_ t <= now_micros w)%Z \/ exec_status_ t <> STARTED ->
  DoCommit batch t w = (Expired, t, w).
Proof.
  intros Hexp Hcase. unfold DoCommit, IsExpired.
  rewrite (proj2 (Z.ltb_lt _ _) Hexp).
  destruct (Z.leb_spec (expiration_time_ t) (now_micros w)) as [Hle|Hgt]; [done|].
  destruct Hcase as [Hle|Hst]; [lia|].
  rewrite cas_from_STARTED, decide_False by done.
  by destruct t.
Qed.

(** [DoCommit] when it wins the compare-and-set. *)
Lemma DoCommit_expirable_writes (batch : WriteBatch) (t : TransactionImpl) (w : World) :
  (0 < expiration_time_ t)%Z ->
  (now_micros w < expiration_time_ t)%Z ->
  exec_status_ t = STARTED ->
  DoCommit batch t w
  = (fst (DB.Write batch w), set_exec_status COMMITTING t, snd (DB.Write batch w)).
Proof.
  intros Hexp Hnow Hst. unfold DoCommit, IsExpired.
  rewrite (proj2 (Z.ltb_lt _ _) Hexp).
  destruct (Z.leb_spec (expiration_time_ t) (now_micros w)) as [Hle|Hgt]; [lia|].
  rewrite cas_from_STARTED, decide_True by done.
  by destruct (DB.Write batch w).
Qed.

(** [DoCommit] without an expiration. *)
Lemma DoCommit_plain_writes (batch : WriteBatch) (t : TransactionImpl) (w : World) :
  (expiration_time_ t <= 0)%Z ->
  DoCommit batch t w = (fst (DB.Write batch w), t, snd (DB.Write batch w)).
Proof.
  intros Hexp. unfold DoCommit.
  rewrite (proj2 (Z.ltb_ge _ _) Hexp).
  by destruct (DB.Write batch w).
Qed.

End ExecutionStatusFacts.

Section StatusFrame.

Lemma TrackKey_status (cf : ColumnFamilyID) (key : string) (seq : SequenceNumber)
      (t : TransactionImpl) :
  exec_status_ (TransactionBaseImpl.TrackKey cf key seq t) = exec_status_ t.
Proof.
  unfold TransactionBaseImpl.TrackKey.
  by destruct (keymap_lookup (tracked_keys_ t) cf key), (save_points_ t).
Qed.

Lemma SetSnapshotIfNeeded_status (t : TransactionImpl) (w : World) :
  exec_status_ (TransactionBaseImpl.SetSnapshotIfNeeded t w) = exec_status_ t.
Proof. unfold TransactionBaseImpl.SetSnapshotIfNeeded. by destruct (snapshot_needed_ t). Qed.

Lemma TryLock_status (column_family : ColumnFamilyHandle) (key : string)
      (untracked : bool) (t : TransactionImpl) (w : World) :
  exec_status_ (snd (fst (TryLock column_family key untracked t w))) = exec_status_ t.
Proof.
  unfold TryLock.
  repeat case_match; cbn [fst snd];
    rewrite ?TrackKey_status, ?SetSnapshotIfNeeded_status; done.
Qed.

Lemma RollbackToSavePoint_status (t : TransactionImpl) (w : World) :
  exec_status_ (snd (fst (RollbackToSavePoint t w))) = exec_status_ t.
Proof.
  unfold RollbackToSavePoint, TransactionBaseImpl.RollbackToSavePoint.
  by destruct (save_points_ t).
Qed.

Lemma DoCommit_status (batch : WriteBatch) (t : TransactionImpl) (w : World) :
  exec_status_ (snd (fst (DoCommit batch t w))) = exec_status_ t
  \/ (exec_status_ t = STARTED
      /\ exec_status_ (snd (fst (DoCommit batch t w))) = COMMITTING).
Proof.
  destruct (Z.ltb_spec 0 (expiration_time_ t)) as [Hexp|Hexp].
  - destruct (Z.leb_spec (expiration_time_ t) (now_micros w)) as [Hle|Hgt].
    + rewrite DoCommit_refused by auto. by left.
    + destruct (decide (exec_status_ t = STARTED)) as [Hst|Hst].
      * rewrite DoCommit_expirable_writes by done. by right.
      * rewrite DoCommit_refused by auto. by left.
  - rewrite DoCommit_plain_writes by done. by left.
Qed.

Lemma Commit_unfold (t : TransactionImpl) (w : World) :
  Commit t w
  = (fst (fst (DoCommit (write_batch_ t) t w)),
     TransactionBaseImpl.Clear (snd (fst (DoCommit (write_batch_ t) t w))),
     TransactionDBImpl.UnLock (txn_id_ (snd (fst (DoCommit (write_batch_ t) t w))))
                       (tracked_keys_ (snd (fst (DoCommit (write_batch_ t) t w))))
                       (snd (DoCommit (write_batch_ t) t w))).
Proof.
  unfold Commit, Clear. by destruct (DoCommit (write_batch_ t) t w) as [[s t1] w1].
Qed.

Lemma CommitBatch_status (batch : WriteBatch) (t : TransactionImpl) (w : World) :
  exec_status_ (snd (fst (CommitBatch batch t w))) = exec_status_ t
  \/ (exec_status_ t = STARTED
      /\ exec_status_ (snd (fst (CommitBatch batch t w))) = COMMITTING).
Proof.
  unfold CommitBatch.
  destruct (LockBatch batch ∅ t w) as [[s ku] w1].
  destruct (ok s); [|by left].
  pose proof (DoCommit_status batch t w1) as H.
  by destruct (DoCommit batch t w1) as [[s1 t1] w2].
Qed.

(** What one event can do to the execution status. *)
Lemma happen_status (e : Event) (t : TransactionImpl) (w : World) :
  exec_status_ (fst (happen e t w)) = exec_status_ t
  \/ (exec_status_ t = STARTED
      /\ ((exec_status_ (fst (happen e t w)) = COMMITTING
           /\ (e = CallCommit \/ exists batch, e = CallCommitBatch batch))
          \/ (exec_status_ (fst (happen e t w)) = LOCKS_STOLEN
              /\ e = CallTryStealingLocks))).
Proof.
  destruct e as [|batch| | |cfh key untracked| |now]; cbn [happen].
  - rewrite Commit_unfold. cbn [fst snd].
    destruct (DoCommit_status (write_batch_ t) t w) as [H|[H1 H2]].
    + left. by rewrite <- H.
    + right. split; [done|]. left. split; [|by left]. by rewrite <- H2.
  - pose proof (CommitBatch_status batch t w) as H.
    destruct (CommitBatch batch t w) as [[s t1] w1]. cbn [fst snd] in *.
    destruct H as [H|[H1 H2]]; [by left|].
    right. split; [done|]. left. split; [done|]. right. by exists batch.
  - by left.
  - pose proof (RollbackToSavePoint_status t w) as H.
    destruct (RollbackToSavePoint t w) as [[s t1] w1]. by left.
  - pose proof (TryLock_status cfh key untracked t w) as H.
    destruct (TryLock cfh key untracked t w) as [[s t1] w1]. by left.
  - unfold TryStealingLocks. rewrite cas_from_STARTED.
    destruct (decide (exec_status_ t = STARTED)) as [Hst|Hst]; cbn [fst snd].
    + right. split; [done|]. by right.
    + by left.
  - by left.
Qed.

(** Once the status is not [STARTED], it never changes again. *)
Lemma no_transition_after_leaving_STARTED (es : list Event) (t : TransactionImpl)
      (w : World) :
  exec_status_ t <> STARTED -> count_transitions es t w = 0%nat.
Proof.
  revert t w. induction es as [|e es IH]; intros t w Hst; [done|].
  cbn [count_transitions].
  destruct (happen_status e t w) as [Hsame|[Hstarted _]]; [|done].
  rewrite decide_True by done. rewrite IH; [done|]. by rewrite Hsame.
Qed.

Lemma at_most_one_transition (es : list Event) (t : TransactionImpl) (w : World) :
  (count_transitions es t w <= 1)%nat.
Proof.
  revert t w. induction es as [|e es IH]; intros t w; cbn [count_transitions]; [lia|].
  destruct (decide (exec_status_ (fst (happen e t w)) = exec_status_ t)) as [Hsame|Hch].
  - specialize (IH (fst (happen e t w)) (snd (happen e t w))). lia.
  - rewrite no_transition_after_leaving_STARTED; [lia|].
    destruct (happen_status e t w) as [?|[_ [[-> _]|[-> _]]]]; done.
Qed.

End StatusFrame.

(** The race, both ways.  When the stealer is first, the commit returns
    [Expired] and the store sees no write; when the commit is first, the
    stealer is told no and the store has the write. *)
Example race_values :
  fst (TryStealingLocks expirable_txn) = true
  /\ Commit (snd (TryStealingLocks expirable_txn)) quiet_world
     = (Expired,
        TransactionBaseImpl.Clear (set_exec_status LOCKS_STOLEN expirable_txn),
        quiet_world)
  /\ fst (fst (Commit expirable_txn quiet_world)) = OK
  /\ db_writes (snd (Commit expirable_txn quiet_world)) = [[PutOp 0 "k" "v"]]
  /\ exec_status_ (snd (fst (Commit expirable_txn quiet_world))) = COMMITTING
  /\ fst (TryStealingLocks (snd (fst (Commit expirable_txn quiet_world)))) = false.
Proof. repeat split; vm_compute; reflexivity. Qed.

(** Claim C4.  [DoCommit] on a transaction with an expiration returns
    [Expired] and leaves the store alone in two cases: the clock has reached
    [expiration_time_], or the compare-and-set from [STARTED] to
    [COMMITTING] fails.  In every other case (no expiration, or the
    compare-and-set succeeds) the batch is handed to the store's write and
    the result of that write is returned.  These are the only cases: the
    call ends in [Expired] with no write exactly in the first two.
    [Commit] returns what [DoCommit] returns for the pending batch. *)
Theorem C4_commit_expired_in_exactly_two_cases :
  forall (batch : WriteBatch) (t : TransactionImpl) (w : World),
    ((0 < expiration_time_ t)%Z ->
     (expiration_time_ t <= now_micros w)%Z \/ exec_status_ t <> STARTED ->
     DoCommit batch t w = (Expired, t, w))
    /\ ((0 < expiration_time_ t)%Z ->
        (now_micros w < expiration_time_ t)%Z ->
        exec_status_ t = STARTED ->
        DoCommit batch t w
        = (db_write_status w batch, set_exec_status COMMITTING t,
           snd (DB.Write batch w))
        /\ db_writes (snd (DoCommit batch t w)) = db_writes w ++ [batch])
    /\ ((expiration_time_ t <= 0)%Z ->
        DoCommit batch t w = (db_write_status w batch, t, snd (DB.Write batch w))
        /\ db_writes (snd (DoCommit batch t w)) = db_writes w ++ [batch])
    /\ ((fst (fst (DoCommit batch t w)) = Expired
         /\ db_writes (snd (DoCommit batch t w)) = db_writes w)
        <-> ((0 < expiration_time_ t)%Z
             /\ ((expiration_time_ t <= now_micros w)%Z \/ exec_status_ t <> STARTED)))
    /\ fst (fst (Commit t w)) = fst (fst (DoCommit (write_batch_ t) t w))
    /\ db_writes (snd (Commit t w)) = db_writes (snd (DoCommit (write_batch_ t) t w)).
Proof.
  intros batch t w.
  destruct (DB_Write_frame batch w) as (Hres & Hlog & _).
  assert (Hgrow : db_writes w ++ [batch] <> db_writes w).
  { intros E. apply (f_equal length) in E. rewrite length_app in E. simpl in E. lia. }
  split; [intros; by apply DoCommit_refused|].
  split.
  { intros Hexp Hnow Hst. rewrite DoCommit_expirable_writes by done.
    cbn [fst snd]. by rewrite Hres, Hlog. }
  split.
  { intros Hexp. rewrite DoCommit_plain_writes by done.
    cbn [fst snd]. by rewrite Hres, Hlog. }
  split.
  { split.
    - intros [_ Hnowrite].
      destruct (Z.ltb_spec 0 (expiration_time_ t)) as [Hexp|Hexp].
      + split; [done|].
        destruct (Z.leb_spec (expiration_time_ t) (now_micros w)) as [Hle|Hgt];
          [by left|].
        destruct (decide (exec_status_ t = STARTED)) as [Hst|Hst]; [|by right].
        rewrite DoCommit_expirable_writes in Hnowrite by done.
        cbn [snd] in Hnowrite. rewrite Hlog in Hnowrite. done.
      + rewrite DoCommit_plain_writes in Hnowrite by done.
        cbn [snd] in Hnowrite. rewrite Hlog in Hnowrite. done.
    - intros [Hexp Hcase]. by rewrite DoCommit_refused. }
  rewrite Commit_unfold. done.
Qed.

(** ** C9: [Commit] always cleans up *)

Section CommitCleanup.

Lemma DoCommit_frame (batch : WriteBatch) (t : TransactionImpl) (w : World) :
  tracked_keys_ (snd (fst (DoCommit batch t w))) = tracked_keys_ t
  /\ txn_id_ (snd (fst (DoCommit batch t w))) = txn_id_ t
  /\ lock_table (snd (DoCommit batch t w)) = lock_table w.
Proof.
  destruct (DB_Write_frame batch w) as (_ & _ & Hlocks).
  destruct (Z.ltb_spec 0 (expiration_time_ t)) as [Hexp|Hexp].
  - destruct (Z.leb_spec (expiration_time_ t) (now_micros w)) as [Hle|Hgt].
    + by rewrite DoCommit_refused by auto.
    + destruct (decide (exec_status_ t = STARTED)) as [Hst|Hst].
      * by rewrite DoCommit_expirable_writes by done.
      * by rewrite DoCommit_refused by auto.
  - by rewrite DoCommit_plain_writes by done.
Qed.

End CommitCleanup.

(** Claim C9.  After [Commit], whatever it returns (OK, [Expired], or the
    store's error for the write), the transaction's state is cleared: no
    tracked key, no save point, no pending write; every lock recorded in the
    ledger before the call is released; locks on other keys are as before.
    The result is that of [DoCommit] on the pending batch, so a failed
    write is reported and cleaned up after all the same. *)
Theorem C9_commit_always_clears_and_unlocks :
  forall (t : TransactionImpl) (w : World),
    fst (fst (Commit t w)) = fst (fst (DoCommit (write_batch_ t) t w))
    /\ tracked_keys_ (snd (fst (Commit t w))) = ∅
    /\ save_points_ (snd (fst (Commit t w))) = []
    /\ write_batch_ (snd (fst (Commit t w))) = []
    /\ (forall ck, keymap_mem (tracked_keys_ t) ck = true ->
                   lock_table (snd (Commit t w)) !! ck <> Some (txn_id_ t))
    /\ (forall ck, keymap_mem (tracked_keys_ t) ck = false ->
                   lock_table (snd (Commit t w)) !! ck = lock_table w !! ck).
Proof.
  intros t w. rewrite Commit_unfold. cbn [fst snd].
  destruct (DoCommit_frame (write_batch_ t) t w) as (Hkeys & Hid & Hlocks).
  rewrite Hkeys, Hid.
  split; [done|]. split; [done|]. split; [done|]. split; [done|]. split.
  - intros ck Hck. by apply UnLock_released.
  - intros ck Hck. rewrite UnLock_other by done. by rewrite Hlocks.
Qed.

(** A store that rejects every write: [Commit] reports the error and has
    released the lock on "k" all the same. *)
Example failed_write_still_cleans_up :
  let w := mkWorld {[ (0, "k") := 1 ]} [] ∅ [] 12 [] (fun _ => StoreWriteError)
                   1000%Z 2 ∅ 1%Z in
  fst (fst (Commit relock_txn w)) = StoreWriteError
  /\ lock_table (snd (Commit relock_txn w)) = ∅
  /\ tracked_keys_ (snd (fst (Commit relock_txn w))) = ∅.
Proof. repeat split; vm_compute; reflexivity. Qed.

(** ** C8: [RollbackToSavePoint] *)

Section SavePoints.

Lemma keymap_erase_all_lookup (gone keys : TransactionKeyMap)
      (cf : ColumnFamilyID) (key : string) :
  keymap_lookup (keymap_erase_all gone keys) cf key
  = if keymap_mem gone (cf, key) then None else keymap_lookup keys cf key.
Proof.
  unfold keymap_erase_all, keymap_mem, keymap_lookup. cbn [fst snd].
  rewrite map_lookup_imap.
  destruct (keys !! cf) as [cf_keys|]; cbn.
  - rewrite lookup_difference.
    destruct (gone !! cf) as [cf_gone|]; cbn.
    + by destruct (cf_gone !! key).
    + by rewrite lookup_empty.
  - by destruct (match gone !! cf with Some g => g !! key | None => None end).
Qed.

(** [TrackKey] notes a key in the innermost save point exactly when the
    ledger did not hold it. *)
Lemma TrackKey_save_points (cf : ColumnFamilyID) (key : string) (seq : SequenceNumber)
      (t : TransactionImpl) (sp : SavePoint) (sps : list SavePoint) :
  save_points_ t = sp :: sps ->
  save_points_ (TransactionBaseImpl.TrackKey cf key seq t)
  = match keymap_lookup (tracked_keys_ t) cf key with
    | None =>
        mkSavePoint (batch_size_ sp) (keymap_insert cf key seq (new_keys_ sp)) :: sps
    | Some _ => sp :: sps
    end.
Proof.
  intros Hsp. unfold TransactionBaseImpl.TrackKey. rewrite Hsp.
  by destruct (keymap_lookup (tracked_keys_ t) cf key).
Qed.

End SavePoints.

(** Claim C8.  With a save point set, [RollbackToSavePoint] succeeds and
    releases the locks of exactly the keys noted in the innermost save
    point, which are the keys whose ledger entries were added after it was
    set; every other lock is as before.  Those entries leave the ledger, the
    pending batch is cut back to its length at the save point, and one save
    point is popped.  In the scenario (lock "k1", set a save point, lock
    "k2" and "k3") the transaction holds all three locks before the call and
    only "k1" after it. *)
Theorem C8_rollback_to_savepoint_releases_keys_since :
  (forall (t : TransactionImpl) (w : World) (sp : SavePoint) (sps : list SavePoint),
      save_points_ t = sp :: sps ->
      fst (fst (RollbackToSavePoint t w)) = OK
      /\ (forall ck, keymap_mem (new_keys_ sp) ck = true ->
                     lock_table (snd (RollbackToSavePoint t w)) !! ck
                     <> Some (txn_id_ t))
      /\ (forall ck, keymap_mem (new_keys_ sp) ck = false ->
                     lock_table (snd (RollbackToSavePoint t w)) !! ck
                     = lock_table w !! ck)
      /\ (forall cf key,
             keymap_lookup (tracked_keys_ (snd (fst (RollbackToSavePoint t w)))) cf key
             = if keymap_mem (new_keys_ sp) (cf, key)
               then None
               else keymap_lookup (tracked_keys_ t) cf key)
      /\ write_batch_ (snd (fst (RollbackToSavePoint t w)))
         = take (batch_size_ sp) (write_batch_ t)
      /\ save_points_ (snd (fst (RollbackToSavePoint t w))) = sps)
  /\ (forall (t : TransactionImpl) (cf : ColumnFamilyID) (key : string)
             (seq : SequenceNumber) (sp : SavePoint) (sps : list SavePoint),
         save_points_ t = sp :: sps ->
         save_points_ (TransactionBaseImpl.TrackKey cf key seq t)
         = match keymap_lookup (tracked_keys_ t) cf key with
           | None =>
               mkSavePoint (batch_size_ sp)
                           (keymap_insert cf key seq (new_keys_ sp)) :: sps
           | Some _ => sp :: sps
           end)
  /\ (lock_table (snd savepoint_scenario)
      = {[ (0, "k1") := 1; (0, "k2") := 1; (0, "k3") := 1 ]}
      /\ write_batch_ (fst savepoint_scenario)
         = [PutOp 0 "k1" "a"; PutOp 0 "k2" "b"; PutOp 0 "k3" "c"]
      /\ fst (fst (RollbackToSavePoint (fst savepoint_scenario) (snd savepoint_scenario)))
         = OK
      /\ lock_table
           (snd (RollbackToSavePoint (fst savepoint_scenario) (snd savepoint_scenario)))
         = {[ (0, "k1") := 1 ]}
      /\ tracked_keys_
           (snd (fst (RollbackToSavePoint (fst savepoint_scenario)
                                          (snd savepoint_scenario))))
         = {[ 0 := {[ "k1" := 12 ]} ]}
      /\ write_batch_
           (snd (fst (RollbackToSavePoint (fst savepoint_scenario)
                                          (snd savepoint_scenario))))
         = [PutOp 0 "k1" "a"]
      /\ save_points_
           (snd (fst (RollbackToSavePoint (fst savepoint_scenario)
                                          (snd savepoint_scenario))))
         = []).
Proof.
  split; [|split].
  - intros t w sp sps Hsp.
    unfold RollbackToSavePoint, TransactionBaseImpl.GetTrackedKeysSinceSavePoint,
      TransactionBaseImpl.RollbackToSavePoint.
    rewrite Hsp. cbn [fst snd].
    split; [done|].
    split; [intros ck Hck; by apply UnLock_released|].
    split; [intros ck Hck; by apply UnLock_other|].
    split; [intros cf key; apply keymap_erase_all_lookup|].
    done.
  - intros t cf key seq sp sps Hsp. by apply TrackKey_save_points.
  - repeat split; vm_compute; reflexivity.
Qed.

(** ** C10: the constructor and the expiration *)

Section Construction.

Lemma New_fields (txn_options : TransactionOptions) (w : World) :
  txn_id_ (fst (New txn_options w)) = txn_id_counter_ w
  /\ start_time_ (fst (New txn_options w)) = now_micros w
  /\ expiration_time_ (fst (New txn_options w))
     = (if (0 <=? expiration txn_options)%Z
        then to_uint64 (now_micros w + expiration txn_options * 1000)
        else 0%Z)
  /\ exec_status_ (fst (New txn_options w)) = STARTED
  /\ expirable_txns (snd (New txn_options w))
     = (if (0 <? expiration_time_ (fst (New txn_options w)))%Z
        then {[ txn_id_ (fst (New txn_options w)) ]} ∪ expirable_txns w
        else expirable_txns w).
Proof.
  unfold New, GenTxnID.
  destruct (set_snapshot txn_options); cbn;
    repeat split; by destruct (0 <? _)%Z.
Qed.

End Construction.

(** Claim C10, as amended.  Let the clock read a nonzero time at
    construction, and let the deadline [start_time_ + expiration * 1000] fit
    in 64 bits.  A transaction constructed with an expiration of exactly
    zero gets [expiration_time_ = start_time_]; from the moment the clock
    reads the construction time or later, [IsExpired] is true and commit
    fails with [Expired].  [expiration_time_] is zero, the "never expires"
    state, exactly when the expiration option is strictly negative, and
    then [IsExpired] is never true.  The constructor registers the
    transaction as expirable exactly when [expiration_time_ > 0]. *)
Theorem C10_zero_expiration_expires_at_construction :
  forall (txn_options : TransactionOptions) (w : World),
    (0 < now_micros w < 2 ^ 64)%Z ->
    (now_micros w + expiration txn_options * 1000 < 2 ^ 64)%Z ->
    (expiration txn_options = 0%Z ->
     expiration_time_ (fst (New txn_options w)) = start_time_ (fst (New txn_options w))
     /\ start_time_ (fst (New txn_options w)) = now_micros w
     /\ forall (batch : WriteBatch) (w2 : World),
          (start_time_ (fst (New txn_options w)) <= now_micros w2)%Z ->
          IsExpired (fst (New txn_options w)) w2 = true
          /\ DoCommit batch (fst (New txn_options w)) w2
             = (Expired, fst (New txn_options w), w2)
          /\ fst (fst (Commit (fst (New txn_options w)) w2)) = Expired)
    /\ (expiration_time_ (fst (New txn_options w)) = 0%Z
        <-> (expiration txn_options < 0)%Z)
    /\ ((expiration txn_options < 0)%Z ->
        forall w2 : World, IsExpired (fst (New txn_options w)) w2 = false)
    /\ expirable_txns (snd (New txn_options w))
       = (if decide (0 < expiration_time_ (fst (New txn_options w)))%Z
          then {[ txn_id_ (fst (New txn_options w)) ]} ∪ expirable_txns w
          else expirable_txns w).
Proof.
  intros txn_options w Hnow Hfits.
  destruct (New_fields txn_options w) as (Hid & Hstart & Hexp & Hst & Hreg).
  assert (Hpos : (0 <= expiration txn_options)%Z ->
                 expiration_time_ (fst (New txn_options w))
                 = (now_micros w + expiration txn_options * 1000)%Z).
  { intros Hge. rewrite Hexp, (proj2 (Z.leb_le _ _) Hge).
    unfold to_uint64. apply Z.mod_small. lia. }
  assert (Hneg : (expiration txn_options < 0)%Z ->
                 expiration_time_ (fst (New txn_options w)) = 0%Z).
  { intros Hlt. rewrite Hexp. by rewrite (proj2 (Z.leb_gt _ _) Hlt). }
  split; [|split; [|split]].
  - intros Hzero.
    assert (Heq : expiration_time_ (fst (New txn_options w)) = now_micros w)
      by (rewrite Hpos by lia; lia).
    split; [by rewrite Hstart|]. split; [done|].
    intros batch w2 Hlater. rewrite Hstart in Hlater.
    assert (Hrefused : DoCommit batch (fst (New txn_options w)) w2
                       = (Expired, fst (New txn_options w), w2))
      by (intros; apply DoCommit_refused; [lia|left; lia]).
    split; [|split; [exact Hrefused|]].
    + unfold IsExpired. rewrite Heq.
      rewrite (proj2 (Z.ltb_lt _ _) (proj1 Hnow)).
      by rewrite (proj2 (Z.leb_le _ _) Hlater).
    + rewrite Commit_unfold. cbn [fst snd].
      rewrite DoCommit_refused; [done|lia|left; lia].
  - split.
    + intros Hz. destruct (Z.lt_ge_cases (expiration txn_options) 0) as [?|Hge]; [done|].
      rewrite (Hpos Hge) in Hz. lia.
    + exact Hneg.
  - intros Hlt w2. unfold IsExpired. by rewrite (Hneg Hlt).
  - rewrite Hreg.
    destruct (Z.ltb_spec 0 (expiration_time_ (fst (New txn_options w)))) as [H|H].
    + by rewrite decide_True.
    + rewrite decide_False; [done|lia].
Qed.

Lemma C10_zero_expiration_witness :
  (0 < now_micros quiet_world < 2 ^ 64)%Z
  /\ (now_micros quiet_world + expiration zero_expiration * 1000 < 2 ^ 64)%Z
  /\ expiration_time_ (fst (New zero_expiration quiet_world))
     = start_time_ (fst (New zero_expiration quiet_world))
  /\ IsExpired (fst (New zero_expiration quiet_world)) quiet_world = true
  /\ expirable_txns (snd (New zero_expiration quiet_world))
     = (if decide (0 < expiration_time_ (fst (New zero_expiration quiet_world)))%Z
        then {[ txn_id_ (fst (New zero_expiration quiet_world)) ]}
               ∪ expirable_txns quiet_world
        else expirable_txns quiet_world).
Proof.
  assert (H1 : (0 < now_micros quiet_world < 2 ^ 64)%Z) by (split; reflexivity).
  assert (H2 : (now_micros quiet_world + expiration zero_expiration * 1000 < 2 ^ 64)%Z)
    by reflexivity.
  destruct (C10_zero_expiration_expires_at_construction
              zero_expiration quiet_world H1 H2) as (Hzero & _ & _ & Hreg).
  destruct (Hzero eq_refl) as (Heq & Hstart & Hexpired).
  assert (H3 : (start_time_ (fst (New zero_expiration quiet_world))
                <= now_micros quiet_world)%Z)
    by (rewrite Hstart; apply Z.le_refl).
  destruct (Hexpired [] quiet_world H3) as (Hnow & _ & _).
  split; [exact H1|]. split; [exact H2|]. split; [exact Heq|].
  split; [exact Hnow|exact Hreg].
Defined.

(** C10 as the claim states it fails when the clock reads 0 at
    construction: with an expiration of zero, [expiration_time_] is then 0,
    the "never expires" value, although the option is not negative, and the
    transaction is not reported expired at its construction time. *)
Lemma C10_counterexample :
  ~ (forall (txn_options : TransactionOptions) (w : World),
        (0 <= now_micros w < 2 ^ 64)%Z ->
        (expiration txn_options = 0%Z ->
         forall w2 : World,
           (start_time_ (fst (New txn_options w)) <= now_micros w2)%Z ->
           IsExpired (fst (New txn_options w)) w2 = true)
        /\ (expiration_time_ (fst (New txn_options w)) = 0%Z ->
            (expiration txn_options < 0)%Z)).
Proof.
  intros H.
  destruct (H zero_expiration epoch_world) as [Hexpired _]; [split; reflexivity|].
  specialize (Hexpired eq_refl epoch_world (Z.le_refl _)).
  vm_compute in Hexpired. discriminate Hexpired.
Qed.

(** The values at that input, and at a clock so late that the deadline of a
    one-millisecond expiration wraps around to 0. *)
Example epoch_values :
  start_time_ (fst (New zero_expiration epoch_world)) = 0%Z
  /\ expiration_time_ (fst (New zero_expiration epoch_world)) = 0%Z
  /\ IsExpired (fst (New zero_expiration epoch_world)) epoch_world = false
  /\ expirable_txns (snd (New zero_expiration epoch_world)) = ∅
  /\ expiration_time_
       (fst (New (mkTxnOptions false 1%Z (-1)%Z)
                 (set_now_micros (2 ^ 64 - 1000)%Z quiet_world))) = 0%Z.
Proof. repeat split; vm_compute; reflexivity. Qed.

(** The constructed transaction at the witness: id 2, started and expiring
    at 1000, registered as expirable. *)
Example zero_expiration_values :
  txn_id_ (fst (New zero_expiration quiet_world)) = 2
  /\ start_time_ (fst (New zero_expiration quiet_world)) = 1000%Z
  /\ expiration_time_ (fst (New zero_expiration quiet_world)) = 1000%Z
  /\ expirable_txns (snd (New zero_expiration quiet_world)) = {[ 2 ]}.
Proof. repeat split; vm_compute; reflexivity. Qed.

(** ** The invariant between lock table and ledger *)

(** The fifth part of C5 asks for a state in which every lock the table
    reports for the transaction is in the transaction's ledger.  Every event
    keeps that property, so it holds in each state a transaction reaches
    from a state that has it. *)

Section LocksTracked.

Lemma keymap_store_lookup (cf : ColumnFamilyID) (key : string) (seq : SequenceNumber)
      (keys : TransactionKeyMap) (cf' : ColumnFamilyID) (key' : string) :
  keymap_lookup (keymap_store cf key seq keys) cf' key'
  = if decide (cf' = cf /\ key' = key) then Some seq else keymap_lookup keys cf' key'.
Proof.
  unfold keymap_lookup, keymap_store.
  destruct (decide (cf' = cf)) as [->|Hcf].
  - rewrite lookup_insert_eq.
    destruct (decide (key' = key)) as [->|Hkey].
    + rewrite decide_True by done. by rewrite lookup_insert_eq.
    + rewrite decide_False by tauto. rewrite lookup_insert_ne by done.
      destruct (keys !! cf); [done|]. simpl. by rewrite lookup_empty.
  - rewrite decide_False by tauto. by rewrite lookup_insert_ne.
Qed.

Lemma TrackKey_frame (cf : ColumnFamilyID) (key : string) (seq : SequenceNumber)
      (t : TransactionImpl) :
  txn_id_ (TransactionBaseImpl.TrackKey cf key seq t) = txn_id_ t
  /\ tracked_keys_ (TransactionBaseImpl.TrackKey cf key seq t)
     = keymap_store cf key seq (tracked_keys_ t).
Proof.
  unfold TransactionBaseImpl.TrackKey.
  by destruct (keymap_lookup (tracked_keys_ t) cf key), (save_points_ t).
Qed.

(** Recording a key keeps the property when the table changes at most at
    that key. *)
Lemma locks_tracked_TrackKey (cf : ColumnFamilyID) (key : string) (seq : SequenceNumber)
      (t : TransactionImpl) (w w' : World) :
  locks_tracked t w ->
  (forall ck, ck <> (cf, key) -> lock_table w' !! ck = lock_table w !! ck) ->
  locks_tracked (TransactionBaseImpl.TrackKey cf key seq t) w'.
Proof.
  intros Hinv Hsame cf' key' Hheld.
  destruct (TrackKey_frame cf key seq t) as [Hid Hkeys].
  rewrite Hid in Hheld. rewrite Hkeys, keymap_store_lookup.
  destruct (decide (cf' = cf /\ key' = key)) as [_|Hne]; [by eexists|].
  apply Hinv. rewrite <- Hsame; [done|]. intros E. inversion E; subst. tauto.
Qed.

(** A transaction with the same id and ledger has the property in a world
    whose table holds no more locks for it. *)
Lemma locks_tracked_mono (t t' : TransactionImpl) (w w' : World) :
  locks_tracked t w ->
  txn_id_ t' = txn_id_ t ->
  tracked_keys_ t' = tracked_keys_ t ->
  (forall ck, lock_table w' !! ck = Some (txn_id_ t) ->
              lock_table w !! ck = Some (txn_id_ t)) ->
  locks_tracked t' w'.
Proof.
  intros Hinv Hid Hkeys Hsub cf key Hheld.
  rewrite Hid in Hheld. rewrite Hkeys. by apply Hinv, Hsub.
Qed.

Lemma TryLock_keeps_locks_tracked (column_family : ColumnFamilyHandle) (key : string)
      (untracked : bool) (t : TransactionImpl) (w : World) :
  locks_tracked t w ->
  locks_tracked (snd (fst (TryLock column_family key untracked t w)))
                (snd (TryLock column_family key untracked t w)).
Proof.
  intros Hinv.
  destruct (keymap_lookup (tracked_keys_ t) (GetColumnFamilyID column_family) key)
    as [recorded|] eqn:Hrec.
  - (* tracked before: the lock table does not change *)
    assert (Hrest : forall w0 : World,
               lock_table w0 = lock_table w ->
               locks_tracked (TransactionBaseImpl.SetSnapshotIfNeeded t w) w0).
    { intros w0 Hw0. destruct (SetSnapshotIfNeeded_frame t w) as (Hk & _ & Hid & _).
      apply (locks_tracked_mono t _ w w0); try done. by rewrite Hw0. }
    assert (Hplain : untracked = true
                     \/ snapshot_ (TransactionBaseImpl.SetSnapshotIfNeeded t w) = None ->
                     locks_tracked (snd (fst (TryLock column_family key untracked t w)))
                                   (snd (TryLock column_family key untracked t w))).
    { intros Hcase. rewrite (TryLock_tracked_unvalidated _ _ _ _ _ _ Hrec Hcase).
      cbn [fst snd]. apply (locks_tracked_TrackKey _ _ _ _ w); [by apply Hrest|done]. }
    destruct untracked; [apply Hplain; by left|].
    destruct (snapshot_ (TransactionBaseImpl.SetSnapshotIfNeeded t w)) as [seq|] eqn:Hsnap;
      [|apply Hplain; by right].
    rewrite (TryLock_tracked_validated _ _ _ _ _ _ Hrec Hsnap).
    pose proof (ValidateSnapshot_frame seq column_family key recorded
                  kMaxSequenceNumber w) as [Htable _].
    destruct (ValidateSnapshot seq column_family key recorded kMaxSequenceNumber w)
      as [[s1 new_seqno] w'].
    cbn [snd] in Htable.
    destruct (ok s1); cbn [fst snd].
    + apply (locks_tracked_TrackKey _ _ _ _ w'); [by apply Hrest|done].
    + by apply Hrest.
  - (* not tracked before *)
    rewrite (TryLock_fresh _ _ _ _ _ Hrec). cbv zeta.
    pose proof (TryLock_table_cases (txn_id_ t) (GetColumnFamilyID column_family)
                  key w) as Hacq.
    destruct (TransactionDBImpl.TryLock (txn_id_ t) (GetColumnFamilyID column_family)
                key w) as [s w1].
    cbn [fst snd] in Hacq.
    destruct (SetSnapshotIfNeeded_frame t w1) as (Hk & _ & Hid & _).
    assert (Hrest : forall w0 : World,
               (forall ck, lock_table w0 !! ck = Some (txn_id_ t) ->
                           lock_table w !! ck = Some (txn_id_ t)) ->
               locks_tracked (TransactionBaseImpl.SetSnapshotIfNeeded t w1) w0)
      by (intros w0 Hw0; by apply (locks_tracked_mono t _ w w0)).
    destruct Hacq as [(-> & Hw1 & Hbefore)|(-> & Hw1 & _)]; cbn [ok].
    + (* acquired *)
      assert (Hgrown : forall w0 : World,
                 lock_table w0 = lock_table w1 ->
                 locks_tracked
                   (TransactionBaseImpl.TrackKey (GetColumnFamilyID column_family) key
                      (latest_sequence_number w1)
                      (TransactionBaseImpl.SetSnapshotIfNeeded t w1)) w0
                 /\ forall seq,
                     locks_tracked
                       (TransactionBaseImpl.TrackKey (GetColumnFamilyID column_family)
                          key seq (TransactionBaseImpl.SetSnapshotIfNeeded t w1)) w0).
      { intros w0 Hw0.
        assert (forall seq,
                   locks_tracked
                     (TransactionBaseImpl.TrackKey (GetColumnFamilyID column_family)
                        key seq (TransactionBaseImpl.SetSnapshotIfNeeded t w1)) w0)
          as Hall; [|by split].
        intros seq cf' key' Hheld.
        destruct (TrackKey_frame (GetColumnFamilyID column_family) key seq
                    (TransactionBaseImpl.SetSnapshotIfNeeded t w1)) as [Hid' Hkeys'].
        rewrite Hid', Hid in Hheld. rewrite Hkeys', keymap_store_lookup, Hk.
        destruct (decide (cf' = GetColumnFamilyID column_family /\ key' = key))
          as [_|Hne]; [by eexists|].
        apply Hinv. rewrite Hw0, Hw1, lookup_insert_ne in Hheld; [done|].
        intros E. inversion E; subst. tauto. }
      destruct untracked; [by apply Hgrown|].
      destruct (snapshot_ (TransactionBaseImpl.SetSnapshotIfNeeded t w1)) as [seq|];
        [|by apply Hgrown].
      pose proof (ValidateSnapshot_frame seq column_family key kMaxSequenceNumber
                    kMaxSequenceNumber w1) as [Htable _].
      destruct (ValidateSnapshot seq column_family key kMaxSequenceNumber
                  kMaxSequenceNumber w1) as [[s1 new_seqno] w'].
      cbn [snd] in Htable.
      destruct (ok s1); cbn [fst snd]; [by apply Hgrown|].
      apply Hrest. intros ck. rewrite UnLockKey_table, Htable, Hw1.
      rewrite lookup_insert_eq, decide_True by done. rewrite delete_insert_eq.
      destruct (decide (ck = (GetColumnFamilyID column_family, key))) as [->|Hne].
      * by rewrite lookup_delete_eq.
      * by rewrite lookup_delete_ne.
    + (* refused *)
      cbn [fst snd]. apply Hrest. intros ck. by rewrite Hw1.
Qed.

End LocksTracked.

Section LocksTrackedEvents.

Lemma keymap_mem_is_Some (keys : TransactionKeyMap) (cf : ColumnFamilyID) (key : string) :
  is_Some (keymap_lookup keys cf key) <-> keymap_mem keys (cf, key) = true.
Proof.
  unfold keymap_mem. cbn [fst snd].
  destruct (keymap_lookup keys cf key) as [seq|].
  - split; [done|]. intros _. by exists seq.
  - split; [by intros [x Hx]|done].
Qed.

(** After [UnLock] of the whole ledger the transaction holds nothing. *)
Lemma Clear_keeps_locks_tracked (t : TransactionImpl) (w : World) :
  locks_tracked t w ->
  locks_tracked (fst (Clear t w)) (snd (Clear t w)).
Proof.
  intros Hinv cf key Hheld. unfold Clear in Hheld. cbn [fst snd] in Hheld.
  change (txn_id_ (TransactionBaseImpl.Clear t)) with (txn_id_ t) in Hheld.
  rewrite UnLock_lookup in Hheld.
  destruct (lock_table w !! (cf, key)) as [holder|] eqn:Hw; [|done].
  destruct (N.eqb_spec holder (txn_id_ t)) as [->|Hne]; cbn in Hheld.
  - apply Hinv, keymap_mem_is_Some in Hw. by rewrite Hw in Hheld.
  - congruence.
Qed.

Lemma Commit_keeps_locks_tracked (t : TransactionImpl) (w : World) :
  locks_tracked t w ->
  locks_tracked (snd (fst (Commit t w))) (snd (Commit t w)).
Proof.
  intros Hinv.
  destruct (DoCommit_frame (write_batch_ t) t w) as (Hkeys & Hid & Hlocks).
  assert (Hmid : locks_tracked (snd (fst (DoCommit (write_batch_ t) t w)))
                               (snd (DoCommit (write_batch_ t) t w)))
    by (apply (locks_tracked_mono t _ w _); try done; by rewrite Hlocks).
  apply Clear_keeps_locks_tracked in Hmid.
  unfold Commit.
  destruct (DoCommit (write_batch_ t) t w) as [[s t1] w1]. cbn [fst snd] in Hmid.
  by destruct (Clear t1 w1) as [t2 w2].
Qed.

Lemma RollbackToSavePoint_keeps_locks_tracked (t : TransactionImpl) (w : World) :
  locks_tracked t w ->
  locks_tracked (snd (fst (RollbackToSavePoint t w))) (snd (RollbackToSavePoint t w)).
Proof.
  intros Hinv.
  unfold RollbackToSavePoint, TransactionBaseImpl.GetTrackedKeysSinceSavePoint,
    TransactionBaseImpl.RollbackToSavePoint.
  destruct (save_points_ t) as [|sp sps]; [done|]. cbn [fst snd].
  intros cf key Hheld.
  change (txn_id_ (set_write_batch _ _)) with (txn_id_ t) in Hheld.
  change (tracked_keys_ (set_write_batch _ _))
    with (keymap_erase_all (new_keys_ sp) (tracked_keys_ t)).
  rewrite keymap_erase_all_lookup.
  rewrite UnLock_lookup in Hheld.
  destruct (lock_table w !! (cf, key)) as [holder|] eqn:Hw; [|done].
  destruct (N.eqb_spec holder (txn_id_ t)) as [->|Hne]; cbn in Hheld.
  - destruct (keymap_mem (new_keys_ sp) (cf, key)); [done|]. by apply Hinv.
  - congruence.
Qed.

(** [LockBatch] gives the transaction no lock outside [keys_to_unlock]. *)
Lemma LockBatch_holdings (batch : WriteBatch) (t : TransactionImpl) (w : World)
      (ck : ColumnFamilyID * string) :
  lock_table (snd (LockBatch batch ∅ t w)) !! ck = Some (txn_id_ t) ->
  lock_table w !! ck = Some (txn_id_ t)
  \/ (ok (fst (fst (LockBatch batch ∅ t w))) = true
      /\ keymap_mem (snd (fst (LockBatch batch ∅ t w))) ck = true).
Proof.
  unfold LockBatch. rewrite lock_all_keys_flat.
  destruct (lock_in_order_spec (txn_id_ t) (visit_order (Handler.Iterate batch)) ∅ w)
    as (done_ & _ & Hmem & Htab & _ & _).
  destruct (lock_in_order (txn_id_ t) (visit_order (Handler.Iterate batch)) ∅ w)
    as [[s ku] w1].
  cbn [fst snd] in Hmem, Htab.
  destruct (ok s) eqn:Hs; cbn [fst snd]; rewrite ?Hs.
  - rewrite Htab. destruct (decide (ck ∈ done_)) as [Hin|Hnin]; [|by left].
    intros _. right. split; [done|]. apply Hmem. by right.
  - rewrite UnLock_lookup, Htab.
    destruct (decide (ck ∈ done_)) as [Hin|Hnin].
    + rewrite N.eqb_refl. rewrite (proj2 (Hmem ck) (or_intror Hin)). done.
    + destruct (lock_table w !! ck) as [holder|]; [|done].
      destruct (N.eqb holder (txn_id_ t) && keymap_mem ku ck); [done|by left].
Qed.

Lemma CommitBatch_keeps_locks_tracked (batch : WriteBatch) (t : TransactionImpl)
      (w : World) :
  locks_tracked t w ->
  locks_tracked (snd (fst (CommitBatch batch t w))) (snd (CommitBatch batch t w)).
Proof.
  intros Hinv. unfold CommitBatch.
  pose proof (LockBatch_holdings batch t w) as Hhold.
  destruct (LockBatch batch ∅ t w) as [[s ku] w1]. cbn [fst snd] in Hhold.
  destruct (ok s) eqn:Hs.
  - destruct (DoCommit_frame batch t w1) as (Hkeys & Hid & Hlocks).
    destruct (DoCommit batch t w1) as [[s1 t1] w2]. cbn [fst snd] in *.
    apply (locks_tracked_mono t _ w _); try done.
    intros ck. rewrite UnLock_lookup, Hlocks.
    destruct (lock_table w1 !! ck) as [holder|] eqn:Hw1; [|done].
    destruct (N.eqb_spec holder (txn_id_ t)) as [->|Hne]; cbn.
    + destruct (keymap_mem ku ck) eqn:Hmem; [done|]. intros _.
      destruct (Hhold ck Hw1) as [?|[_ ?]]; [done|congruence].
    + congruence.
  - cbn [fst snd]. apply (locks_tracked_mono t _ w _); try done.
    intros ck Hck. destruct (Hhold ck Hck) as [?|[? _]]; [done|congruence].
Qed.

(** Every event keeps the property. *)
Lemma happen_keeps_locks_tracked (e : Event) (t : TransactionImpl) (w : World) :
  locks_tracked t w ->
  locks_tracked (fst (happen e t w)) (snd (happen e t w)).
Proof.
  intros Hinv. destruct e as [|batch| | |cfh key untracked| |now]; cbn [happen].
  - pose proof (Commit_keeps_locks_tracked t w Hinv) as H.
    by destruct (Commit t w) as [[s t1] w1].
  - pose proof (CommitBatch_keeps_locks_tracked batch t w Hinv) as H.
    by destruct (CommitBatch batch t w) as [[s t1] w1].
  - by apply Clear_keeps_locks_tracked.
  - pose proof (RollbackToSavePoint_keeps_locks_tracked t w Hinv) as H.
    by destruct (RollbackToSavePoint t w) as [[s t1] w1].
  - pose proof (TryLock_keeps_locks_tracked cfh key untracked t w Hinv) as H.
    by destruct (TryLock cfh key untracked t w) as [[s t1] w1].
  - unfold TryStealingLocks.
    destruct (atomic_compare_exchange_strong (exec_status_ t) STARTED LOCKS_STOLEN)
      as [stolen status].
    cbn [fst snd]. by apply (locks_tracked_mono t _ w w).
  - cbn [fst snd]. by apply (locks_tracked_mono t _ w _).
Qed.

(** The property holds in every state reached from a state that has it. *)
Lemma locks_tracked_invariant (es : list Event) (t : TransactionImpl) (w : World) :
  locks_tracked t w ->
  locks_tracked (fst (happen_all es t w)) (snd (happen_all es t w)).
Proof.
  revert t w. induction es as [|e es IH]; intros t w Hinv; [done|].
  cbn [happen_all]. by apply IH, happen_keeps_locks_tracked.
Qed.

(** A newly constructed transaction has it when the lock table holds no
    lock under its id. *)
Lemma locks_tracked_initially (txn_options : TransactionOptions) (w : World) :
  (forall ck, lock_table w !! ck <> Some (txn_id_counter_ w)) ->
  locks_tracked (fst (New txn_options w)) (snd (New txn_options w)).
Proof.
  intros Hnone cf key Hheld. exfalso. apply (Hnone (cf, key)).
  destruct (New_fields txn_options w) as (Hid & _).
  rewrite Hid in Hheld. rewrite <- Hheld.
  unfold New, GenTxnID.
  destruct (set_snapshot txn_options); cbn; by destruct (0 <? _)%Z.
Qed.

End LocksTrackedEvents.


(** * Further properties of the source *)

(** ** What the calls leave alone *)

Section Frames.

Lemma store_and_clock_kept_refl (w : World) : store_and_clock_kept w w.
Proof. by repeat split. Qed.

Lemma store_and_clock_kept_trans (w1 w2 w3 : World) :
  store_and_clock_kept w1 w2 -> store_and_clock_kept w2 w3 ->
  store_and_clock_kept w1 w3.
Proof.
  intros (A1 & A2 & A3 & A4 & A5 & A6 & A7) (B1 & B2 & B3 & B4 & B5 & B6 & B7).
  repeat split; congruence.
Qed.

Lemma same_identity_refl (t : TransactionImpl) : same_identity t t.
Proof. by repeat split. Qed.

Lemma same_identity_trans (t1 t2 t3 : TransactionImpl) :
  same_identity t1 t2 -> same_identity t2 t3 -> same_identity t1 t3.
Proof.
  intros (A1 & A2 & A3 & A4) (B1 & B2 & B3 & B4). repeat split; congruence.
Qed.

Lemma table_TryLock_kept (txn : TransactionID) (cf : ColumnFamilyID) (key : string)
      (w : World) :
  store_and_clock_kept w (snd (TransactionDBImpl.TryLock txn cf key w))
  /\ history_queries (snd (TransactionDBImpl.TryLock txn cf key w)) = history_queries w.
Proof.
  unfold TransactionDBImpl.TryLock.
  destruct (lock_table w !! (cf, key)) as [holder|]; [|by repeat split].
  destruct (N.eqb holder txn); by repeat split.
Qed.

Lemma table_UnLockKey_kept (txn : TransactionID) (cf : ColumnFamilyID) (key : string)
      (w : World) :
  store_and_clock_kept w (TransactionDBImpl.UnLockKey txn cf key w)
  /\ history_queries (TransactionDBImpl.UnLockKey txn cf key w) = history_queries w
  /\ acquire_calls (TransactionDBImpl.UnLockKey txn cf key w) = acquire_calls w.
Proof.
  unfold TransactionDBImpl.UnLockKey.
  destruct (lock_table w !! (cf, key)) as [holder|]; [|by repeat split].
  destruct (N.eqb holder txn); by repeat split.
Qed.

Lemma table_UnLock_kept (txn : TransactionID) (keys : TransactionKeyMap) (w : World) :
  store_and_clock_kept w (TransactionDBImpl.UnLock txn keys w)
  /\ history_queries (TransactionDBImpl.UnLock txn keys w) = history_queries w.
Proof. by repeat split. Qed.

Lemma ValidateSnapshot_kept (seq : SequenceNumber) (column_family : ColumnFamilyHandle)
      (key : string) (prev_seqno new_seqno : SequenceNumber) (w : World) :
  store_and_clock_kept w
    (snd (ValidateSnapshot seq column_family key prev_seqno new_seqno w)).
Proof.
  unfold ValidateSnapshot, TransactionUtil.CheckKeyForConflicts.
  destruct (N.leb prev_seqno seq); [apply store_and_clock_kept_refl|].
  destruct (last_write w !! (GetColumnFamilyID column_family, key)) as [s|];
    [|by repeat split].
  destruct (N.ltb seq s); by repeat split.
Qed.

Lemma TrackKey_identity (cf : ColumnFamilyID) (key : string) (seq : SequenceNumber)
      (t : TransactionImpl) :
  same_identity t (TransactionBaseImpl.TrackKey cf key seq t)
  /\ snapshot_ (TransactionBaseImpl.TrackKey cf key seq t) = snapshot_ t
  /\ snapshot_needed_ (TransactionBaseImpl.TrackKey cf key seq t) = snapshot_needed_ t
  /\ write_batch_ (TransactionBaseImpl.TrackKey cf key seq t) = write_batch_ t.
Proof.
  unfold TransactionBaseImpl.TrackKey.
  by destruct (keymap_lookup (tracked_keys_ t) cf key), (save_points_ t).
Qed.

Lemma SetSnapshotIfNeeded_identity (t : TransactionImpl) (w : World) :
  same_identity t (TransactionBaseImpl.SetSnapshotIfNeeded t w).
Proof.
  unfold TransactionBaseImpl.SetSnapshotIfNeeded. by destruct (snapshot_needed_ t).
Qed.

(** The deferred snapshot depends on the world through the latest sequence
    number only. *)
Lemma SetSnapshotIfNeeded_world (t : TransactionImpl) (w w' : World) :
  latest_sequence_number w' = latest_sequence_number w ->
  TransactionBaseImpl.SetSnapshotIfNeeded t w'
  = TransactionBaseImpl.SetSnapshotIfNeeded t w.
Proof.
  intros H. unfold TransactionBaseImpl.SetSnapshotIfNeeded,
    TransactionBaseImpl.SetSnapshot. by rewrite H.
Qed.

End Frames.

(** ** The outcomes of [TryLock] *)

Section TryLockOutcomes.

(** The five ways through [TryLock]: a tracked key without and with
    validation, and a key that is not tracked, refused by the lock table,
    acquired without validation, or acquired and validated. *)
Lemma TryLock_outcomes (column_family : ColumnFamilyHandle) (key : string)
      (untracked : bool) (t : TransactionImpl) (w : World) :
  let cf := GetColumnFamilyID column_family in
  let t1 := TransactionBaseImpl.SetSnapshotIfNeeded t w in
  let w1 := snd (TransactionDBImpl.TryLock (txn_id_ t) cf key w) in
  (exists recorded,
      keymap_lookup (tracked_keys_ t) cf key = Some recorded
      /\ (untracked = true \/ snapshot_ t1 = None)
      /\ TryLock column_family key untracked t w
         = (OK,
            TransactionBaseImpl.TrackKey cf key
              (if N.eqb recorded kMaxSequenceNumber
               then latest_sequence_number w else recorded) t1,
            w))
  \/ (exists recorded seq,
         keymap_lookup (tracked_keys_ t) cf key = Some recorded
         /\ untracked = false /\ snapshot_ t1 = Some seq
         /\ TryLock column_family key untracked t w
            = (fst (fst (ValidateSnapshot seq column_family key recorded
                           kMaxSequenceNumber w)),
               (if ok (fst (fst (ValidateSnapshot seq column_family key recorded
                                   kMaxSequenceNumber w)))
                then TransactionBaseImpl.TrackKey cf key
                       (snd (fst (ValidateSnapshot seq column_family key recorded
                                    kMaxSequenceNumber w))) t1
                else t1),
               snd (ValidateSnapshot seq column_family key recorded
                      kMaxSequenceNumber w)))
  \/ (keymap_lookup (tracked_keys_ t) cf key = None
      /\ ~ grantable (txn_id_ t) w (cf, key)
      /\ lock_table w1 = lock_table w
      /\ TryLock column_family key untracked t w = (LockTimeout, t1, w1))
  \/ (keymap_lookup (tracked_keys_ t) cf key = None
      /\ grantable (txn_id_ t) w (cf, key)
      /\ lock_table w1 = <[(cf, key) := txn_id_ t]> (lock_table w)
      /\ (untracked = true \/ snapshot_ t1 = None)
      /\ TryLock column_family key untracked t w
         = (OK, TransactionBaseImpl.TrackKey cf key (latest_sequence_number w) t1, w1))
  \/ (exists seq,
         keymap_lookup (tracked_keys_ t) cf key = None
         /\ grantable (txn_id_ t) w (cf, key)
         /\ lock_table w1 = <[(cf, key) := txn_id_ t]> (lock_table w)
         /\ untracked = false /\ snapshot_ t1 = Some seq
         /\ TryLock column_family key untracked t w
            = (fst (fst (ValidateSnapshot seq column_family key kMaxSequenceNumber
                           kMaxSequenceNumber w1)),
               (if ok (fst (fst (ValidateSnapshot seq column_family key
                                   kMaxSequenceNumber kMaxSequenceNumber w1)))
                then TransactionBaseImpl.TrackKey cf key
                       (snd (fst (ValidateSnapshot seq column_family key
                                    kMaxSequenceNumber kMaxSequenceNumber w1))) t1
                else t1),
               (if ok (fst (fst (ValidateSnapshot seq column_family key
                                   kMaxSequenceNumber kMaxSequenceNumber w1)))
                then snd (ValidateSnapshot seq column_family key
                            kMaxSequenceNumber kMaxSequenceNumber w1)
                else TransactionDBImpl.UnLockKey (txn_id_ t) cf key
                       (snd (ValidateSnapshot seq column_family key
                               kMaxSequenceNumber kMaxSequenceNumber w1))))).
Proof.
  intros cf t1 w1. subst cf t1 w1.
  destruct (keymap_lookup (tracked_keys_ t) (GetColumnFamilyID column_family) key)
    as [recorded|] eqn:Hrec.
  - destruct untracked.
    + left. exists recorded. split; [done|]. split; [by left|].
      apply TryLock_tracked_unvalidated; [done|by left].
    + destruct (snapshot_ (TransactionBaseImpl.SetSnapshotIfNeeded t w)) as [seq|] eqn:Hsnap.
      * right; left. exists recorded, seq. repeat (split; [done|]).
        rewrite (TryLock_tracked_validated _ _ _ _ _ _ Hrec Hsnap).
        destruct (ValidateSnapshot seq column_family key recorded kMaxSequenceNumber w)
          as [[s1 new_seqno] w'].
        cbn [fst snd]. by destruct (ok s1).
      * left. exists recorded. split; [done|]. split; [by right|].
        apply TryLock_tracked_unvalidated; [done|by right].
  - rewrite (TryLock_fresh _ _ _ _ _ Hrec). cbv zeta.
    pose proof (TryLock_table_cases (txn_id_ t) (GetColumnFamilyID column_family)
                  key w) as Hacq.
    destruct (table_TryLock_kept (txn_id_ t) (GetColumnFamilyID column_family) key w)
      as [(_ & _ & _ & Hlatest & _) _].
    destruct (TransactionDBImpl.TryLock (txn_id_ t) (GetColumnFamilyID column_family)
                key w) as [s w1].
    cbn [fst snd] in Hacq, Hlatest |- *.
    rewrite (SetSnapshotIfNeeded_world t w w1 Hlatest).
    destruct Hacq as [(-> & Hw1 & Hbefore)|(-> & Hw1 & holder & Hheld & Hother)];
      cbn [ok].
    + destruct untracked.
      * right; right; right; left. repeat (split; [done|]). split; [by left|].
        by rewrite Hlatest.
      * destruct (snapshot_ (TransactionBaseImpl.SetSnapshotIfNeeded t w)) as [seq|] eqn:Hsnap.
        -- right; right; right; right. exists seq. repeat (split; [done|]).
           destruct (ValidateSnapshot seq column_family key kMaxSequenceNumber
                       kMaxSequenceNumber w1) as [[s1 new_seqno] w'].
           cbn [fst snd]. by destruct (ok s1).
        -- right; right; right; left. repeat (split; [done|]). split; [by right|].
           by rewrite Hlatest.
    + right; right; left. split; [done|]. split; [|done].
      unfold grantable. rewrite Hheld. intros [?|?]; congruence.
Qed.

End TryLockOutcomes.

(** ** [TryLock]: what it touches, what it records *)

Section TryLockEffects.

(** The transaction after [TryLock] is the transaction after the deferred
    snapshot, with or without one [TrackKey] of the key. *)
Lemma TryLock_txn_cases (column_family : ColumnFamilyHandle) (key : string)
      (untracked : bool) (t : TransactionImpl) (w : World) :
  snd (fst (TryLock column_family key untracked t w))
  = TransactionBaseImpl.SetSnapshotIfNeeded t w
  \/ exists seq,
      snd (fst (TryLock column_family key untracked t w))
      = TransactionBaseImpl.TrackKey (GetColumnFamilyID column_family) key seq
          (TransactionBaseImpl.SetSnapshotIfNeeded t w).
Proof.
  destruct (TryLock_outcomes column_family key untracked t w)
    as [(r & _ & _ & ->)|[(r & seq & _ & _ & _ & ->)|[(_ & _ & _ & ->)
       |[(_ & _ & _ & _ & ->)|(seq & _ & _ & _ & _ & _ & ->)]]]]; cbn [fst snd].
  - right. by eexists.
  - destruct (ok _); [right; by eexists|by left].
  - by left.
  - right. by eexists.
  - destruct (ok _); [right; by eexists|by left].
Qed.

(** The world after [TryLock]: the store and the clock are kept, and the
    lock table changes at the key at most. *)
Lemma TryLock_world_frame (column_family : ColumnFamilyHandle) (key : string)
      (untracked : bool) (t : TransactionImpl) (w : World) :
  store_and_clock_kept w (snd (TryLock column_family key untracked t w))
  /\ forall ck, ck <> (GetColumnFamilyID column_family, key) ->
                lock_table (snd (TryLock column_family key untracked t w)) !! ck
                = lock_table w !! ck.
Proof.
  assert (Hval : forall seq prev w0,
             store_and_clock_kept w w0 ->
             (forall ck, ck <> (GetColumnFamilyID column_family, key) ->
                         lock_table w0 !! ck = lock_table w !! ck) ->
             let w' := snd (ValidateSnapshot seq column_family key prev
                              kMaxSequenceNumber w0) in
             (store_and_clock_kept w w'
              /\ forall ck, ck <> (GetColumnFamilyID column_family, key) ->
                            lock_table w' !! ck = lock_table w !! ck)
             /\ (store_and_clock_kept w
                   (TransactionDBImpl.UnLockKey (txn_id_ t)
                      (GetColumnFamilyID column_family) key w')
                 /\ forall ck, ck <> (GetColumnFamilyID column_family, key) ->
                               lock_table
                                 (TransactionDBImpl.UnLockKey (txn_id_ t)
                                    (GetColumnFamilyID column_family) key w') !! ck
                               = lock_table w !! ck)).
  { intros seq prev w0 Hk Ht w'.
    pose proof (ValidateSnapshot_kept seq column_family key prev kMaxSequenceNumber w0)
      as Hk'.
    pose proof (ValidateSnapshot_frame seq column_family key prev kMaxSequenceNumber w0)
      as [Ht' _].
    fold w' in Hk', Ht'.
    assert (store_and_clock_kept w w') as Hkw
        by (eapply store_and_clock_kept_trans; eauto).
    split; [split; [done|intros ck Hck; rewrite Ht'; auto]|].
    split.
    - eapply store_and_clock_kept_trans; [exact Hkw|].
      apply table_UnLockKey_kept.
    - intros ck Hck. rewrite UnLockKey_table. case_decide.
      + rewrite lookup_delete_ne by done. rewrite Ht'. auto.
      + rewrite Ht'. auto. }
  pose proof (table_TryLock_kept (txn_id_ t) (GetColumnFamilyID column_family) key w)
    as [Hk1 _].
  assert (Ht1 : forall ck, ck <> (GetColumnFamilyID column_family, key) ->
                lock_table
                  (snd (TransactionDBImpl.TryLock (txn_id_ t)
                          (GetColumnFamilyID column_family) key w)) !! ck
                = lock_table w !! ck).
  { intros ck Hck.
    destruct (TryLock_table_cases (txn_id_ t) (GetColumnFamilyID column_family) key w)
      as [(_ & -> & _)|(_ & -> & _)]; [by rewrite lookup_insert_ne|done]. }
  destruct (TryLock_outcomes column_family key untracked t w)
    as [(r & _ & _ & ->)|[(r & seq & _ & _ & _ & ->)|[(_ & _ & _ & ->)
       |[(_ & _ & _ & _ & ->)|(seq & _ & _ & _ & _ & _ & ->)]]]]; cbn [fst snd].
  - split; [apply store_and_clock_kept_refl|done].
  - apply (Hval seq r w); [apply store_and_clock_kept_refl|done].
  - done.
  - done.
  - destruct (Hval seq kMaxSequenceNumber _ Hk1 Ht1) as [Hok Hfail].
    by destruct (ok _).
Qed.

Lemma TrackKey_other_keys (cf : ColumnFamilyID) (key : string) (seq : SequenceNumber)
      (t : TransactionImpl) (cf' : ColumnFamilyID) (key' : string) :
  (cf', key') <> (cf, key) ->
  keymap_lookup (tracked_keys_ (TransactionBaseImpl.TrackKey cf key seq t)) cf' key'
  = keymap_lookup (tracked_keys_ t) cf' key'.
Proof.
  intros Hne. destruct (TrackKey_frame cf key seq t) as [_ ->].
  rewrite keymap_store_lookup. rewrite decide_False; [done|].
  intros [-> ->]. done.
Qed.

End TryLockEffects.

(** Property X1.  In every outcome, [TryLock] on a key leaves the ledger
    entries of all other keys and the lock-table entries of all other keys
    as they were; it never writes to the store, never moves the clock, and
    changes neither the pending batch, the execution status, nor the
    members fixed at construction. *)
Theorem X1_try_lock_touches_only_its_key :
  forall (column_family : ColumnFamilyHandle) (key : string) (untracked : bool)
         (t : TransactionImpl) (w : World),
    (forall cf' key',
        (cf', key') <> (GetColumnFamilyID column_family, key) ->
        keymap_lookup
          (tracked_keys_ (snd (fst (TryLock column_family key untracked t w)))) cf' key'
        = keymap_lookup (tracked_keys_ t) cf' key')
    /\ (forall ck, ck <> (GetColumnFamilyID column_family, key) ->
                   lock_table (snd (TryLock column_family key untracked t w)) !! ck
                   = lock_table w !! ck)
    /\ store_and_clock_kept w (snd (TryLock column_family key untracked t w))
    /\ same_identity t (snd (fst (TryLock column_family key untracked t w)))
    /\ write_batch_ (snd (fst (TryLock column_family key untracked t w)))
       = write_batch_ t
    /\ exec_status_ (snd (fst (TryLock column_family key untracked t w)))
       = exec_status_ t.
Proof.
  intros column_family key untracked t w.
  destruct (TryLock_world_frame column_family key untracked t w) as [Hkept Htable].
  destruct (SetSnapshotIfNeeded_frame t w) as (Hkeys & _ & _ & Hbatch).
  pose proof (SetSnapshotIfNeeded_identity t w) as Hid.
  split; [|split; [done|split; [done|split; [|split; [|apply TryLock_status]]]]].
  - intros cf' key' Hne.
    destruct (TryLock_txn_cases column_family key untracked t w) as [->|[seq ->]].
    + by rewrite Hkeys.
    + rewrite TrackKey_other_keys by done. by rewrite Hkeys.
  - destruct (TryLock_txn_cases column_family key untracked t w) as [->|[seq ->]];
      [done|].
    eapply same_identity_trans; [exact Hid|]. apply TrackKey_identity.
  - destruct (TryLock_txn_cases column_family key untracked t w) as [->|[seq ->]];
      [done|].
    destruct (TrackKey_identity (GetColumnFamilyID column_family) key seq
                (TransactionBaseImpl.SetSnapshotIfNeeded t w)) as (_ & _ & _ & ->).
    done.
Qed.

(** The deferred snapshot leaves the transaction without a snapshot in
    one world exactly when it does in another. *)
Lemma no_snapshot_any_world (t : TransactionImpl) (w w' : World) :
  snapshot_ (TransactionBaseImpl.SetSnapshotIfNeeded t w) = None ->
  snapshot_ (TransactionBaseImpl.SetSnapshotIfNeeded t w') = None.
Proof.
  unfold TransactionBaseImpl.SetSnapshotIfNeeded. by destruct (snapshot_needed_ t).
Qed.

(** Property X2.  When [TryLock] does not validate (the caller passed
    [untracked], or the transaction has no snapshot after the deferred
    one is taken), it adds nothing of its own to what the lock table
    answers.  For a key in the ledger it returns [OK] without a call of the
    lock table or of the write history, and records the number the ledger
    held (the store's latest sequence number if that was the sentinel).
    For a key that is not in the ledger the status is the answer of the one
    acquisition and the world is the one the acquisition left; if the key
    was granted it is recorded at the store's latest sequence number, if
    not the ledger is as it was. *)
Theorem X2_try_lock_without_validation :
  forall (column_family : ColumnFamilyHandle) (key : string) (untracked : bool)
         (t : TransactionImpl) (w : World),
    untracked = true
    \/ snapshot_ (TransactionBaseImpl.SetSnapshotIfNeeded t w) = None ->
    let cf := GetColumnFamilyID column_family in
    let acquired := TransactionDBImpl.TryLock (txn_id_ t) cf key w in
    let r := TryLock column_family key untracked t w in
    (forall recorded,
        keymap_lookup (tracked_keys_ t) cf key = Some recorded ->
        fst (fst r) = OK
        /\ snd r = w
        /\ keymap_lookup (tracked_keys_ (snd (fst r))) cf key
           = Some (if N.eqb recorded kMaxSequenceNumber
                   then latest_sequence_number w else recorded))
    /\ (keymap_lookup (tracked_keys_ t) cf key = None ->
        fst (fst r) = fst acquired
        /\ snd r = snd acquired
        /\ (ok (fst acquired) = true ->
            keymap_lookup (tracked_keys_ (snd (fst r))) cf key
            = Some (latest_sequence_number (snd acquired)))
        /\ (ok (fst acquired) = false ->
            tracked_keys_ (snd (fst r)) = tracked_keys_ t)).
Proof.
  intros column_family key untracked t w Hmode cf acquired r. subst cf acquired r.
  split.
  - intros recorded Hin.
    rewrite (TryLock_tracked_unvalidated _ _ _ _ _ _ Hin Hmode). cbn [fst snd].
    split; [done|]. split; [done|]. apply TrackKey_lookup.
  - intros Hnone. rewrite (TryLock_fresh _ _ _ _ _ Hnone). cbv zeta.
    destruct (TransactionDBImpl.TryLock (txn_id_ t) (GetColumnFamilyID column_family)
                key w) as [s w1].
    cbn [fst snd].
    assert (match untracked,
                  snapshot_ (TransactionBaseImpl.SetSnapshotIfNeeded t w1) with
            | false, Some _ => False
            | _, _ => True
            end) as Hbranch.
    { destruct Hmode as [->|Hs]; [done|].
      rewrite (no_snapshot_any_world t w w1 Hs). by destruct untracked. }
    destruct (SetSnapshotIfNeeded_frame t w1) as (Hkeys & _).
    destruct (ok s) eqn:Hok.
    + destruct untracked,
        (snapshot_ (TransactionBaseImpl.SetSnapshotIfNeeded t w1)); try done;
        cbn [fst snd]; (split; [done|]); (split; [done|]);
        (split; [intros _; apply TrackKey_lookup|intros H; discriminate H]).
    + cbn [fst snd]. split; [done|]. split; [done|].
      split; [intros H; discriminate H|done].
Qed.

Lemma X2_try_lock_without_validation_witness :
  let r := TryLock None "a" true (fst (New (mkTxnOptions false (-1) (-1)) quiet_world))
                   (snd (New (mkTxnOptions false (-1) (-1)) quiet_world)) in
  fst (fst r) = OK
  /\ keymap_lookup (tracked_keys_ (snd (fst r))) 0 "a" = Some 12.
Proof.
  pose proof (X2_try_lock_without_validation None "a" true
                (fst (New (mkTxnOptions false (-1) (-1)) quiet_world))
                (snd (New (mkTxnOptions false (-1) (-1)) quiet_world))
                (or_introl eq_refl)) as [_ Hfresh].
  cbv zeta in *.
  destruct (Hfresh eq_refl) as (Hstatus & _ & Hnew & _).
  split; [exact Hstatus|]. exact (Hnew eq_refl).
Defined.

(** [ValidateSnapshot] past its shortcut: one history query for the key,
    whose answer is the status; the sequence number handed back is the
    snapshot's. *)
Lemma ValidateSnapshot_queries (seq : SequenceNumber) (column_family : ColumnFamilyHandle)
      (key : string) (prev_seqno new_seqno : SequenceNumber) (w : World) :
  seq < prev_seqno ->
  ValidateSnapshot seq column_family key prev_seqno new_seqno w
  = (match last_write w !! (GetColumnFamilyID column_family, key) with
     | Some s => if N.ltb seq s then Conflict else OK
     | None => OK
     end, seq, log_history_query (GetColumnFamilyID column_family, key) w).
Proof.
  intros Hlt. unfold ValidateSnapshot, TransactionUtil.CheckKeyForConflicts.
  rewrite (proj2 (N.leb_gt prev_seqno seq) Hlt).
  destruct (last_write w !! (GetColumnFamilyID column_family, key)) as [s|]; [|done].
  by destruct (N.ltb seq s).
Qed.

(** Property X3.  [TryLock] with validation on a key the transaction has
    not tracked and the lock table grants queries the write history once,
    for that key.  If the key was written after the snapshot the call
    reports [Conflict], gives the key back (nobody holds it afterwards)
    and leaves the ledger as it was; otherwise it succeeds, holds the key
    and records it at the snapshot's sequence number. *)
Theorem X3_try_lock_validates_fresh_key :
  forall (column_family : ColumnFamilyHandle) (key : string)
         (t : TransactionImpl) (w : World) (seq : SequenceNumber),
    snapshot_ (TransactionBaseImpl.SetSnapshotIfNeeded t w) = Some seq ->
    seq < kMaxSequenceNumber ->
    keymap_lookup (tracked_keys_ t) (GetColumnFamilyID column_family) key = None ->
    grantable (txn_id_ t) w (GetColumnFamilyID column_family, key) ->
    let cf := GetColumnFamilyID column_family in
    let r := TryLock column_family key false t w in
    history_queries (snd r) = history_queries w ++ [(cf, key)]
    /\ ((exists s, last_write w !! (cf, key) = Some s /\ seq < s) ->
        fst (fst r) = Conflict
        /\ tracked_keys_ (snd (fst r)) = tracked_keys_ t
        /\ lock_table (snd r) !! (cf, key) = None)
    /\ (~ (exists s, last_write w !! (cf, key) = Some s /\ seq < s) ->
        fst (fst r) = OK
        /\ keymap_lookup (tracked_keys_ (snd (fst r))) cf key = Some seq
        /\ lock_table (snd r) !! (cf, key) = Some (txn_id_ t)).
Proof.
  intros column_family key t w seq Hsnap Hseq Hnone Hgrant cf r. subst cf r.
  destruct (SetSnapshotIfNeeded_frame t w) as (Hkeys & _).
  pose proof (table_TryLock_kept (txn_id_ t) (GetColumnFamilyID column_family) key w)
    as [(_ & _ & _ & _ & Hlast & _) Hq].
  destruct (TryLock_outcomes column_family key false t w)
    as [(r & Hin & _)|[(r & seq' & Hin & _)|[(_ & Hng & _)
       |[(_ & _ & _ & [Hu|Hs] & _)|(seq' & _ & _ & Ht & _ & Hs & ->)]]]];
    try congruence; try done.
  assert (seq' = seq) as -> by congruence.
  rewrite (ValidateSnapshot_queries seq column_family key kMaxSequenceNumber
             kMaxSequenceNumber _ Hseq).
  rewrite Hlast. cbn [fst snd].
  destruct (last_write w !! (GetColumnFamilyID column_family, key)) as [s|] eqn:Hw.
  - destruct (N.ltb_spec seq s) as [Hlt|Hge]; cbn [ok fst snd].
    + split; [rewrite (proj1 (proj2 (table_UnLockKey_kept _ _ _ _))); cbn; by rewrite Hq|].
      split; [|intros Hno; exfalso; apply Hno; by exists s].
      intros _. split; [done|]. split; [done|].
      rewrite UnLockKey_table. cbn. rewrite Ht.
      rewrite decide_True by apply lookup_insert_eq.
      apply lookup_delete_eq.
    + split; [cbn; by rewrite Hq|].
      split; [intros (s' & Hs' & Hlt); simplify_eq; lia|].
      intros _. split; [done|]. rewrite TrackKey_lookup. split; [done|].
      cbn. rewrite Ht. apply lookup_insert_eq.
  - cbn [ok fst snd]. split; [cbn; by rewrite Hq|].
    split; [intros (s' & Hs' & _); congruence|].
    intros _. split; [done|]. rewrite TrackKey_lookup. split; [done|].
    cbn. rewrite Ht. apply lookup_insert_eq.
Qed.

Lemma X3_try_lock_validates_fresh_key_witness :
  fst (fst (TryLock None "j" false relock_txn conflict_world)) = Conflict
  /\ lock_table (snd (TryLock None "j" false relock_txn conflict_world)) !! (0, "j")
     = None.
Proof.
  destruct (X3_try_lock_validates_fresh_key None "j" relock_txn conflict_world 10)
    as (_ & Hconflict & _).
  - reflexivity.
  - reflexivity.
  - reflexivity.
  - left. reflexivity.
  - destruct Hconflict as (Hs & _ & Hl).
    + exists 11. split; reflexivity.
    + split; [exact Hs|exact Hl].
Defined.

(** ** What the calls do to the store, the clock and the registry *)

Section CallFrames.

(** The three ways through [DoCommit]. *)
Lemma DoCommit_cases (batch : WriteBatch) (t : TransactionImpl) (w : World) :
  ((0 < expiration_time_ t)%Z
   /\ ((expiration_time_ t <= now_micros w)%Z \/ exec_status_ t <> STARTED)
   /\ DoCommit batch t w = (Expired, t, w))
  \/ ((expiration_time_ t <= 0)%Z
      /\ DoCommit batch t w = (fst (DB.Write batch w), t, snd (DB.Write batch w)))
  \/ ((0 < expiration_time_ t)%Z
      /\ (now_micros w < expiration_time_ t)%Z
      /\ exec_status_ t = STARTED
      /\ DoCommit batch t w
         = (fst (DB.Write batch w), set_exec_status COMMITTING t,
            snd (DB.Write batch w))).
Proof.
  destruct (Z.ltb_spec 0 (expiration_time_ t)) as [Hexp|Hexp].
  - destruct (Z.leb_spec (expiration_time_ t) (now_micros w)) as [Hle|Hgt].
    + left. split; [done|]. split; [by left|]. by rewrite DoCommit_refused by auto.
    + destruct (decide (exec_status_ t = STARTED)) as [Hst|Hst].
      * right. right. by rewrite DoCommit_expirable_writes by done.
      * left. split; [done|]. split; [by right|].
        by rewrite DoCommit_refused by auto.
  - right. left. split; [done|]. by rewrite DoCommit_plain_writes by done.
Qed.

(** A write to the store leaves the clock, the id counter, the registry,
    the store's oracle and the logs of the other calls alone. *)
Lemma DB_Write_kept (batch : WriteBatch) (w : World) :
  now_micros (snd (DB.Write batch w)) = now_micros w
  /\ txn_id_counter_ (snd (DB.Write batch w)) = txn_id_counter_ w
  /\ expirable_txns (snd (DB.Write batch w)) = expirable_txns w
  /\ db_write_status (snd (DB.Write batch w)) = db_write_status w
  /\ history_queries (snd (DB.Write batch w)) = history_queries w
  /\ acquire_calls (snd (DB.Write batch w)) = acquire_calls w.
Proof.
  unfold DB.Write. destruct (ok (db_write_status w batch)); cbn [fst snd]; [|done].
  assert (forall (b : WriteBatch) (w0 : World),
             let w' := fold_left (fun w' op => store_write (op_key op) w') b w0 in
             now_micros w' = now_micros w0
             /\ txn_id_counter_ w' = txn_id_counter_ w0
             /\ expirable_txns w' = expirable_txns w0
             /\ db_write_status w' = db_write_status w0
             /\ history_queries w' = history_queries w0
             /\ acquire_calls w' = acquire_calls w0) as Hfold.
  { induction b as [|op b IH]; intros w0; [done|]. cbn [fold_left].
    destruct (IH (store_write (op_key op) w0)) as (-> & -> & -> & -> & -> & ->).
    done. }
  apply (Hfold batch (log_db_write batch w)).
Qed.

(** The locking loop of [LockBatch] leaves the store and the clock alone. *)
Lemma lock_in_order_kept (txn : TransactionID) (l : list (ColumnFamilyID * string))
      (ku : TransactionKeyMap) (w : World) :
  store_and_clock_kept w (snd (lock_in_order txn l ku w))
  /\ history_queries (snd (lock_in_order txn l ku w)) = history_queries w.
Proof.
  revert ku w. induction l as [|ck l IH]; intros ku w; cbn [lock_in_order].
  - split; [apply store_and_clock_kept_refl|done].
  - pose proof (table_TryLock_kept txn (fst ck) (snd ck) w) as [Hk Hq].
    destruct (TransactionDBImpl.TryLock txn (fst ck) (snd ck) w) as [s w1].
    cbn [fst snd] in *. destruct (ok s); [|done].
    destruct (IH (keymap_insert (fst ck) (snd ck) kMaxSequenceNumber ku) w1)
      as [Hk' Hq'].
    split; [eapply store_and_clock_kept_trans; eauto|congruence].
Qed.

Lemma LockBatch_kept (batch : WriteBatch) (ku : TransactionKeyMap)
      (t : TransactionImpl) (w : World) :
  store_and_clock_kept w (snd (LockBatch batch ku t w))
  /\ history_queries (snd (LockBatch batch ku t w)) = history_queries w.
Proof.
  unfold LockBatch. rewrite lock_all_keys_flat.
  pose proof (lock_in_order_kept (txn_id_ t) (visit_order (Handler.Iterate batch)) ku w)
    as [Hk Hq].
  destruct (lock_in_order (txn_id_ t) (visit_order (Handler.Iterate batch)) ku w)
    as [[s keys1] w1].
  cbn [fst snd] in *. destruct (ok s); cbn [fst snd]; [done|].
  destruct (table_UnLock_kept (txn_id_ t) keys1 w1) as [Hk' Hq'].
  split; [eapply store_and_clock_kept_trans; eauto|congruence].
Qed.

End CallFrames.

(** ** [LockBatch] and [CommitBatch] against the lock table *)

Section BatchLocks.

Lemma grantable_dec (txn : TransactionID) (w : World) (ck : ColumnFamilyID * string) :
  grantable txn w ck
  \/ exists holder, lock_table w !! ck = Some holder /\ holder <> txn.
Proof.
  unfold grantable. destruct (lock_table w !! ck) as [holder|]; [|by left; left].
  destruct (decide (holder = txn)) as [->|Hne]; [by left; right|].
  right. by exists holder.
Qed.

Lemma foreign_not_grantable (txn : TransactionID) (w : World)
      (ck : ColumnFamilyID * string) (holder : TransactionID) :
  lock_table w !! ck = Some holder -> holder <> txn -> ~ grantable txn w ck.
Proof. intros Hl Hne [H|H]; congruence. Qed.

(** The locking loop ends with [OK] or [LockTimeout], and with [OK] when
    every key is free or the caller's own. *)
Lemma lock_in_order_status (txn : TransactionID) (l : list (ColumnFamilyID * string))
      (ku : TransactionKeyMap) (w : World) :
  (Forall (grantable txn w) l -> fst (fst (lock_in_order txn l ku w)) = OK)
  /\ (fst (fst (lock_in_order txn l ku w)) = OK
      \/ fst (fst (lock_in_order txn l ku w)) = LockTimeout).
Proof.
  revert ku w. induction l as [|ck l IH]; intros ku w; cbn [lock_in_order].
  - split; [done|by left].
  - destruct (TryLock_table_cases txn (fst ck) (snd ck) w)
      as [(Hs & Ht & Hg)|(Hs & Ht & holder & Hh & Hne)].
    + destruct (TransactionDBImpl.TryLock txn (fst ck) (snd ck) w) as [s w1].
      cbn [fst snd] in *. subst s. cbn [ok].
      destruct (IH (keymap_insert (fst ck) (snd ck) kMaxSequenceNumber ku) w1)
        as [IH1 IH2].
      split; [|exact IH2]. intros Hall. apply IH1.
      apply Forall_cons in Hall as [_ Hall].
      eapply Forall_impl; [exact Hall|]. intros ck' Hck'. unfold grantable in *.
      rewrite Ht. destruct (decide (ck' = (fst ck, snd ck))) as [->|Hne].
      * right. apply lookup_insert_eq.
      * by rewrite lookup_insert_ne.
    + destruct (TransactionDBImpl.TryLock txn (fst ck) (snd ck) w) as [s w1].
      cbn [fst snd] in *. subst s. cbn [ok fst snd].
      split; [|by right]. intros Hall. apply Forall_cons in Hall as [Hg _].
      destruct ck as [cf key]. cbn [fst snd] in *.
      destruct (foreign_not_grantable txn w (cf, key) holder Hh Hne Hg).
Qed.

(** [LockBatch] in terms of the lock table before the call: which status,
    and which lock table afterwards. *)
Lemma LockBatch_summary (batch : WriteBatch) (t : TransactionImpl) (w : World) :
  (Forall (grantable (txn_id_ t) w) (lock_plan batch)
   /\ fst (fst (LockBatch batch ∅ t w)) = OK
   /\ (forall ck, keymap_mem (snd (fst (LockBatch batch ∅ t w))) ck = true
                  <-> ck ∈ lock_plan batch)
   /\ forall ck, lock_table (snd (LockBatch batch ∅ t w)) !! ck
                 = if decide (ck ∈ lock_plan batch) then Some (txn_id_ t)
                   else lock_table w !! ck)
  \/ ((exists ck holder, ck ∈ lock_plan batch
                         /\ lock_table w !! ck = Some holder /\ holder <> txn_id_ t)
      /\ fst (fst (LockBatch batch ∅ t w)) = LockTimeout
      /\ exists done_ : list (ColumnFamilyID * string),
          (forall ck, ck ∈ done_ -> ck ∈ lock_plan batch /\ grantable (txn_id_ t) w ck)
          /\ forall ck, lock_table (snd (LockBatch batch ∅ t w)) !! ck
                        = if decide (ck ∈ done_) then None else lock_table w !! ck).
Proof.
  unfold LockBatch. rewrite lock_all_keys_flat. fold (lock_plan batch).
  destruct (lock_in_order_spec (txn_id_ t) (lock_plan batch) ∅ w)
    as (done_ & Hpre & Hmem & Htab & Hfree & Hall).
  destruct (lock_in_order_status (txn_id_ t) (lock_plan batch) ∅ w) as [Hok Hst].
  destruct (lock_in_order (txn_id_ t) (lock_plan batch) ∅ w) as [[s ku] w1].
  cbn [fst snd] in *.
  assert (Hmem' : forall ck, keymap_mem ku ck = true <-> ck ∈ done_).
  { intros ck. rewrite Hmem, keymap_mem_empty. split; [by intros [?|?]|by right]. }
  destruct Hst as [->| ->]; cbn [ok fst snd].
  - left. assert (done_ = lock_plan batch) as -> by auto.
    split; [|done]. apply Forall_forall. intros ck Hck. apply (Hfree ck Hck).
  - right. split.
    + destruct (decide (Forall (fun ck => lock_table w !! ck = None
                                          \/ lock_table w !! ck = Some (txn_id_ t))
                               (lock_plan batch))) as [Hall'|Hnot].
      * specialize (Hok Hall'). discriminate Hok.
      * apply not_Forall_Exists in Hnot; [|intros ck; apply _].
        apply Exists_exists in Hnot as (ck & Hck & Hng).
        destruct (grantable_dec (txn_id_ t) w ck) as [Hg|(holder & Hh & Hne)];
          [done|].
        by exists ck, holder.
    + split; [done|]. exists done_. split.
      * intros ck Hck. split; [|exact (Hfree ck Hck)].
        destruct Hpre as [k ->]. apply elem_of_app. by left.
      * intros ck. destruct (decide (ck ∈ done_)) as [Hin|Hnin].
        -- rewrite UnLock_lookup, Htab, decide_True by done.
           rewrite N.eqb_refl. by rewrite (proj2 (Hmem' ck) Hin).
        -- rewrite UnLock_other.
           ++ by rewrite Htab, decide_False.
           ++ destruct (keymap_mem ku ck) eqn:E; [|done]. by apply Hmem' in E.
Qed.

End BatchLocks.

Section BatchCommit.

(** [DoCommit] reads the clock and the store only: its status, the
    transaction it leaves and the writes it logs are the same in two worlds
    that differ in the lock table. *)
Lemma DoCommit_same_store (batch : WriteBatch) (t : TransactionImpl) (w w1 : World) :
  store_and_clock_kept w w1 ->
  fst (DoCommit batch t w1) = fst (DoCommit batch t w)
  /\ db_writes (snd (DoCommit batch t w1)) = db_writes (snd (DoCommit batch t w)).
Proof.
  intros (Hwrites & Horacle & Hnow & _).
  assert (Hw : fst (DB.Write batch w1) = fst (DB.Write batch w)
               /\ db_writes (snd (DB.Write batch w1))
                  = db_writes (snd (DB.Write batch w))).
  { destruct (DB_Write_frame batch w) as (-> & -> & _).
    destruct (DB_Write_frame batch w1) as (-> & -> & _).
    by rewrite Hwrites, Horacle. }
  destruct Hw as [Hw1 Hw2].
  destruct (DoCommit_cases batch t w)
    as [(Hexp & Hcase & ->)|[(Hexp & ->)|(Hexp & Hnow' & Hst & ->)]].
  - rewrite DoCommit_refused; [done|done|]. by rewrite Hnow.
  - rewrite DoCommit_plain_writes by done. cbn [fst snd]. by rewrite Hw1, Hw2.
  - rewrite DoCommit_expirable_writes; [|done|by rewrite Hnow|done].
    cbn [fst snd]. by rewrite Hw1, Hw2.
Qed.

(** [DoCommit] changes the execution status at most. *)
Lemma DoCommit_txn (batch : WriteBatch) (t : TransactionImpl) (w : World) :
  snd (fst (DoCommit batch t w)) = t
  \/ snd (fst (DoCommit batch t w)) = set_exec_status COMMITTING t.
Proof.
  destruct (DoCommit_cases batch t w)
    as [(_ & _ & ->)|[(_ & ->)|(_ & _ & _ & ->)]]; auto.
Qed.

End BatchCommit.

(** Property X4.  [CommitBatch] writes only after locking.  When
    [LockBatch] fails, [CommitBatch] returns that status, leaves the
    transaction as it was, and the world is the one [LockBatch] left: the
    store has seen no write.  When [LockBatch] succeeds, the status, the
    transaction left and what is written to the store are those of
    [DoCommit] on that batch, and afterwards the transaction holds no key
    of the batch. *)
Theorem X4_commit_batch_writes_only_after_locking :
  forall (batch : WriteBatch) (t : TransactionImpl) (w : World),
    (ok (fst (fst (LockBatch batch ∅ t w))) = false ->
     fst (fst (CommitBatch batch t w)) = fst (fst (LockBatch batch ∅ t w))
     /\ snd (fst (CommitBatch batch t w)) = t
     /\ snd (CommitBatch batch t w) = snd (LockBatch batch ∅ t w)
     /\ db_writes (snd (CommitBatch batch t w)) = db_writes w)
    /\ (ok (fst (fst (LockBatch batch ∅ t w))) = true ->
        fst (CommitBatch batch t w) = fst (DoCommit batch t w)
        /\ db_writes (snd (CommitBatch batch t w))
           = db_writes (snd (DoCommit batch t w))
        /\ (forall ck, ck ∈ lock_plan batch ->
                       lock_table (snd (CommitBatch batch t w)) !! ck
                       <> Some (txn_id_ t))).
Proof.
  intros batch t w.
  pose proof (LockBatch_kept batch ∅ t w) as [Hkept _].
  assert (Hmem : ok (fst (fst (LockBatch batch ∅ t w))) = true ->
                 forall ck, ck ∈ lock_plan batch ->
                            keymap_mem (snd (fst (LockBatch batch ∅ t w))) ck = true).
  { unfold LockBatch. rewrite lock_all_keys_flat. fold (lock_plan batch).
    destruct (lock_in_order_spec (txn_id_ t) (lock_plan batch) ∅ w)
      as (done_ & _ & Hmem & _ & _ & Hall).
    destruct (lock_in_order (txn_id_ t) (lock_plan batch) ∅ w) as [[s ku] w1].
    cbn [fst snd] in *. destruct (ok s) eqn:Hs; cbn [fst snd]; rewrite ?Hs; [|done].
    intros _ ck Hck. apply Hmem. right. by rewrite (Hall eq_refl). }
  unfold CommitBatch.
  destruct (LockBatch batch ∅ t w) as [[s ku] w1]. cbn [fst snd] in *.
  destruct (ok s) eqn:Hs.
  - split; [intros H; discriminate H|]. intros _.
    destruct (DoCommit_same_store batch t w w1 Hkept) as [Hst Hw].
    destruct (DoCommit batch t w1) as [[s1 t1] w2]. cbn [fst snd] in *.
    split; [done|]. split.
    + destruct (table_UnLock_kept (txn_id_ t) ku w2) as [(-> & _) _]. done.
    + intros ck Hck. apply UnLock_released. by apply Hmem.
  - split; [|intros H; discriminate H]. intros _. cbn [fst snd].
    split; [done|]. split; [done|]. split; [done|]. by destruct Hkept as (-> & _).
Qed.

(** Property X5.  [CommitBatch] commits its argument, not the
    transaction: the ledger, the save points, the pending batch, the
    snapshot and the members fixed at construction are as before.  It
    touches the lock table at the keys of the batch only, and it keeps no
    lock: a key the transaction holds after the call it held before. *)
Theorem X5_commit_batch_keeps_transaction_and_locks :
  forall (batch : WriteBatch) (t : TransactionImpl) (w : World),
    tracked_keys_ (snd (fst (CommitBatch batch t w))) = tracked_keys_ t
    /\ save_points_ (snd (fst (CommitBatch batch t w))) = save_points_ t
    /\ write_batch_ (snd (fst (CommitBatch batch t w))) = write_batch_ t
    /\ snapshot_ (snd (fst (CommitBatch batch t w))) = snapshot_ t
    /\ same_identity t (snd (fst (CommitBatch batch t w)))
    /\ (forall ck, ck ∉ lock_plan batch ->
                   lock_table (snd (CommitBatch batch t w)) !! ck = lock_table w !! ck)
    /\ (forall ck, lock_table (snd (CommitBatch batch t w)) !! ck = Some (txn_id_ t) ->
                   lock_table w !! ck = Some (txn_id_ t)).
Proof.
  intros batch t w.
  assert (Htable : forall ck,
             lock_table (snd (CommitBatch batch t w)) !! ck = lock_table w !! ck
             \/ (ck ∈ lock_plan batch
                 /\ lock_table (snd (CommitBatch batch t w)) !! ck = None)).
  { intros ck. pose proof (LockBatch_summary batch t w) as Hsum.
    unfold CommitBatch.
    destruct (LockBatch batch ∅ t w) as [[s ku] w1]. cbn [fst snd] in *.
    destruct Hsum as [(Hall & -> & Hmem & Htab)|(_ & -> & done_ & Hdone & Htab)];
      cbn [ok].
    - destruct (DoCommit_frame batch t w1) as (_ & _ & Hlocks).
      destruct (DoCommit batch t w1) as [[s1 t1] w2]. cbn [fst snd] in *.
      rewrite UnLock_lookup, Hlocks, Htab.
      destruct (decide (ck ∈ lock_plan batch)) as [Hin|Hnin].
      + right. split; [done|].
        by rewrite N.eqb_refl, (proj2 (Hmem ck) Hin).
      + left. destruct (lock_table w !! ck) as [holder|]; [|done].
        destruct (keymap_mem ku ck) eqn:E; [by apply Hmem in E|].
        by rewrite andb_false_r.
    - cbn [fst snd]. rewrite Htab. destruct (decide (ck ∈ done_)) as [Hin|]; [|by left].
      right. split; [apply (Hdone ck Hin)|done]. }
  assert (Htxn : snd (fst (CommitBatch batch t w)) = t
                 \/ snd (fst (CommitBatch batch t w)) = set_exec_status COMMITTING t).
  { unfold CommitBatch. destruct (LockBatch batch ∅ t w) as [[s ku] w1].
    destruct (ok s); [|by left].
    pose proof (DoCommit_txn batch t w1) as H.
    by destruct (DoCommit batch t w1) as [[s1 t1] w2]. }
  split; [by destruct Htxn as [-> | ->]|].
  split; [by destruct Htxn as [-> | ->]|].
  split; [by destruct Htxn as [-> | ->]|].
  split; [by destruct Htxn as [-> | ->]|].
  split; [by destruct Htxn as [-> | ->]|].
  split.
  - intros ck Hck. by destruct (Htable ck) as [H|[H _]].
  - intros ck Hheld. destruct (Htable ck) as [H|[_ H]]; congruence.
Qed.

(** ** What an event does to the surroundings of the transaction *)

Section EventFrames.

Lemma surroundings_kept_refl (w : World) : surroundings_kept w w.
Proof. by repeat split. Qed.

Lemma surroundings_kept_trans (w1 w2 w3 : World) :
  surroundings_kept w1 w2 -> surroundings_kept w2 w3 -> surroundings_kept w1 w3.
Proof.
  intros (? & ? & ? & ?) (? & ? & ? & ?). repeat split; congruence.
Qed.

Lemma store_kept_surroundings (w w' : World) :
  store_and_clock_kept w w' -> surroundings_kept w w' /\ db_writes w' = db_writes w.
Proof. intros (? & ? & ? & ? & ? & ? & ?). by repeat split. Qed.

Lemma DoCommit_effect (batch : WriteBatch) (t : TransactionImpl) (w : World) :
  same_identity t (snd (fst (DoCommit batch t w)))
  /\ surroundings_kept w (snd (DoCommit batch t w))
  /\ wrote_at_most_once t (snd (fst (DoCommit batch t w))) w (snd (DoCommit batch t w)).
Proof.
  destruct (DB_Write_kept batch w) as (Hn & Hc & Hr & Ho & _).
  destruct (DB_Write_frame batch w) as (_ & Hw & _).
  destruct (DoCommit_cases batch t w)
    as [(_ & _ & ->)|[(Hexp & ->)|(Hexp & _ & Hst & ->)]]; cbn [fst snd].
  - split; [apply same_identity_refl|]. split; [apply surroundings_kept_refl|].
    by left.
  - split; [apply same_identity_refl|]. split; [done|].
    right. exists batch. split; [done|]. lia.
  - split; [done|]. split; [done|]. right. exists batch. by split.
Qed.

Lemma TryLock_identity (column_family : ColumnFamilyHandle) (key : string)
      (untracked : bool) (t : TransactionImpl) (w : World) :
  same_identity t (snd (fst (TryLock column_family key untracked t w))).
Proof.
  pose proof (SetSnapshotIfNeeded_identity t w) as Hid.
  destruct (TryLock_txn_cases column_family key untracked t w) as [->|[seq ->]];
    [done|].
  eapply same_identity_trans; [exact Hid|]. apply TrackKey_identity.
Qed.

Lemma RollbackToSavePoint_identity (t : TransactionImpl) :
  same_identity t (snd (TransactionBaseImpl.RollbackToSavePoint t)).
Proof.
  unfold TransactionBaseImpl.RollbackToSavePoint.
  destruct (save_points_ t); by repeat split.
Qed.

(** Every event keeps the members fixed at construction, the id counter, the
    registry and the store's oracle; only [ClockReads] changes the clock;
    and only a commit that is let through writes to the store. *)
Lemma happen_effect (e : Event) (t : TransactionImpl) (w : World) :
  same_identity t (fst (happen e t w))
  /\ (surroundings_kept w (snd (happen e t w))
      \/ exists now, e = ClockReads now
                     /\ snd (happen e t w) = set_now_micros now w)
  /\ wrote_at_most_once t (fst (happen e t w)) w (snd (happen e t w)).
Proof.
  destruct e as [|batch| | |cfh key untracked| |now]; cbn [happen].
  - rewrite Commit_unfold. cbn [fst snd].
    destruct (DoCommit_effect (write_batch_ t) t w) as (Hid & Hsur & Hwr).
    destruct (store_kept_surroundings _ _
                (proj1 (table_UnLock_kept
                          (txn_id_ (snd (fst (DoCommit (write_batch_ t) t w))))
                          (tracked_keys_ (snd (fst (DoCommit (write_batch_ t) t w))))
                          (snd (DoCommit (write_batch_ t) t w))))) as [Hsur' Hwr'].
    split; [exact Hid|].
    split; [left; eapply surroundings_kept_trans; eauto|].
    unfold wrote_at_most_once in *. rewrite Hwr'. exact Hwr.
  - unfold CommitBatch.
    destruct (store_kept_surroundings _ _ (proj1 (LockBatch_kept batch ∅ t w)))
      as [Hsur Hwr].
    destruct (LockBatch batch ∅ t w) as [[s ku] w1]. cbn [fst snd] in *.
    destruct (ok s); cbn [fst snd].
    + destruct (DoCommit_effect batch t w1) as (Hid & Hsur1 & Hwr1).
      destruct (DoCommit batch t w1) as [[s1 t1] w2]. cbn [fst snd] in *.
      destruct (store_kept_surroundings _ _
                  (proj1 (table_UnLock_kept (txn_id_ t) ku w2))) as [Hsur2 Hwr2].
      split; [exact Hid|].
      split; [left; repeat (eapply surroundings_kept_trans; eauto)|].
      unfold wrote_at_most_once in *. rewrite Hwr2, <- Hwr. exact Hwr1.
    + split; [apply same_identity_refl|]. split; [by left|by left].
  - unfold Rollback, Clear. cbn [fst snd].
    destruct (store_kept_surroundings _ _
                (proj1 (table_UnLock_kept (txn_id_ t) (tracked_keys_ t) w)))
      as [Hsur Hwr].
    split; [by repeat split|]. split; [by left|by left].
  - unfold RollbackToSavePoint.
    pose proof (RollbackToSavePoint_identity t) as Hid.
    destruct (TransactionBaseImpl.RollbackToSavePoint t) as [s t1].
    cbn [fst snd] in *. split; [exact Hid|].
    destruct (TransactionBaseImpl.GetTrackedKeysSinceSavePoint t) as [keys|].
    + destruct (store_kept_surroundings _ _
                  (proj1 (table_UnLock_kept (txn_id_ t) keys w))) as [Hsur Hwr].
      split; [by left|by left].
    + split; [left; apply surroundings_kept_refl|by left].
  - pose proof (TryLock_identity cfh key untracked t w) as Hid.
    destruct (store_kept_surroundings _ _
                (proj1 (TryLock_world_frame cfh key untracked t w))) as [Hsur Hwr].
    destruct (TryLock cfh key untracked t w) as [[s t1] w1]. cbn [fst snd] in *.
    split; [exact Hid|]. split; [by left|by left].
  - split; [|split; [left; apply surroundings_kept_refl|by left]].
    unfold TryStealingLocks. rewrite cas_from_STARTED.
    by destruct (decide (exec_status_ t = STARTED)).
  - split; [apply same_identity_refl|]. split; [right; by exists now|by left].
Qed.

End EventFrames.

(** ** Sequences of events *)

Section EventSequences.

(** Once the status has left [STARTED], no event changes it. *)
Lemma status_frozen (es : list Event) (t : TransactionImpl) (w : World) :
  exec_status_ t <> STARTED ->
  exec_status_ (fst (happen_all es t w)) = exec_status_ t.
Proof.
  revert t w. induction es as [|e es IH]; intros t w Hst; [done|].
  cbn [happen_all].
  assert (exec_status_ (fst (happen e t w)) = exec_status_ t) as Hsame.
  { destruct (happen_status e t w) as [H|[H _]]; [done|by destruct Hst]. }
  rewrite IH by congruence. exact Hsame.
Qed.

(** The members fixed at construction, the id counter and the registry
    after any events. *)
Lemma happen_all_identity (es : list Event) (t : TransactionImpl) (w : World) :
  same_identity t (fst (happen_all es t w))
  /\ txn_id_counter_ (snd (happen_all es t w)) = txn_id_counter_ w
  /\ expirable_txns (snd (happen_all es t w)) = expirable_txns w
  /\ db_write_status (snd (happen_all es t w)) = db_write_status w.
Proof.
  revert t w. induction es as [|e es IH]; intros t w.
  - split; [apply same_identity_refl|done].
  - cbn [happen_all].
    destruct (IH (fst (happen e t w)) (snd (happen e t w))) as (Hid & -> & -> & ->).
    destruct (happen_effect e t w) as (Hid' & Hsur & _).
    split; [eapply same_identity_trans; eauto|].
    destruct Hsur as [(_ & ? & ? & ?)|(now & _ & ->)]; done.
Qed.

(** A transaction with an expiration time that has left [STARTED] does not
    write to the store any more. *)
Lemma no_write_after_leaving_STARTED (es : list Event) (t : TransactionImpl)
      (w : World) :
  (0 < expiration_time_ t)%Z ->
  exec_status_ t <> STARTED ->
  db_writes (snd (happen_all es t w)) = db_writes w.
Proof.
  revert t w. induction es as [|e es IH]; intros t w Hexp Hst; [done|].
  cbn [happen_all].
  destruct (happen_effect e t w) as ((_ & _ & Hexp' & _) & _ & Hwr).
  assert (exec_status_ (fst (happen e t w)) = exec_status_ t) as Hsame.
  { destruct (happen_status e t w) as [H|[H _]]; [done|by destruct Hst]. }
  rewrite IH; [|lia|congruence].
  destruct Hwr as [H|(b & _ & H)]; [done|].
  destruct (H Hexp) as [Hstarted _]. by destruct Hst.
Qed.

End EventSequences.

(** Property X6.  A transaction with an expiration time writes to the
    store at most once, whatever calls are made on it and however often:
    the write happens on the exchange of [STARTED] for [COMMITTING] in
    [DoCommit], and once the status is not [STARTED] nothing is written. *)
Theorem X6_expirable_transaction_writes_at_most_once :
  forall (es : list Event) (t : TransactionImpl) (w : World),
    (0 < expiration_time_ t)%Z ->
    exists written : list WriteBatch,
      db_writes (snd (happen_all es t w)) = db_writes w ++ written
      /\ (length written <= 1)%nat
      /\ (exec_status_ t <> STARTED -> written = []).
Proof.
  induction es as [|e es IH]; intros t w Hexp.
  - exists []. rewrite app_nil_r. cbn. split; [done|split; [lia|done]].
  - cbn [happen_all].
    destruct (happen_effect e t w) as ((_ & _ & Hexp' & _) & _ & Hwr).
    destruct Hwr as [Hsame|(b & Hb & Hcas)].
    + destruct (decide (exec_status_ t = STARTED)) as [Hst|Hst].
      * destruct (IH (fst (happen e t w)) (snd (happen e t w))) as (bs & Hbs & Hlen & _);
          [lia|].
        exists bs. rewrite Hbs, Hsame. done.
      * exists []. rewrite app_nil_r. split; [|split; [cbn; lia|done]].
        change (happen_all es (fst (happen e t w)) (snd (happen e t w)))
          with (happen_all (e :: es) t w).
        by apply no_write_after_leaving_STARTED.
    + destruct (Hcas Hexp) as [Hst Hcommitting].
      exists [b]. split; [|split; [cbn; lia|by intros []]].
      rewrite no_write_after_leaving_STARTED; [done|lia|].
      rewrite Hcommitting. done.
Qed.

Lemma X6_expirable_transaction_writes_at_most_once_witness :
  exists written : list WriteBatch,
    db_writes (snd (happen_all [CallCommit; CallCommit; CallCommitBatch [PutOp 0 "z" "v"]]
                               expirable_txn quiet_world))
    = db_writes quiet_world ++ written
    /\ (length written <= 1)%nat.
Proof.
  destruct (X6_expirable_transaction_writes_at_most_once
              [CallCommit; CallCommit; CallCommitBatch [PutOp 0 "z" "v"]]
              expirable_txn quiet_world) as (written & Hw & Hlen & _).
  - reflexivity.
  - exists written. split; [exact Hw|exact Hlen].
Defined.

Lemma IsExpired_true (t : TransactionImpl) (w : World) :
  IsExpired t w = true
  <-> (0 < expiration_time_ t)%Z /\ (expiration_time_ t <= now_micros w)%Z.
Proof.
  unfold IsExpired.
  destruct (Z.ltb_spec 0 (expiration_time_ t)) as [Hexp|Hexp];
    [|split; [done|lia]].
  destruct (Z.leb_spec (expiration_time_ t) (now_micros w)) as [Hle|Hgt];
    [done|split; [done|lia]].
Qed.

Lemma expired_after_events (es : list Event) (t : TransactionImpl) (w : World) :
  IsExpired t w = true ->
  clock_not_before (expiration_time_ t) es = true ->
  IsExpired (fst (happen_all es t w)) (snd (happen_all es t w)) = true.
Proof.
  revert t w. induction es as [|e es IH]; intros t w Hexpired Hclock; [done|].
  cbn [happen_all].
  destruct (happen_effect e t w) as ((_ & _ & Hexp & _) & Hsur & _).
  apply IsExpired_true in Hexpired as [Hpos Hle].
  unfold clock_not_before in Hclock. cbn [forallb] in Hclock.
  apply andb_prop in Hclock as [Hhead Htail].
  apply IH.
  - apply IsExpired_true. rewrite Hexp. split; [done|].
    destruct Hsur as [(-> & _)|(now & -> & ->)]; [done|].
    cbn. by apply Z.leb_le.
  - rewrite Hexp. exact Htail.
Qed.

(** Property X8.  Expiry is final: once [IsExpired] holds, it holds after
    any calls on the transaction, as long as the clock is not set back
    behind the expiration time; and [Commit] then reports [Expired] and
    writes nothing to the store. *)
Theorem X8_expired_stays_expired :
  forall (es : list Event) (t : TransactionImpl) (w : World),
    IsExpired t w = true ->
    clock_not_before (expiration_time_ t) es = true ->
    IsExpired (fst (happen_all es t w)) (snd (happen_all es t w)) = true
    /\ fst (fst (Commit (fst (happen_all es t w)) (snd (happen_all es t w)))) = Expired
    /\ db_writes (snd (Commit (fst (happen_all es t w)) (snd (happen_all es t w))))
       = db_writes (snd (happen_all es t w)).
Proof.
  intros es t w Hexpired Hclock.
  pose proof (expired_after_events es t w Hexpired Hclock) as Hfinal.
  split; [exact Hfinal|].
  apply IsExpired_true in Hfinal as [Hpos Hle].
  rewrite Commit_unfold. cbn [fst snd].
  rewrite DoCommit_refused by auto. cbn [fst snd].
  split; [done|].
  by destruct (table_UnLock_kept (txn_id_ (fst (happen_all es t w)))
                 (tracked_keys_ (fst (happen_all es t w)))
                 (snd (happen_all es t w))) as [(-> & _) _].
Qed.

Lemma X8_expired_stays_expired_witness :
  IsExpired (fst (happen_all [CallTryLock None "a" true; ClockReads 2500; CallRollback]
                             expirable_txn (set_now_micros 2000 quiet_world)))
            (snd (happen_all [CallTryLock None "a" true; ClockReads 2500; CallRollback]
                             expirable_txn (set_now_micros 2000 quiet_world)))
  = true.
Proof.
  apply (X8_expired_stays_expired
           [CallTryLock None "a" true; ClockReads 2500; CallRollback]
           expirable_txn (set_now_micros 2000 quiet_world)).
  - reflexivity.
  - reflexivity.
Defined.

(** ** From the constructor to the destructor *)

Section LifeCycle.

(** The destructor releases every lock the ledger lists, and takes the
    transaction out of the registry when it has an expiration time. *)
Lemma Delete_effect (t : TransactionImpl) (w : World) :
  lock_table (Delete t w)
  = lock_table (TransactionDBImpl.UnLock (txn_id_ t) (tracked_keys_ t) w)
  /\ expirable_txns (Delete t w)
     = (if (0 <? expiration_time_ t)%Z
        then expirable_txns w ∖ {[ txn_id_ t ]}
        else expirable_txns w).
Proof. unfold Delete. by destruct (0 <? expiration_time_ t)%Z. Qed.

(** With every lock of the transaction in its ledger, releasing the ledger
    leaves the transaction without a lock. *)
Lemma UnLock_everything (t : TransactionImpl) (w : World) (ck : ColumnFamilyID * string) :
  locks_tracked t w ->
  lock_table (TransactionDBImpl.UnLock (txn_id_ t) (tracked_keys_ t) w) !! ck
  <> Some (txn_id_ t).
Proof.
  intros Htracked. rewrite UnLock_lookup.
  destruct (lock_table w !! ck) as [holder|] eqn:Hl; [|done].
  destruct (N.eqb_spec holder (txn_id_ t)) as [->|Hne]; cbn [andb].
  - destruct ck as [cf key]. destruct (Htracked cf key Hl) as [seq Hseq].
    unfold keymap_mem. cbn [fst snd]. by rewrite Hseq.
  - congruence.
Qed.

End LifeCycle.

(** Property X9.  From the constructor to the destructor: a transaction
    constructed with an id under which no lock is held and which is not
    registered keeps that id through any calls; when it is destroyed no
    lock is left under its id, and the registry of expirable transactions
    is what it was before the construction. *)
Theorem X9_destructor_leaves_no_lock_and_no_registration :
  forall (txn_options : TransactionOptions) (w : World) (es : list Event),
    (forall ck, lock_table w !! ck <> Some (txn_id_counter_ w)) ->
    txn_id_counter_ w ∉ expirable_txns w ->
    let final := happen_all es (fst (New txn_options w)) (snd (New txn_options w)) in
    txn_id_ (fst final) = txn_id_counter_ w
    /\ (forall ck, lock_table (Delete (fst final) (snd final)) !! ck
                   <> Some (txn_id_counter_ w))
    /\ expirable_txns (Delete (fst final) (snd final)) = expirable_txns w.
Proof.
  intros txn_options w es Hfree Hfresh final. subst final.
  destruct (New_fields txn_options w) as (Hid & _ & _ & _ & Hreg).
  destruct (happen_all_identity es (fst (New txn_options w)) (snd (New txn_options w)))
    as ((Hid' & _ & Hexp' & _) & _ & Hreg' & _).
  pose proof (locks_tracked_invariant es _ _
                (locks_tracked_initially txn_options w Hfree)) as Htracked.
  destruct (Delete_effect
              (fst (happen_all es (fst (New txn_options w)) (snd (New txn_options w))))
              (snd (happen_all es (fst (New txn_options w)) (snd (New txn_options w)))))
    as [Hlocks Hgone].
  split; [congruence|]. split.
  - intros ck. rewrite Hlocks, <- Hid, <- Hid'. by apply UnLock_everything.
  - rewrite Hgone, Hreg', Hreg, Hexp', Hid', Hid.
    destruct (0 <? expiration_time_ (fst (New txn_options w)))%Z; [|done].
    apply set_eq. intros x.
    rewrite elem_of_difference, elem_of_union, !elem_of_singleton.
    split; [intros [[?|?] ?]; done|].
    intros Hx. split; [by right|]. intros ->. done.
Qed.

Lemma X9_destructor_leaves_no_lock_and_no_registration_witness :
  expirable_txns
    (Delete (fst (happen_all [CallTryLock None "a" true; CallCommit]
                             (fst (New zero_expiration quiet_world))
                             (snd (New zero_expiration quiet_world))))
            (snd (happen_all [CallTryLock None "a" true; CallCommit]
                             (fst (New zero_expiration quiet_world))
                             (snd (New zero_expiration quiet_world)))))
  = expirable_txns quiet_world.
Proof.
  apply (X9_destructor_leaves_no_lock_and_no_registration
           zero_expiration quiet_world [CallTryLock None "a" true; CallCommit]).
  - intros ck. vm_compute. discriminate.
  - vm_compute. discriminate.
Defined.

(** ** [Rollback] and [Clear] *)

Section RollbackClears.

(** Releasing no key changes nothing. *)
Lemma UnLock_nothing (txn : TransactionID) (w : World) :
  lock_table (TransactionDBImpl.UnLock txn ∅ w) = lock_table w.
Proof.
  unfold TransactionDBImpl.UnLock. cbn.
  apply map_filter_id. intros ck holder _.
  unfold TransactionDBImpl.releases. cbn [fst snd].
  rewrite keymap_mem_empty. apply andb_false_r.
Qed.

End RollbackClears.

(** Property X10.  [Rollback] forgets the transaction's work without
    touching the store: afterwards the ledger, the save points and the
    pending batch are empty and the store has seen no write; every key of
    the ledger is released while the locks of other transactions stay; the
    execution status is neither consulted nor changed; and a second
    [Rollback] changes nothing. *)
Theorem X10_rollback_clears_without_writing :
  forall (t : TransactionImpl) (w : World),
    tracked_keys_ (fst (Rollback t w)) = ∅
    /\ save_points_ (fst (Rollback t w)) = []
    /\ write_batch_ (fst (Rollback t w)) = []
    /\ exec_status_ (fst (Rollback t w)) = exec_status_ t
    /\ store_and_clock_kept w (snd (Rollback t w))
    /\ (forall ck, keymap_mem (tracked_keys_ t) ck = true ->
                   lock_table (snd (Rollback t w)) !! ck <> Some (txn_id_ t))
    /\ (forall ck holder, holder <> txn_id_ t ->
                          lock_table (snd (Rollback t w)) !! ck = Some holder
                          <-> lock_table w !! ck = Some holder)
    /\ Rollback (fst (Rollback t w)) (snd (Rollback t w)) = Rollback t w.
Proof.
  intros t w. unfold Rollback, Clear. cbn [fst snd].
  split; [done|]. split; [done|]. split; [done|]. split; [done|].
  split; [apply table_UnLock_kept|].
  split; [intros ck Hck; by apply UnLock_released|].
  split; [intros ck holder Hne; by apply UnLock_foreign|].
  f_equal. cbn [TransactionBaseImpl.Clear set_write_batch set_tracking tracked_keys_
                txn_id_].
  pose proof (UnLock_nothing (txn_id_ t)
                (TransactionDBImpl.UnLock (txn_id_ t) (tracked_keys_ t) w)) as H.
  unfold TransactionDBImpl.UnLock at 1. unfold set_lock_table at 1.
  unfold TransactionDBImpl.UnLock at 1 in H. cbn [lock_table set_lock_table] in H.
  cbn [lock_table set_lock_table TransactionDBImpl.UnLock acquire_calls last_write
       history_queries latest_sequence_number db_writes db_write_status now_micros
       txn_id_counter_ expirable_txns transaction_lock_timeout].
  cbn [lock_table set_lock_table TransactionDBImpl.UnLock] in H.
  rewrite H. done.
Qed.

(** Property X11.  The ledger covers the locks at every call boundary:
    if every lock the lock table holds under the transaction's id has an
    entry in its ledger, as is the case for a transaction just constructed,
    then the same holds after any calls (the keys [CommitBatch] locks on
    the way are released before it returns); hence [Rollback] and [Commit]
    leave the transaction without any lock. *)
Theorem X11_ledger_covers_locks_at_every_call_boundary :
  forall (t : TransactionImpl) (w : World) (es : list Event),
    locks_tracked t w ->
    let final := happen_all es t w in
    locks_tracked (fst final) (snd final)
    /\ (forall ck, lock_table (snd (Rollback (fst final) (snd final))) !! ck
                   <> Some (txn_id_ (fst final)))
    /\ (forall ck, lock_table (snd (Commit (fst final) (snd final))) !! ck
                   <> Some (txn_id_ (fst final))).
Proof.
  intros t w es Hinit final.
  pose proof (locks_tracked_invariant es t w Hinit) as Htracked.
  fold final in Htracked. clearbody final.
  split; [exact Htracked|]. split.
  - intros ck. unfold Rollback, Clear. cbn [fst snd]. by apply UnLock_everything.
  - intros ck. rewrite Commit_unfold. cbn [fst snd].
    destruct (DoCommit_frame (write_batch_ (fst final)) (fst final) (snd final))
      as (Hkeys & Hid & Hlocks).
    rewrite <- Hid. apply UnLock_everything.
    intros cf key Hheld. rewrite Hkeys. apply Htracked. by rewrite <- Hlocks, <- Hid.
Qed.

Lemma X11_ledger_covers_locks_at_every_call_boundary_witness :
  locks_tracked
    (fst (happen_all [CallTryLock None "a" true; CallCommitBatch [PutOp 0 "b" "v"]]
                     fresh_txn quiet_world))
    (snd (happen_all [CallTryLock None "a" true; CallCommitBatch [PutOp 0 "b" "v"]]
                     fresh_txn quiet_world)).
Proof.
  apply (X11_ledger_covers_locks_at_every_call_boundary
           fresh_txn quiet_world
           [CallTryLock None "a" true; CallCommitBatch [PutOp 0 "b" "v"]]).
  intros cf key Hheld. vm_compute in Hheld. discriminate Hheld.
Defined.

(** ** Constructing transactions one after the other *)

Section Identifiers.

Lemma New_counter (txn_options : TransactionOptions) (w : World) :
  txn_id_counter_ (snd (New txn_options w)) = (txn_id_counter_ w + 1) mod 2 ^ 64.
Proof.
  unfold New, GenTxnID. cbn. by destruct (0 <? _)%Z.
Qed.

Lemma construct_all_cons (o : TransactionOptions) (rest : list TransactionOptions)
      (w : World) :
  construct_all (o :: rest) w
  = (fst (New o w) :: fst (construct_all rest (snd (New o w))),
     snd (construct_all rest (snd (New o w)))).
Proof.
  cbn [construct_all]. destruct (New o w) as [t w1]. cbn [fst snd].
  by destruct (construct_all rest w1).
Qed.

Lemma construct_all_ids (options : list TransactionOptions) (w : World) :
  txn_id_counter_ w + N.of_nat (length options) <= 2 ^ 64 ->
  (forall (i : nat) (t : TransactionImpl),
      fst (construct_all options w) !! i = Some t ->
      txn_id_ t = txn_id_counter_ w + N.of_nat i)
  /\ (txn_id_counter_ (snd (construct_all options w))
      = (txn_id_counter_ w + N.of_nat (length options)) mod 2 ^ 64
      \/ options = []).
Proof.
  revert w. induction options as [|o rest IH]; intros w Hfit.
  - split; [intros i t Hi; by destruct i|by right].
  - rewrite construct_all_cons. cbn [fst snd length] in *.
    destruct (New_fields o w) as (Hid & _).
    pose proof (New_counter o w) as Hc.
    assert (txn_id_counter_ w + 1 <= 2 ^ 64) as Hone by lia.
    destruct (decide (txn_id_counter_ w + 1 = 2 ^ 64)) as [Hwrap|Hnowrap].
    + assert (rest = []) as -> by (destruct rest; [done|cbn in Hfit; lia]).
      cbn [construct_all fst snd]. split.
      * intros [|i] t Hi; [|done].
        change (Some (fst (New o w)) = Some t) in Hi.
        assert (fst (New o w) = t) as <- by congruence. rewrite Hid. lia.
      * left. rewrite Hc. cbn [length]. f_equal; lia.
    + rewrite N.mod_small in Hc by lia.
      destruct (IH (snd (New o w))) as [Hids Hfinal]; [lia|]. split.
      * intros [|i] t Hi.
        -- change (Some (fst (New o w)) = Some t) in Hi.
           assert (fst (New o w) = t) as <- by congruence. rewrite Hid. lia.
        -- rewrite (Hids i t Hi), Hc. lia.
      * left. destruct Hfinal as [-> | ->].
        -- f_equal; lia.
        -- cbn [construct_all snd length]. rewrite Hc, N.mod_small by lia. lia.
Qed.

End Identifiers.

(** Property X12.  Transactions constructed one after the other get
    consecutive ids, starting at the counter: as long as the counter does
    not pass 2^64, the i-th transaction constructed has the id
    [counter + i], so no two of them share an id and a later one has
    the greater id.  The counter ends at [counter + n] modulo 2^64: the
    id after 2^64 - 1 is 0. *)
Theorem X12_constructed_ids_are_consecutive :
  forall (options : list TransactionOptions) (w : World),
    txn_id_counter_ w + N.of_nat (length options) <= 2 ^ 64 ->
    length (fst (construct_all options w)) = length options
    /\ (forall (i : nat) (t : TransactionImpl),
           fst (construct_all options w) !! i = Some t ->
           txn_id_ t = txn_id_counter_ w + N.of_nat i)
    /\ (forall (i j : nat) (t t' : TransactionImpl),
           fst (construct_all options w) !! i = Some t ->
           fst (construct_all options w) !! j = Some t' ->
           (i < j)%nat -> txn_id_ t < txn_id_ t')
    /\ (options <> [] ->
        txn_id_counter_ (snd (construct_all options w))
        = (txn_id_counter_ w + N.of_nat (length options)) mod 2 ^ 64).
Proof.
  intros options w Hfit.
  destruct (construct_all_ids options w Hfit) as [Hids Hfinal].
  split; [|split; [exact Hids|split; [|by destruct Hfinal]]].
  - clear. revert w. induction options as [|o rest IH]; intros w; [done|].
    rewrite construct_all_cons. cbn [fst length]. by rewrite IH.
  - intros i j t t' Hi Hj Hlt. rewrite (Hids i t Hi), (Hids j t' Hj). lia.
Qed.

Lemma X12_constructed_ids_are_consecutive_witness :
  length (fst (construct_all [zero_expiration; mkTxnOptions true 5 (-1); zero_expiration]
                             quiet_world)) = 3%nat
  /\ txn_id_counter_
       (snd (construct_all [zero_expiration; mkTxnOptions true 5 (-1); zero_expiration]
                           quiet_world))
     = (txn_id_counter_ quiet_world + 3) mod 2 ^ 64.
Proof.
  destruct (X12_constructed_ids_are_consecutive
              [zero_expiration; mkTxnOptions true 5 (-1); zero_expiration] quiet_world)
    as (Hlen & _ & _ & Hcounter).
  - vm_compute. discriminate.
  - split; [exact Hlen|]. apply Hcounter. discriminate.
Defined.

(** Property X13.  The deadline is fixed at construction: a transaction
    constructed with an expiration of [e >= 0] milliseconds at a clock
    reading [now], with [0 < now + 1000 e < 2^64], is expired after any
    calls exactly when the clock reads [now + 1000 e] or more, and it stays
    in the registry of expirable transactions all the while. *)
Theorem X13_deadline_fixed_at_construction :
  forall (txn_options : TransactionOptions) (w : World) (es : list Event),
    (0 <= expiration txn_options)%Z ->
    (0 < now_micros w + expiration txn_options * 1000 < 2 ^ 64)%Z ->
    let final := happen_all es (fst (New txn_options w)) (snd (New txn_options w)) in
    (IsExpired (fst final) (snd final) = true
     <-> (now_micros w + expiration txn_options * 1000 <= now_micros (snd final))%Z)
    /\ txn_id_ (fst final) ∈ expirable_txns (snd final).
Proof.
  intros txn_options w es Hpos Hfit final. subst final.
  destruct (New_fields txn_options w) as (_ & _ & Hexp & _ & Hreg).
  destruct (happen_all_identity es (fst (New txn_options w)) (snd (New txn_options w)))
    as ((Hid' & _ & Hexp' & _) & _ & Hreg' & _).
  rewrite (proj2 (Z.leb_le _ _) Hpos) in Hexp. unfold to_uint64 in Hexp.
  rewrite Z.mod_small in Hexp by lia.
  split.
  - rewrite IsExpired_true, Hexp', Hexp. split; [by intros [_ H]|]. intros H.
    split; [lia|done].
  - rewrite Hreg', Hreg, Hid'.
    rewrite (proj2 (Z.ltb_lt 0 _)) by (rewrite Hexp; lia).
    apply elem_of_union. left. by apply elem_of_singleton.
Qed.

Lemma X13_deadline_fixed_at_construction_witness :
  IsExpired
    (fst (happen_all [CallTryLock None "a" true; ClockReads 6000]
                     (fst (New (mkTxnOptions false 5 (-1)) quiet_world))
                     (snd (New (mkTxnOptions false 5 (-1)) quiet_world))))
    (snd (happen_all [CallTryLock None "a" true; ClockReads 6000]
                     (fst (New (mkTxnOptions false 5 (-1)) quiet_world))
                     (snd (New (mkTxnOptions false 5 (-1)) quiet_world))))
  = true.
Proof.
  apply (X13_deadline_fixed_at_construction
           (mkTxnOptions false 5 (-1)) quiet_world
           [CallTryLock None "a" true; ClockReads 6000]).
  - vm_compute. discriminate.
  - split; reflexivity.
  - vm_compute. discriminate.
Defined.

(** Property X15.  [TryLock] never drops a ledger entry: a key that is
    in the ledger before the call is in the ledger after it, whatever the
    call returns; and after a successful call the key that was asked for is
    in the ledger. *)
Theorem X15_try_lock_never_forgets_a_key :
  forall (column_family : ColumnFamilyHandle) (key : string) (untracked : bool)
         (t : TransactionImpl) (w : World),
    (forall cf' key',
        is_Some (keymap_lookup (tracked_keys_ t) cf' key') ->
        is_Some (keymap_lookup
                   (tracked_keys_ (snd (fst (TryLock column_family key untracked t w))))
                   cf' key'))
    /\ (ok (fst (fst (TryLock column_family key untracked t w))) = true ->
        is_Some (keymap_lookup
                   (tracked_keys_ (snd (fst (TryLock column_family key untracked t w))))
                   (GetColumnFamilyID column_family) key)).
Proof.
  intros column_family key untracked t w.
  destruct (SetSnapshotIfNeeded_frame t w) as (Hkeys & _).
  split.
  - intros cf' key' Hin.
    destruct (TryLock_txn_cases column_family key untracked t w) as [->|[seq ->]];
      [by rewrite Hkeys|].
    destruct (decide ((cf', key') = (GetColumnFamilyID column_family, key)))
      as [Heq|Hne].
    + injection Heq as -> ->. rewrite TrackKey_lookup. by eexists.
    + rewrite TrackKey_other_keys by done. by rewrite Hkeys.
  - destruct (TryLock_outcomes column_family key untracked t w)
      as [(r & _ & _ & ->)|[(r & seq & _ & _ & _ & ->)|[(_ & _ & _ & ->)
         |[(_ & _ & _ & _ & ->)|(seq & _ & _ & _ & _ & _ & ->)]]]]; cbn [fst snd].
    + intros _. rewrite TrackKey_lookup. by eexists.
    + intros Hok. rewrite Hok, TrackKey_lookup. by eexists.
    + intros Hok. discriminate Hok.
    + intros _. rewrite TrackKey_lookup. by eexists.
    + intros Hok. rewrite Hok, TrackKey_lookup. by eexists.
Qed.

(** ** C2: the two exchanges on the execution status *)

Section Exchanges.

(** What [TryStealingLocks] answers and what it leaves. *)
Lemma TryStealingLocks_cases (t : TransactionImpl) :
  (exec_status_ t = STARTED
   /\ TryStealingLocks t = (true, set_exec_status LOCKS_STOLEN t))
  \/ (exec_status_ t <> STARTED
      /\ fst (TryStealingLocks t) = false
      /\ exec_status_ (snd (TryStealingLocks t)) = exec_status_ t).
Proof.
  unfold TryStealingLocks. rewrite cas_from_STARTED.
  destruct (decide (exec_status_ t = STARTED)) as [Hst|Hst]; [by left|by right].
Qed.

(** Once the status has left [STARTED], no [TryStealingLocks] answers
    [true]. *)
Lemma steals_won_frozen (es : list Event) (t : TransactionImpl) (w : World) :
  exec_status_ t <> STARTED -> steals_won es t w = 0%nat.
Proof.
  revert t w. induction es as [|e es IH]; intros t w Hst; [done|].
  cbn [steals_won].
  assert (exec_status_ (fst (happen e t w)) = exec_status_ t) as Hsame.
  { destruct (happen_status e t w) as [H|[H _]]; [done|by destruct Hst]. }
  rewrite IH by congruence.
  destruct e; try done.
  destruct (TryStealingLocks_cases t) as [[H _]|(_ & -> & _)]; [by destruct Hst|done].
Qed.

(** At most one [TryStealingLocks] answers [true], and then the status ends
    as [LOCKS_STOLEN]. *)
Lemma steals_won_once (es : list Event) (t : TransactionImpl) (w : World) :
  (steals_won es t w <= 1)%nat
  /\ (steals_won es t w = 1%nat ->
      exec_status_ (fst (happen_all es t w)) = LOCKS_STOLEN).
Proof.
  revert t w. induction es as [|e es IH]; intros t w.
  - cbn. split; [lia|done].
  - cbn [steals_won happen_all].
    destruct (IH (fst (happen e t w)) (snd (happen e t w))) as [IH1 IH2].
    assert (Hother :
             (0 + steals_won es (fst (happen e t w)) (snd (happen e t w)) <= 1)%nat
             /\ ((0 + steals_won es (fst (happen e t w)) (snd (happen e t w)))%nat
                 = 1%nat ->
                 exec_status_ (fst (happen_all es (fst (happen e t w))
                                               (snd (happen e t w))))
                 = LOCKS_STOLEN)) by (split; [lia|exact IH2]).
    destruct e; try exact Hother.
    destruct (TryStealingLocks_cases t) as [[Hst Hr]|(_ & Hr & _)].
    + cbn [happen]. rewrite Hr. cbn [fst snd].
      rewrite steals_won_frozen by done. split; [lia|]. intros _.
      by rewrite status_frozen.
    + rewrite Hr. exact Hother.
Qed.

(** For a transaction with an expiration time, the [TryStealingLocks] calls
    that answered [true] and the writes to the store number at most one
    together. *)
Lemma steal_or_write (es : list Event) (t : TransactionImpl) (w : World) :
  (0 < expiration_time_ t)%Z ->
  exists written : list WriteBatch,
    db_writes (snd (happen_all es t w)) = db_writes w ++ written
    /\ (steals_won es t w + length written <= 1)%nat.
Proof.
  revert t w. induction es as [|e es IH]; intros t w Hexp.
  - exists []. rewrite app_nil_r. cbn. split; [done|lia].
  - cbn [steals_won happen_all].
    destruct (happen_effect e t w) as ((_ & _ & Hexp' & _) & _ & Hwr).
    assert (Hwon : forall n : nat,
               (n = 0%nat \/ (n = 1%nat /\ exec_status_ t = STARTED
                              /\ exec_status_ (fst (happen e t w)) = LOCKS_STOLEN)) ->
               exists written : list WriteBatch,
                 db_writes (snd (happen_all es (fst (happen e t w))
                                            (snd (happen e t w))))
                 = db_writes w ++ written
                 /\ (n + steals_won es (fst (happen e t w)) (snd (happen e t w))
                     + length written <= 1)%nat).
    { intros n [->|(-> & Hst & Hstolen)].
      - destruct Hwr as [Hsame|(b & Hb & Hcas)].
        + destruct (IH (fst (happen e t w)) (snd (happen e t w))) as (bs & Hbs & Hlen);
            [lia|].
          exists bs. rewrite Hbs, Hsame. split; [done|lia].
        + destruct (Hcas Hexp) as [_ Hcommitting].
          exists [b]. rewrite no_write_after_leaving_STARTED;
            [|lia|by rewrite Hcommitting].
          rewrite steals_won_frozen by (by rewrite Hcommitting).
          split; [done|cbn; lia].
      - exists []. rewrite app_nil_r.
        rewrite no_write_after_leaving_STARTED; [|lia|by rewrite Hstolen].
        rewrite steals_won_frozen by (by rewrite Hstolen).
        destruct Hwr as [Hsame|(b & _ & Hcas)].
        + split; [done|cbn; lia].
        + destruct (Hcas Hexp) as [_ Hcommitting]. congruence. }
    destruct e; try (apply (Hwon 0%nat); by left).
    destruct (TryStealingLocks_cases t) as [[Hst Hr]|(_ & Hr & _)].
    + rewrite Hr. cbn [fst]. apply (Hwon 1%nat). right.
      split; [done|]. split; [done|]. cbn [happen]. by rewrite Hr.
    + rewrite Hr. apply (Hwon 0%nat). by left.
Qed.

End Exchanges.

(** Claim C2.  Whatever happens to a transaction, its execution status
    either stays as it is or goes from [STARTED] to [COMMITTING] (in a
    commit) or from [STARTED] to [LOCKS_STOLEN] (in [TryStealingLocks]);
    both are compare-and-set instructions that expect [STARTED]:
    [TryStealingLocks] answers [true] exactly when it found [STARTED], and
    then it has set [LOCKS_STOLEN], otherwise it leaves the status; a commit
    of an expirable, not yet expired transaction that finds [STARTED] sets
    [COMMITTING] and hands the batch to the store.  In any sequence of
    events the status changes at most once; at most one [TryStealingLocks]
    answers [true], and then the status ends as [LOCKS_STOLEN], never as
    [COMMITTING]; for a transaction with an expiration time the
    [TryStealingLocks] calls that answered [true] and the writes to the
    store number at most one together: at most one of the two exchanges
    ever succeeds.  A commit of an expirable, not yet expired transaction
    that does not find [STARTED] returns [Expired] and leaves the
    transaction and the world, the store's writes included, as they
    were. *)
Theorem C2_status_changes_at_most_once_by_cas :
  forall (t : TransactionImpl) (w : World),
    (forall e : Event,
        exec_status_ (fst (happen e t w)) = exec_status_ t
        \/ (exec_status_ t = STARTED
            /\ ((exec_status_ (fst (happen e t w)) = COMMITTING
                 /\ (e = CallCommit \/ exists batch, e = CallCommitBatch batch))
                \/ (exec_status_ (fst (happen e t w)) = LOCKS_STOLEN
                    /\ e = CallTryStealingLocks))))
    /\ (forall obj desired : ExecutionStatus,
           atomic_compare_exchange_strong obj STARTED desired
           = if decide (obj = STARTED) then (true, desired) else (false, obj))
    /\ (fst (TryStealingLocks t) = true <-> exec_status_ t = STARTED)
    /\ (fst (TryStealingLocks t) = true ->
        exec_status_ (snd (TryStealingLocks t)) = LOCKS_STOLEN)
    /\ (fst (TryStealingLocks t) = false ->
        exec_status_ (snd (TryStealingLocks t)) = exec_status_ t)
    /\ (forall batch : WriteBatch,
           (0 < expiration_time_ t)%Z ->
           IsExpired t w = false ->
           exec_status_ t = STARTED ->
           DoCommit batch t w
           = (fst (DB.Write batch w), set_exec_status COMMITTING t,
              snd (DB.Write batch w))
           /\ exec_status_ (snd (fst (Commit t w))) = COMMITTING
           /\ db_writes (snd (Commit t w)) = db_writes w ++ [write_batch_ t])
    /\ (forall es : list Event, (count_transitions es t w <= 1)%nat)
    /\ (forall es : list Event,
           (steals_won es t w <= 1)%nat
           /\ (steals_won es t w = 1%nat ->
               exec_status_ (fst (happen_all es t w)) = LOCKS_STOLEN)
           /\ (exec_status_ (fst (happen_all es t w)) = COMMITTING ->
               steals_won es t w = 0%nat))
    /\ (forall es : list Event,
           (0 < expiration_time_ t)%Z ->
           exists written : list WriteBatch,
             db_writes (snd (happen_all es t w)) = db_writes w ++ written
             /\ (steals_won es t w + length written <= 1)%nat)
    /\ (forall batch : WriteBatch,
           (0 < expiration_time_ t)%Z ->
           exec_status_ t <> STARTED ->
           DoCommit batch t w = (Expired, t, w)
           /\ fst (fst (Commit t w)) = Expired
           /\ db_writes (snd (Commit t w)) = db_writes w).
Proof.
  intros t w.
  split; [intros e; apply happen_status|].
  split; [apply cas_from_STARTED|].
  split.
  { destruct (TryStealingLocks_cases t) as [[Hst ->]|(Hst & -> & _)]; cbn [fst];
      split; done. }
  split.
  { destruct (TryStealingLocks_cases t) as [[_ ->]|(_ & -> & _)]; [done|].
    intros H. discriminate H. }
  split.
  { destruct (TryStealingLocks_cases t) as [[_ ->]|(_ & _ & Hsame)]; [|done].
    intros H. discriminate H. }
  split.
  { intros batch Hexp Hnot Hst.
    assert (now_micros w < expiration_time_ t)%Z as Hnow.
    { destruct (Z.lt_ge_cases (now_micros w) (expiration_time_ t)) as [|Hge];
        [done|].
      rewrite (proj2 (IsExpired_true t w)) in Hnot by (split; lia).
      discriminate Hnot. }
    split; [by apply DoCommit_expirable_writes|].
    rewrite Commit_unfold. cbn [fst snd].
    rewrite DoCommit_expirable_writes by done. cbn [fst snd]. split; [done|].
    destruct (table_UnLock_kept (txn_id_ (set_exec_status COMMITTING t))
                (tracked_keys_ (set_exec_status COMMITTING t))
                (snd (DB.Write (write_batch_ t) w))) as [(-> & _) _].
    by destruct (DB_Write_frame (write_batch_ t) w) as (_ & -> & _). }
  split; [intros es; apply at_most_one_transition|].
  split.
  { intros es. destruct (steals_won_once es t w) as [Hle Hstolen].
    split; [exact Hle|]. split; [exact Hstolen|].
    intros Hcommitting.
    destruct (decide (steals_won es t w = 1%nat)) as [Hone|Hnone]; [|lia].
    rewrite (Hstolen Hone) in Hcommitting. discriminate Hcommitting. }
  split; [intros es Hexp; by apply steal_or_write|].
  intros batch Hexp Hst.
  split; [apply DoCommit_refused; auto|].
  rewrite Commit_unfold. cbn [fst snd].
  rewrite DoCommit_refused by auto. done.
Qed.

(** Property X7.  A transaction whose locks were handed over has written
    nothing: if, for a transaction with an expiration time, a
    [TryStealingLocks] call among the events answered [true], then the
    store has seen no write in the course of the events, before that call
    or after it; the status ends as [LOCKS_STOLEN], and [Commit] then
    returns [Expired] and writes nothing. *)
Theorem X7_stolen_transaction_has_written_nothing :
  forall (es : list Event) (t : TransactionImpl) (w : World),
    (0 < expiration_time_ t)%Z ->
    (1 <= steals_won es t w)%nat ->
    db_writes (snd (happen_all es t w)) = db_writes w
    /\ exec_status_ (fst (happen_all es t w)) = LOCKS_STOLEN
    /\ fst (fst (Commit (fst (happen_all es t w)) (snd (happen_all es t w)))) = Expired
    /\ db_writes (snd (Commit (fst (happen_all es t w)) (snd (happen_all es t w))))
       = db_writes (snd (happen_all es t w)).
Proof.
  intros es t w Hexp Hwon.
  destruct (steal_or_write es t w Hexp) as (written & Hwritten & Hone).
  destruct (steals_won_once es t w) as [Hle Hstolen].
  assert (written = []) as -> by (destruct written; [done|cbn in Hone; lia]).
  rewrite app_nil_r in Hwritten.
  assert (exec_status_ (fst (happen_all es t w)) = LOCKS_STOLEN) as Hfinal
      by (apply Hstolen; lia).
  split; [exact Hwritten|]. split; [exact Hfinal|].
  destruct (happen_all_identity es t w) as ((_ & _ & Hexp' & _) & _).
  rewrite Commit_unfold. cbn [fst snd].
  rewrite DoCommit_refused; [|lia|right; by rewrite Hfinal]. cbn [fst snd].
  split; [done|].
  by destruct (table_UnLock_kept (txn_id_ (fst (happen_all es t w)))
                 (tracked_keys_ (fst (happen_all es t w)))
                 (snd (happen_all es t w))) as [(-> & _) _].
Qed.

Lemma X7_stolen_transaction_has_written_nothing_witness :
  db_writes (snd (happen_all [CallTryStealingLocks; CallCommit]
                             expirable_txn quiet_world))
  = db_writes quiet_world
  /\ exec_status_ (fst (happen_all [CallTryStealingLocks; CallCommit]
                                   expirable_txn quiet_world))
     = LOCKS_STOLEN.
Proof.
  destruct (X7_stolen_transaction_has_written_nothing
              [CallTryStealingLocks; CallCommit] expirable_txn quiet_world)
    as (Hwrites & Hstatus & _).
  - reflexivity.
  - vm_compute. lia.
  - split; [exact Hwrites|exact Hstatus].
Defined.
